(** * ProjectManagementApp: the project screen, the dependency-graph editor,
      the timeline view and the schedule result, embedded and verified.

    The development follows the TypeScript sources of the front end:

    - [types/index.ts]           the records exchanged with the API;
    - [components/PERTChart.tsx] the dependency-graph editor ([onConnect],
                                 [hasCycle], its nodes and edges, its task
                                 forms) and the checklist of its detail
                                 panel;
    - [components/WBSView.tsx]   the timeline view ([getTaskCategory],
                                 [getDescriptionWithoutCategory],
                                 [getTaskPosition], [sortedTasks], its task
                                 forms and checklist);
    - [pages/ProjectDetail.tsx]  the project screen (dirty flag, members,
                                 project edit, recalculation);
    - [pages/ProjectList.tsx]    the list of projects, its pages and
                                 project creation with its member selection;
    - [pages/EmployeeList.tsx],
      [pages/EmployeeDetail.tsx] the list of employees, the page of one
                                 employee and their forms;
    - [utils/api.ts]             the requests.

    The schedule engine itself runs on the server, behind one of those
    requests: the handlers take its answer as [types/index.ts] declares it,
    and the engine with its result is modelled from the specification in
    [Engine].

    JavaScript values are modelled as the code uses them: strings are lists
    of UTF-16 code units, identifiers are integers rendered in decimal by
    [toString], the numbers that carry ratios are doubles, each given by the
    rational it denotes, with sums and differences rounded to the nearest
    double ([JSNumber]), and [Date] values are time values in milliseconds
    ([None] for an invalid date).
    Event handlers are programs of a small state-and-exception monad over the
    screen state; the API calls they issue are recorded in a log.  The
    handlers of the checklist and of the employee forms run over their own
    state, in a monad of the same kind ([Local]). *)

From stdpp Require Import base gmap sets list strings pretty relations.
From stdpp Require Import sorting.
From Equations Require Import Equations.
From Stdlib Require Import Ascii QArith Qminmax Qround Qabs Qpower Lqa.

Local Open Scope Z_scope.

(* [done] of stdpp clears hypotheses that its [case] has already used up. *)
#[global] Set Warnings "-clear-no-such-hyp".

(** ** JavaScript strings *)

Module JS.

(** A string is its sequence of UTF-16 code units. *)
Definition jsstring := list Z.

(** The code unit of an ASCII character. *)
Definition code_of_ascii (a : ascii) : Z := Z.of_N (N_of_ascii a).

(** An ASCII literal as a JavaScript string. *)
Definition js (s : string) : jsstring :=
  code_of_ascii <$> String.list_ascii_of_string s.

(** [Number.prototype.toString] on an integer: its decimal rendering. *)
Definition toString (n : Z) : jsstring := js (pretty n).

(** Truthiness of a possibly absent string: [undefined], [null] and the
    empty string are falsy. *)
Definition truthy (o : option jsstring) : bool :=
  match o with
  | Some (_ :: _) => true
  | _ => false
  end.

(** [s.split(sep)] for a one-unit separator. *)
Fixpoint split (sep : Z) (s : jsstring) : list jsstring :=
  match s with
  | [] => [[]]
  | c :: s' =>
      if bool_decide (c = sep) then [] :: split sep s'
      else match split sep s' with
           | [] => [[c]]
           | w :: ws => (c :: w) :: ws
           end
  end.

(** [LineTerminator]: LF, CR, LS, PS.  A [.] of a regular expression
    without the [s] flag matches any code unit but these. *)
Definition is_line_terminator (c : Z) : bool :=
  bool_decide (c ∈ [10; 13; 8232; 8233]).

(** The class [\s], also what [trim] strips: [WhiteSpace] (TAB, VT, FF,
    SP, NBSP, ZWNBSP and the space separators of Unicode) and
    [LineTerminator]. *)
Definition is_white_space (c : Z) : bool :=
  bool_decide (c ∈ [9; 11; 12; 32; 160; 5760; 8239; 8287; 12288; 65279])
  || bool_decide (8192 ≤ c ≤ 8202)
  || is_line_terminator c.

(** The longest prefix whose code units satisfy [p], and what follows. *)
Fixpoint span (p : Z → bool) (s : jsstring) : jsstring * jsstring :=
  match s with
  | c :: s' =>
      if p c then let '(a, b) := span p s' in (c :: a, b) else ([], s)
  | [] => ([], [])
  end.

(** [s.trim()] *)
Definition trimStart (s : jsstring) : jsstring := snd (span is_white_space s).
Definition trim (s : jsstring) : jsstring :=
  reverse (trimStart (reverse (trimStart s))).

(** [s.startsWith('[')] and [s.includes(']')] *)
Definition startsWith (c : Z) (s : jsstring) : bool :=
  match s with
  | c' :: _ => bool_decide (c' = c)
  | [] => false
  end.
Definition includes (c : Z) (s : jsstring) : bool := bool_decide (c ∈ s).

End JS.


(** ** JavaScript numbers

    A number of the language is a double, a binary64 floating-point value.
    The numbers that carry allocation ratios are modelled by the rational
    they denote.  Comparisons, [Math.max] and [Math.min] are exact on
    doubles, and so they are here; a sum or a difference is the double
    nearest to the exact result, a tie going to the even significand.  The
    two infinities are the rationals of magnitude [2 ^ 1024], which no finite
    double reaches.  [NaN] is not modelled: the ratios come from JSON and
    from number inputs, which give finite doubles, and the sums, differences
    and maxima that the code takes of them yield no [NaN]. *)

Module JSNumber.

(** The exponent [l] of the power of two with [2 ^ l <= |q| < 2 ^ (l + 1)],
    for [q] other than zero. *)
Definition log2_floor (q : Q) : Z :=
  let l := Z.log2 (Z.abs (Qnum q)) - Z.log2 (Z.pos (Qden q)) in
  if Qle_bool (2 ^ l) (Qabs q) then l else l - 1.

(** The integer nearest to [q]; of two that are equally near, the even
    one. *)
Definition round_half_even (q : Q) : Z :=
  let f := Qfloor q in
  match (q - inject_Z f ?= 1 # 2)%Q with
  | Lt => f
  | Gt => f + 1
  | Eq => if Z.even f then f else f + 1
  end.

(** The exponent of the last place of a double near [q]: a significand has
    53 bits, and below [2 ^ -1022] the doubles are [2 ^ -1074] apart. *)
Definition ulp_exponent (q : Q) : Z := Z.max (log2_floor q - 52) (-1074).

Definition infinity : Q := 2 ^ 1024.

(** The double nearest to [q]. *)
Definition round64 (q : Q) : Q :=
  if Qeq_bool q 0 then 0%Q
  else
    let e := ulp_exponent q in
    let r := (inject_Z (round_half_even (q / 2 ^ e)) * 2 ^ e)%Q in
    Qred (Qmax (- infinity) (Qmin r infinity)).

(** [a + b]; an infinity absorbs what is added to it. *)
Definition add (a b : Q) : Q :=
  if Qle_bool infinity (Qabs a) then a
  else if Qle_bool infinity (Qabs b) then b
  else round64 (a + b).

(** [a - b] *)
Definition sub (a b : Q) : Q := add a (- b).

(** The value of a decimal literal, and of [Number] on the decimal text of
    a number input: the double nearest to the decimal. *)
Definition of_decimal (q : Q) : Q := round64 q.

End JSNumber.
(** ** The records of [types/index.ts]

    Each interface is a record in a module of its name, so that fields keep
    the names of the source.  Optional properties are [option]s. *)

Module Employee.
Record t := mk {
  employee_id : Z;
  employee_name : JS.jsstring;
  email : JS.jsstring;
  daily_work_hours : option Q
}.
End Employee.

Module ProjectPhase.
Record t := mk {
  phase_id : Z;
  project_id : Z;
  phase_name : JS.jsstring;
  description : option JS.jsstring;
  sort_order : Z;
  phase_color : JS.jsstring
}.
End ProjectPhase.

Module Project.
Record t := mk {
  project_id : Z;
  project_name : JS.jsstring;
  client_name : option JS.jsstring;
  manager_id : option Z;
  manager : option Employee.t;
  budget : option Q;
  start_date : option JS.jsstring;
  end_date : option JS.jsstring;
  status_code : option JS.jsstring;
  phases : option (list ProjectPhase.t)
}.
End Project.

(** [Partial<Project>]: the state of the project create and edit forms. *)
Module PartialProject.
Record t := mk {
  project_id : option Z;
  project_name : option JS.jsstring;
  client_name : option JS.jsstring;
  manager_id : option Z;
  manager : option Employee.t;
  budget : option Q;
  start_date : option JS.jsstring;
  end_date : option JS.jsstring;
  status_code : option JS.jsstring;
  phases : option (list ProjectPhase.t)
}.
End PartialProject.

Module ProjectMember.
Record t := mk {
  project_id : Z;
  employee_id : Z;
  employee : option Employee.t;
  role_in_project : option JS.jsstring;
  allocation_ratio : option Q;
  join_date : option JS.jsstring;
  leave_date : option JS.jsstring
}.
End ProjectMember.

Inductive DependencyType := FS | SS | FF | SF.

Module TaskDependency.
Record t := mk {
  task_id : Z;
  depends_on_id : Z;
  dependency_type : DependencyType
}.
End TaskDependency.

Module TaskChecklist.
Record t := mk {
  checklist_id : Z;
  task_id : Z;
  item_name : JS.jsstring;
  is_done : bool;
  sort_order : Z
}.
End TaskChecklist.

Module Task.
Record t := mk {
  task_id : Z;
  project_id : Z;
  phase_id : option Z;
  task_name : JS.jsstring;
  description : option JS.jsstring;
  estimated_duration : option Q;
  start_date : option JS.jsstring;
  end_date : option JS.jsstring;
  earliest_start : option JS.jsstring;
  deadline : option JS.jsstring;
  status_code : option JS.jsstring;
  milestone_flag : option bool;
  x_position : option Q;
  y_position : option Q;
  assignee : option Employee.t;
  phase : option ProjectPhase.t
}.
End Task.

(** [WBSTask extends Task]. *)
Module WBSTask.
Record t := mk {
  base : Task.t;
  checklist_progress : Q;
  checklist_items : list TaskChecklist.t;
  dependencies : list TaskDependency.t
}.
End WBSTask.
Coercion WBSTask.base : WBSTask.t >-> Task.t.

Module ScheduleCalculationResult.
Record t := mk {
  tasks : list Task.t;
  critical_path : list Z;
  total_duration : Z
}.
End ScheduleCalculationResult.

(** ** Requests, alerts and the screen state *)

(** The [newTask] form state of the task-creation dialogs. *)
Module NewTask.
Record t := mk {
  task_name : JS.jsstring;
  description : JS.jsstring;
  estimated_duration : Q;
  task_category : JS.jsstring;
  assignee_id : JS.jsstring;
  milestone_flag : bool
}.
End NewTask.

(** The body of [taskAPI.create]: the form spread, with [description]
    recomposed and [assignee_id] converted to a number. *)
Module TaskCreate.
Record t := mk {
  task_name : JS.jsstring;
  description : JS.jsstring;
  estimated_duration : Q;
  task_category : JS.jsstring;
  assignee_id : option Z;
  milestone_flag : bool;
  project_id : option Z
}.
End TaskCreate.

(** The [editData] state of the task detail panels. *)
Module EditData.
Record t := mk {
  task_name : JS.jsstring;
  category : JS.jsstring;
  description : JS.jsstring;
  estimated_duration : Q;
  status_code : JS.jsstring;
  assignee_id : JS.jsstring
}.
End EditData.

(** The bodies passed to [taskAPI.update]. *)
Inductive TaskUpdate :=
| UpdateStatus (status_code : JS.jsstring)
| UpdateDetails (task_name description : JS.jsstring) (estimated_duration : Q)
                (status_code : JS.jsstring) (assignee_id : option Z)
| UpdatePosition (x_position y_position : Z).

(** The [newMember] form state of the add-member dialog. *)
Module NewMember.
Record t := mk {
  employee_id : JS.jsstring;
  role_in_project : JS.jsstring;
  allocation_ratio : Q
}.
End NewMember.

(** [Partial<ProjectMember>] as the members table sends it. *)
Module MemberUpdates.
Record t := mk {
  role_in_project : option JS.jsstring;
  allocation_ratio : option Q
}.
End MemberUpdates.

(** The requests of [utils/api.ts] that the modelled handlers issue.  The
    reads of [loadProjectData], of [handleUpdateTask] and of the [loadData]
    of the list page are one entry each. *)
Inductive ApiCall :=
| projectAPI_create (body : PartialProject.t)
| projectAPI_update (id : Z) (body : PartialProject.t)
| projectMemberAPI_addMember (body : ProjectMember.t)
| projectMemberAPI_removeMember (projectId employeeId : Z)
| projectMemberAPI_updateMember (projectId employeeId : Z)
                                (updates : MemberUpdates.t)
| taskAPI_create (body : TaskCreate.t)
| taskAPI_update (id : Z) (body : TaskUpdate)
| taskAPI_createDependency (dependency : TaskDependency.t)
| taskAPI_deleteDependency (taskId dependsOnId : Z)
| scheduleAPI_calculateSchedule (projectId : Z)
| fetch_loadProjectData (projectId : Z)
| fetch_getProjectTasks (projectId : Z)
| fetch_loadData.

(** The messages shown with [alert]. *)
Inductive Alert :=
| AlertSameTask                 (* a task cannot depend on itself *)
| AlertDependencyExists         (* this dependency already exists *)
| AlertCycle                    (* the dependency would close a cycle *)
| AlertDependencyCreateFailed
| AlertDependencyDeleteFailed
| AlertTaskNameRequired
| AlertDurationRequired
| AlertAssigneeRequired
| AlertTaskCreateFailed
| AlertTaskUpdateFailed
| AlertProjectNameRequired
| AlertStartDateRequired
| AlertEndDateRequired
| AlertEndNotAfterStart         (* the end date must follow the start date *)
| AlertProjectUpdateFailed
| AlertProjectCreateFailed
| AlertOverCapacity (employee_name : option JS.jsstring) (remaining : Q)
| AlertMemberAddFailed
| AlertMemberUpdateFailed
| AlertScheduleDone (total_duration : Z) (critical_path_length : nat)
| AlertScheduleFailed.

(** The state of the project screen ([ProjectDetail]) that its handlers
    write, with the log of the requests issued (most recent first, each with
    whether it was fulfilled) and of the alerts shown.  The state that the
    graph editor and the timeline keep for their own dialogs is not part of
    it. *)
Record Screen := mkScreen {
  scheduleNeedsRecalculation : bool;
  isCalculatingSchedule : bool;
  showEditForm : bool;
  showAddMemberForm : bool;
  newMember : NewMember.t;
  requests : list (ApiCall * bool);
  alerts : list Alert
}.

(** What the handlers get from outside the component: the answers of the
    server and the conversions of the platform. *)
Record Platform := mkPlatform {
  (** whether a request is fulfilled, given the requests made so far *)
  responds : list (ApiCall * bool) → ApiCall → bool;
  (** the body of a fulfilled calculate-schedule answer *)
  calculated : list (ApiCall * bool) → ScheduleCalculationResult.t;
  (** the body of a fulfilled create-project answer: the new identifier *)
  created_project_id : list (ApiCall * bool) → Z;
  (** [Number(s)] on an identifier string *)
  Number : JS.jsstring → Z;
  (** [new Date(s).getTime()], [None] for an invalid date *)
  Date_getTime : JS.jsstring → option Z;
  (** [toDateString] of a valid time value (local calendar day) *)
  toDateString : Z → JS.jsstring;
  (** [new Date().toISOString().split('T')[0]] *)
  today : JS.jsstring
}.

(** ** The handler monad: screen state and exceptions *)

Module Eff.

Inductive outcome (A : Type) :=
| Ok (a : A)
| Thrown.
Arguments Ok {A} a.
Arguments Thrown {A}.

Definition M (A : Type) : Type := Screen → Screen * outcome A.

Definition ret {A} (a : A) : M A := λ s, (s, Ok a).

Definition bind {A B} (m : M A) (k : A → M B) : M B :=
  λ s, match m s with
       | (s', Ok a) => k a s'
       | (s', Thrown) => (s', Thrown)
       end.

Definition throw {A} : M A := λ s, (s, Thrown).

(** [try { m } catch (e) { h }] *)
Definition try_catch {A} (m : M A) (h : M A) : M A :=
  λ s, match m s with
       | (s', Thrown) => h s'
       | r => r
       end.

(** [try { m } finally { f }] *)
Definition try_finally {A} (m : M A) (f : M unit) : M A :=
  λ s, match m s with
       | (s', r) => match f s' with
                    | (s'', Ok _) => (s'', r)
                    | (s'', Thrown) => (s'', Thrown)
                    end
       end.

Definition exec {A} (m : M A) (s : Screen) : Screen := fst (m s).

Definition alert (a : Alert) : M unit :=
  λ s, (mkScreen (scheduleNeedsRecalculation s) (isCalculatingSchedule s)
                 (showEditForm s) (showAddMemberForm s) (newMember s)
                 (requests s) (a :: alerts s), Ok tt).

(** An awaited request: it is logged, and the await throws when the request
    is rejected. *)
Definition request (P : Platform) (c : ApiCall) : M unit :=
  λ s, let ok := responds P (requests s) c in
       (mkScreen (scheduleNeedsRecalculation s) (isCalculatingSchedule s)
                 (showEditForm s) (showAddMemberForm s) (newMember s)
                 ((c, ok) :: requests s) (alerts s),
        if ok then Ok tt else Thrown).

Definition setScheduleNeedsRecalculation (b : bool) : M unit :=
  λ s, (mkScreen b (isCalculatingSchedule s)
                 (showEditForm s) (showAddMemberForm s) (newMember s)
                 (requests s) (alerts s), Ok tt).

Definition setIsCalculatingSchedule (b : bool) : M unit :=
  λ s, (mkScreen (scheduleNeedsRecalculation s) b
                 (showEditForm s) (showAddMemberForm s) (newMember s)
                 (requests s) (alerts s), Ok tt).

Definition setShowEditForm (b : bool) : M unit :=
  λ s, (mkScreen (scheduleNeedsRecalculation s) (isCalculatingSchedule s)
                 b (showAddMemberForm s) (newMember s)
                 (requests s) (alerts s), Ok tt).

Definition setShowAddMemberForm (b : bool) : M unit :=
  λ s, (mkScreen (scheduleNeedsRecalculation s) (isCalculatingSchedule s)
                 (showEditForm s) b (newMember s)
                 (requests s) (alerts s), Ok tt).

Definition setNewMember (m : NewMember.t) : M unit :=
  λ s, (mkScreen (scheduleNeedsRecalculation s) (isCalculatingSchedule s)
                 (showEditForm s) (showAddMemberForm s) m
                 (requests s) (alerts s), Ok tt).

Definition getRequests : M (list (ApiCall * bool)) :=
  λ s, (s, Ok (requests s)).

End Eff.

#[global] Instance M_ret : MRet Eff.M := @Eff.ret.
#[global] Instance M_bind : MBind Eff.M := λ A B k m, Eff.bind m k.

(** ** The bracketed category of a task description

    [getTaskCategory] and [getDescriptionWithoutCategory] are defined alike
    in [WBSView], in the node and in the detail panel of [PERTChart]; the
    task forms compose the description they parse. *)

Module Category.
Import JS.

Definition lbracket : Z := 91.
Definition rbracket : Z := 93.
Definition space : Z := 32.

(** [s.match(/^\[([^\]]+)\]/)]: group 1 and what follows the match.  The
    group is the longest run of units other than the closing bracket; it
    must not be empty and a closing bracket must follow it. *)
Definition match_category (s : jsstring) : option (jsstring * jsstring) :=
  match s with
  | c :: s' =>
      if bool_decide (c = lbracket) then
        match span (λ u, negb (bool_decide (u = rbracket))) s' with
        | (u :: g, c' :: after) =>
            if bool_decide (c' = rbracket) then Some (u :: g, after) else None
        | _ => None
        end
      else None
  | [] => None
  end.

(** The match of [description] against the same expression followed by
    [\s*] and a second group, a greedy dot-star: groups 1 and 2.  After the
    category, [\s*] takes the longest run of white space and the second
    group the longest run of units that are not line terminators. *)
Definition match_description (s : jsstring) : option (jsstring * jsstring) :=
  match match_category s with
  | Some (g1, after) =>
      let rest := snd (span is_white_space after) in
      Some (g1, fst (span (λ u, negb (is_line_terminator u)) rest))
  | None => None
  end.

(** The guard of both functions:
    [d && d.startsWith('[') && d.includes(']')]. *)
Definition bracketed (d : option jsstring) : bool :=
  match d with
  | Some s => truthy (Some s) && startsWith lbracket s && includes rbracket s
  | None => false
  end.

(** [getTaskCategory(task)]; [None] is [null]. *)
Definition getTaskCategory (task : Task.t) : option jsstring :=
  if bracketed (Task.description task) then
    match Task.description task with
    | Some s => fst <$> match_category s
    | None => None
    end
  else None.

(** [getDescriptionWithoutCategory(description)] *)
Definition getDescriptionWithoutCategory (description : jsstring) : jsstring :=
  if bracketed (Some description) then
    match match_description description with
    | Some (_, g2) => g2
    | None => description
    end
  else description.

(** The description the task forms store: the category in brackets and a
    space before the text, when a category is given. *)
Definition compose_description (category description : jsstring) : jsstring :=
  if truthy (Some category)
  then [lbracket] ++ category ++ [rbracket; space] ++ description
  else description.

(** A description that does not start with white space. *)
Definition starts_black (d : jsstring) : Prop :=
  match d with
  | [] => True
  | u :: _ => is_white_space u = false
  end.

End Category.

(** ** The checks of the task forms

    [handleCreateTask] and [handleSaveTask] of [WBSView], [handleCreateTask]
    of [PERTChart] and [handleSave] of its detail panel all start with the
    same three checks. *)

Module TaskForm.
Import JS.

(** The three checks, in their order; [None] when the form passes. *)
Definition validate_task (task_name : jsstring) (estimated_duration : Q)
    (assignee_id : jsstring) : option Alert :=
  if negb (truthy (Some (trim task_name))) then Some AlertTaskNameRequired
  else if Qle_bool estimated_duration 0 then Some AlertDurationRequired
  else if negb (truthy (Some assignee_id)) then Some AlertAssigneeRequired
  else None.

End TaskForm.

(** ** The dependency-graph editor ([components/PERTChart.tsx]) *)

Module PERTChart.
Import JS Eff.

(** The [Connection] of react-flow: the identifiers of the two nodes. *)
Record Connection := mkConnection {
  source : option jsstring;
  target : option jsstring
}.

(** [tasks.find(t => t.task_id.toString() === id)] *)
Definition findTask (tasks : list WBSTask.t) (id : jsstring)
  : option WBSTask.t :=
  List.find (λ t : WBSTask.t, bool_decide (toString (Task.task_id t) = id))
            tasks.

(** [tasks.find(t => ... === target)?.dependencies
         .find(d => d.depends_on_id.toString() === source)] *)
Definition existingDependency (tasks : list WBSTask.t)
    (source target : jsstring) : option TaskDependency.t :=
  match findTask tasks target with
  | Some t =>
      List.find
        (λ d, bool_decide (toString (TaskDependency.depends_on_id d) = source))
        (WBSTask.dependencies t)
  | None => None
  end.

(** What [currentTask.dependencies.forEach(dep => stack.push(...))] pushes,
    in the order of the pushes. *)
Definition pushed (tasks : list WBSTask.t) (current : jsstring)
  : list jsstring :=
  match findTask tasks current with
  | Some t =>
      (λ d, toString (TaskDependency.depends_on_id d))
        <$> WBSTask.dependencies t
  | None => []
  end.

(** The dependencies of the tasks whose identifier is not yet visited: what
    may still be pushed. *)
Definition weight (visited : gset jsstring) (t : WBSTask.t) : nat :=
  if decide (toString (Task.task_id t) ∈ visited) then 0%nat
  else length (WBSTask.dependencies t).

Definition pending (tasks : list WBSTask.t) (visited : gset jsstring) : nat :=
  sum_list (weight visited <$> tasks).

Lemma findTask_Some (tasks : list WBSTask.t) (id : jsstring) (t : WBSTask.t) :
  findTask tasks id = Some t → t ∈ tasks ∧ toString (Task.task_id t) = id.
Proof.
  unfold findTask. intros H. apply find_some in H as [Hin Hb].
  apply bool_decide_eq_true in Hb. split; [|done].
  by apply list_elem_of_In.
Qed.

Lemma weight_mono (visited visited' : gset jsstring) (t : WBSTask.t) :
  visited ⊆ visited' → (weight visited' t ≤ weight visited t)%nat.
Proof.
  intros Hsub. unfold weight. repeat case_decide; try lia. set_solver.
Qed.

Lemma pending_mono (tasks : list WBSTask.t) (visited visited' : gset jsstring) :
  visited ⊆ visited' → (pending tasks visited' ≤ pending tasks visited)%nat.
Proof.
  intros Hsub. unfold pending.
  induction tasks as [|u tasks IH]; csimpl; [lia|].
  pose proof (weight_mono visited visited' u Hsub). lia.
Qed.

Lemma pending_visit (tasks : list WBSTask.t) (visited : gset jsstring)
    (t : WBSTask.t) :
  t ∈ tasks → toString (Task.task_id t) ∉ visited →
  (pending tasks ({[toString (Task.task_id t)]} ∪ visited)
   + length (WBSTask.dependencies t) ≤ pending tasks visited)%nat.
Proof.
  intros Hin Hnv.
  induction tasks as [|u tasks IH]; [by apply elem_of_nil in Hin|].
  unfold pending in *. csimpl.
  apply elem_of_cons in Hin as [<-|Hin].
  - pose proof (pending_mono tasks visited
                  ({[toString (Task.task_id t)]} ∪ visited)) as Hm.
    unfold pending in Hm.
    unfold weight at 1 3.
    rewrite decide_True by set_solver. rewrite decide_False by done.
    specialize (Hm ltac:(set_solver)). lia.
  - specialize (IH Hin).
    pose proof (weight_mono visited
                  ({[toString (Task.task_id t)]} ∪ visited) u
                  ltac:(set_solver)).
    lia.
Qed.

(** The loop of [hasCycle].  The array [stack] is kept with its last element
    first, so that [stack.pop()] takes the head and each [push] conses.  The
    loop ends because every turn either pops an entry without pushing, or
    visits a new identifier, whose dependencies leave [pending]. *)
Equations? hasCycle_loop (tasks : list WBSTask.t) (sourceId : jsstring)
    (visited : gset jsstring) (stack : list jsstring) : bool
    by wf (length stack + pending tasks visited)%nat lt :=
  hasCycle_loop tasks sourceId visited [] := false;
  hasCycle_loop tasks sourceId visited (current :: rest)
    with decide (current ∈ visited) := {
    | left _ => hasCycle_loop tasks sourceId visited rest
    | right Hnew with decide (current = sourceId) := {
      | left _ => true
      | right _ =>
          hasCycle_loop tasks sourceId ({[current]} ∪ visited)
                        (reverse (pushed tasks current) ++ rest)
      }
    }.
Proof.
  rewrite length_app, length_reverse. unfold pushed.
  destruct (findTask tasks current) as [t|] eqn:Hf.
  - apply findTask_Some in Hf as [Hin <-].
    rewrite length_fmap.
    pose proof (pending_visit tasks visited t Hin Hnew). lia.
  - simpl.
    pose proof (pending_mono tasks visited ({[current]} ∪ visited)
                  ltac:(set_solver)).
    lia.
Qed.

(** [hasCycle(sourceId, targetId)]: the walk starts from the target. *)
Definition hasCycle (tasks : list WBSTask.t) (sourceId targetId : jsstring)
  : bool :=
  hasCycle_loop tasks sourceId ∅ [targetId].

(** One turn of the walk: from an identifier to an identifier it pushes. *)
Definition walks (tasks : list WBSTask.t) (a b : jsstring) : Prop :=
  b ∈ pushed tasks a.

(** A walk from [x] to [y] none of whose identifiers is in [V]. *)
Inductive avoiding (tasks : list WBSTask.t) (V : gset jsstring)
  : jsstring → jsstring → Prop :=
| avoiding_here x : x ∉ V → avoiding tasks V x x
| avoiding_step x y z :
    x ∉ V → walks tasks x y → avoiding tasks V y z → avoiding tasks V x z.

(** Task [a] depends on task [b]: some task of the snapshot with identifier
    [a] lists [b] in its [dependencies]. *)
Definition depends_on (tasks : list WBSTask.t) (a b : Z) : Prop :=
  ∃ (t : WBSTask.t) (d : TaskDependency.t),
    t ∈ tasks ∧ Task.task_id t = a ∧
    d ∈ WBSTask.dependencies t ∧ TaskDependency.depends_on_id d = b.

(** Task identifiers identify: no two tasks of the snapshot share one. *)
Definition unique_ids (tasks : list WBSTask.t) : Prop :=
  NoDup ((λ t : WBSTask.t, Task.task_id t) <$> tasks).

(** No task depends on itself, in one or more steps. *)
Definition acyclic (tasks : list WBSTask.t) : Prop :=
  ∀ a, ¬ tc (depends_on tasks) a a.

(** The connection params of an edge drawn from task [S] to task [T]. *)
Definition connect (S T : Z) : Connection :=
  mkConnection (Some (toString S)) (Some (toString T)).

(** Drawing an edge from [S] to [T] records that [T] depends on [S]; the
    edge closes a cycle when [S] already depends on [T], in zero or more
    steps. *)
Definition closes_cycle (tasks : list WBSTask.t) (S T : Z) : Prop :=
  rtc (depends_on tasks) S T.

(** [onConnect], with the callbacks the component receives as props.  The
    dependency kind is the one selected in the toolbar. *)
Definition onConnect (P : Platform) (tasks : list WBSTask.t)
    (dependencyType : DependencyType)
    (onCreateDependency : TaskDependency.t → M unit)
    (onScheduleChange : M unit) (onUpdateTask : M unit)
    (params : Connection) : M unit :=
  match source params, target params with
  | Some src, Some tgt =>
      if negb (truthy (Some src)) || negb (truthy (Some tgt)) then mret tt
      else if bool_decide (src = tgt) then alert AlertSameTask
      else if existingDependency tasks src tgt is Some _
           then alert AlertDependencyExists
      else if hasCycle tasks src tgt then alert AlertCycle
      else
        try_catch
          (onCreateDependency
             (TaskDependency.mk (Number P tgt) (Number P src) dependencyType);;
           onScheduleChange;;
           onUpdateTask)
          (alert AlertDependencyCreateFailed)
  | _, _ => mret tt
  end.

(** [onEdgeClick]: [const [sourceId, targetId] = edge.id.split('-')], on
    the identifiers [depends_on_id-task_id] that the component gives its
    edges; the answer to [window.confirm] is an input. *)
Definition onEdgeClick (P : Platform) (onScheduleChange : M unit)
    (onUpdateTask : M unit) (edge_id : jsstring) (confirmed : bool)
  : M unit :=
  let parts := split 45 edge_id in
  let sourceId := default [] (parts !! 0%nat) in
  let targetId := default [] (parts !! 1%nat) in
  if confirmed then
    try_catch
      (request P (taskAPI_deleteDependency (Number P targetId)
                                           (Number P sourceId));;
       onScheduleChange;;
       onUpdateTask)
      (alert AlertDependencyDeleteFailed)
  else mret tt.

(** [onNodeDragStop]: the rounded position is saved; a failure is only
    written to the console. *)
Definition onNodeDragStop (P : Platform) (node_id : jsstring) (x y : Z)
  : M unit :=
  try_catch (request P (taskAPI_update (Number P node_id) (UpdatePosition x y)))
            (mret tt).

(** [handleCreateTask]; [onCreateTask] is the callback of the project
    screen. *)
Definition handleCreateTask (P : Platform)
    (onCreateTask : TaskCreate.t → M unit) (onScheduleChange : M unit)
    (onUpdateTask : M unit) (newTask : NewTask.t) : M unit :=
  try_catch
    (match TaskForm.validate_task (NewTask.task_name newTask)
                                  (NewTask.estimated_duration newTask)
                                  (NewTask.assignee_id newTask) with
     | Some a => alert a
     | None =>
         let description :=
           Category.compose_description (NewTask.task_category newTask)
                                        (NewTask.description newTask) in
         onCreateTask
           (TaskCreate.mk (NewTask.task_name newTask) description
              (NewTask.estimated_duration newTask)
              (NewTask.task_category newTask)
              (Some (Number P (NewTask.assignee_id newTask)))
              (NewTask.milestone_flag newTask) None);;
         onScheduleChange;;
         onUpdateTask
     end)
    (alert AlertTaskCreateFailed).

(** [handleSave] of [TaskDetailPanel]; its [onUpdate] prop is
    [onScheduleChange] followed by [onUpdateTask]. *)
Definition handleSave (P : Platform) (onScheduleChange : M unit)
    (onUpdateTask : M unit) (task : WBSTask.t) (editData : EditData.t)
  : M unit :=
  try_catch
    (match TaskForm.validate_task (EditData.task_name editData)
                                  (EditData.estimated_duration editData)
                                  (EditData.assignee_id editData) with
     | Some a => alert a
     | None =>
         let finalDescription :=
           Category.compose_description
             (trim (EditData.category editData))
             (EditData.description editData) in
         request P (taskAPI_update (Task.task_id task)
           (UpdateDetails (EditData.task_name editData) finalDescription
              (EditData.estimated_duration editData)
              (EditData.status_code editData)
              (Some (Number P (EditData.assignee_id editData)))));;
         onScheduleChange;;
         onUpdateTask
     end)
    (alert AlertTaskUpdateFailed).

End PERTChart.

(** ** The timeline view ([components/WBSView.tsx]) *)

Module WBSView.
Import JS Eff.

(** A bar of the timeline, in pixels; [width] is [None] when it is [NaN]. *)
Record Position := mkPosition {
  left : Z;
  width : option Z
}.

Definition day_ms : Z := 1000 * 60 * 60 * 24.

(** [Math.ceil(a / b)] on integers, for a positive [b]. *)
Definition ceil_div (a b : Z) : Z := - ((- a) / b).

(** [dateRange.findIndex(p)]; [None] is [-1]. *)
Fixpoint findIndex {A} (p : A → bool) (l : list A) : option Z :=
  match l with
  | [] => None
  | x :: l' => if p x then Some 0 else Z.succ <$> findIndex p l'
  end.

(** [date.toDateString()] of a [Date] that may be invalid. *)
Definition Date_toDateString (P : Platform) (t : option Z) : jsstring :=
  match t with
  | Some ms => toDateString P ms
  | None => js "Invalid Date"
  end.

(** [getTaskPosition(task)]; [dateRange] holds the days of the rendered
    range, which are valid dates.  [None] is [null]. *)
Definition getTaskPosition (P : Platform) (dateRange : list Z)
    (task : Task.t) : option Position :=
  if negb (truthy (Task.start_date task)) || negb (truthy (Task.end_date task))
  then None
  else
    let taskStart := Task.start_date task ≫= Date_getTime P in
    let taskEnd := Task.end_date task ≫= Date_getTime P in
    let startIndex :=
      findIndex (λ date, bool_decide (toDateString P date
                                      = Date_toDateString P taskStart))
                dateRange in
    let durationDays :=
      match taskStart, taskEnd with
      | Some ts, Some te => Some (ceil_div (te - ts) day_ms + 1)
      | _, _ => None
      end in
    match startIndex with
    | None => None
    | Some i =>
        Some (mkPosition (i * 30) ((λ d, Z.max (d * 30) 25) <$> durationDays))
    end.

(** The start day of a task is one of the rendered days. *)
Definition starts_in_range (P : Platform) (dateRange : list Z)
    (task : Task.t) : Prop :=
  ∃ date, date ∈ dateRange ∧
    toDateString P date
    = Date_toDateString P (Task.start_date task ≫= Date_getTime P).

(** [handleStatusUpdate] *)
Definition handleStatusUpdate (P : Platform) (onScheduleChange : M unit)
    (onUpdateTask : M unit) (taskId : Z) (newStatus : jsstring) : M unit :=
  try_catch
    (request P (taskAPI_update taskId (UpdateStatus newStatus));;
     onScheduleChange;;
     onUpdateTask)
    (mret tt).

(** [handleCreateTask]; the project is the one of the first task shown, or
    the [project] prop, whose absence makes [project!.project_id] throw. *)
Definition handleCreateTask (P : Platform) (sortedTasks : list WBSTask.t)
    (project : option Project.t) (onScheduleChange : M unit)
    (onUpdateTask : M unit) (newTask : NewTask.t) : M unit :=
  try_catch
    (match TaskForm.validate_task (NewTask.task_name newTask)
                         (NewTask.estimated_duration newTask)
                         (NewTask.assignee_id newTask) with
     | Some a => alert a
     | None =>
         projectId ←
           match sortedTasks with
           | t :: _ => mret (Task.project_id t)
           | [] => match project with
                   | Some p => mret (Project.project_id p)
                   | None => throw
                   end
           end;
         let description :=
           Category.compose_description (NewTask.task_category newTask)
                                        (NewTask.description newTask) in
         request P (taskAPI_create
           (TaskCreate.mk (NewTask.task_name newTask) description
              (NewTask.estimated_duration newTask)
              (NewTask.task_category newTask)
              (Some (Number P (NewTask.assignee_id newTask)))
              (NewTask.milestone_flag newTask) (Some projectId)));;
         onScheduleChange;;
         onUpdateTask
     end)
    (alert AlertTaskCreateFailed).

(** [handleSaveTask]; the edited category is trimmed before it is put back
    in front of the description. *)
Definition handleSaveTask (P : Platform) (onScheduleChange : M unit)
    (onUpdateTask : M unit) (selectedTask : option WBSTask.t)
    (editData : EditData.t) : M unit :=
  match selectedTask with
  | None => mret tt
  | Some task =>
      try_catch
        (match TaskForm.validate_task (EditData.task_name editData)
                             (EditData.estimated_duration editData)
                             (EditData.assignee_id editData) with
         | Some a => alert a
         | None =>
             let finalDescription :=
               Category.compose_description
                 (trim (EditData.category editData))
                 (EditData.description editData) in
             request P (taskAPI_update (Task.task_id task)
               (UpdateDetails (EditData.task_name editData) finalDescription
                  (EditData.estimated_duration editData)
                  (EditData.status_code editData)
                  (Some (Number P (EditData.assignee_id editData)))));;
             onScheduleChange;;
             onUpdateTask
         end)
        (alert AlertTaskUpdateFailed)
  end.

End WBSView.

(** ** Project forms: the checks shared by creation and edit

    [handleCreateProject] ([ProjectList]) and [handleEditProject]
    ([ProjectDetail]) start with the same four checks. *)

Module ProjectForm.
Import JS.

(** [!name?.trim()] *)
Definition blank (o : option jsstring) : bool :=
  match o with
  | Some s => negb (truthy (Some (trim s)))
  | None => true
  end.

(** [startDate >= endDate] on two [Date]s: false when either is invalid. *)
Definition Date_ge (P : Platform) (a b : jsstring) : bool :=
  match Date_getTime P a, Date_getTime P b with
  | Some ta, Some tb => bool_decide (tb ≤ ta)
  | _, _ => false
  end.

(** The checks, in their order; [None] when the form passes. *)
Definition validate_project (P : Platform) (form : PartialProject.t)
  : option Alert :=
  if blank (PartialProject.project_name form)
  then Some AlertProjectNameRequired
  else if negb (truthy (PartialProject.start_date form))
  then Some AlertStartDateRequired
  else if negb (truthy (PartialProject.end_date form))
  then Some AlertEndDateRequired
  else
    match PartialProject.start_date form, PartialProject.end_date form with
    | Some sd, Some ed =>
        if Date_ge P sd ed then Some AlertEndNotAfterStart else None
    | _, _ => None
    end.

(** The dates of a form are those of a date input: a date that is given
    is a valid date. *)
Definition valid_date (P : Platform) (d : option jsstring) : Prop :=
  ∀ v, d = Some v → v ≠ [] → is_Some (Date_getTime P v).

(** Both dates are given and the start is strictly earlier than the end. *)
Definition ordered_window (P : Platform) (form : PartialProject.t) : Prop :=
  ∃ sd ed ts te,
    PartialProject.start_date form = Some sd ∧ sd ≠ [] ∧
    PartialProject.end_date form = Some ed ∧ ed ≠ [] ∧
    Date_getTime P sd = Some ts ∧ Date_getTime P ed = Some te ∧ ts < te.

End ProjectForm.

(** ** Workloads: [employeesWithWorkload] and [calculateEmployeeWorkloads] *)

Module Workload.

(** [EmployeeWithWorkload]; [ProjectList] keeps the identifier only. *)
Record t := mk {
  employee : Employee.t;
  total_allocation : Q;
  remaining_capacity : Q
}.

(** [allMembers.filter(m => m.employee_id === id)
              .map(m => m.allocation_ratio || 0)] *)
Definition allocations (allMembers : list ProjectMember.t) (id : Z) : list Q :=
  (λ m, default 0%Q (ProjectMember.allocation_ratio m))
    <$> filter (λ m, ProjectMember.employee_id m = id) allMembers.

(** [allocations.reduce((sum, a) => sum + a, 0)], each sum rounded as the
    language rounds it. *)
Definition total (allocations : list Q) : Q :=
  foldl JSNumber.add 0%Q allocations.

(** [Math.max(0, 1.0 - totalAllocation)] *)
Definition remainingCapacity (totalAllocation : Q) : Q :=
  Qmax 0 (JSNumber.sub 1 totalAllocation).

Definition employeesWithWorkload (employees : list Employee.t)
    (allMembers : list ProjectMember.t) : list t :=
  (λ e,
     let totalAllocation :=
       total (allocations allMembers (Employee.employee_id e)) in
     mk e totalAllocation (remainingCapacity totalAllocation))
  <$> employees.

(** [allocation > remaining_capacity] *)
Definition exceeds (allocation remaining : Q) : bool :=
  negb (Qle_bool allocation remaining).

End Workload.

(** ** The project screen ([pages/ProjectDetail.tsx]) *)

Module ProjectDetail.
Import JS Eff.

(** What the screen has loaded, as the handlers see it. *)
Record Data := mkData {
  projectId : Z;
  project : option Project.t;
  tasks : list WBSTask.t;
  employees : list Employee.t;
  allMembers : list ProjectMember.t;
  members : list ProjectMember.t
}.

(** [loadProjectData]: it catches what its requests throw. *)
Definition loadProjectData (P : Platform) (D : Data) : M unit :=
  try_catch (request P (fetch_loadProjectData (projectId D))) (mret tt).

(** [handleUpdateTask]: likewise. *)
Definition handleUpdateTask (P : Platform) (D : Data) : M unit :=
  try_catch (request P (fetch_getProjectTasks (projectId D))) (mret tt).

(** [handleScheduleChange] *)
Definition handleScheduleChange : M unit :=
  setScheduleNeedsRecalculation true.

(** [handleCalculateSchedule] *)
Definition handleCalculateSchedule (P : Platform) (D : Data) : M unit :=
  setIsCalculatingSchedule true;;
  try_finally
    (try_catch
       (request P (scheduleAPI_calculateSchedule (projectId D));;
        log ← getRequests;
        let result := calculated P log in
        loadProjectData P D;;
        setScheduleNeedsRecalculation false;;
        alert (AlertScheduleDone
                 (ScheduleCalculationResult.total_duration result)
                 (length (ScheduleCalculationResult.critical_path result))))
       (alert AlertScheduleFailed))
    (setIsCalculatingSchedule false).

(** [handleCreateTask]: the callback of the graph editor; a failure is only
    written to the console. *)
Definition handleCreateTask (P : Platform) (D : Data)
    (taskData : TaskCreate.t) : M unit :=
  try_catch
    (request P (taskAPI_create
       (TaskCreate.mk (TaskCreate.task_name taskData)
          (TaskCreate.description taskData)
          (TaskCreate.estimated_duration taskData)
          (TaskCreate.task_category taskData)
          (TaskCreate.assignee_id taskData)
          (TaskCreate.milestone_flag taskData)
          (Some (projectId D))));;
     handleScheduleChange;;
     loadProjectData P D)
    (mret tt).

(** [handleEditProject] *)
Definition handleEditProject (P : Platform) (D : Data)
    (editProject : PartialProject.t) : M unit :=
  try_catch
    (match ProjectForm.validate_project P editProject with
     | Some a => alert a
     | None =>
         request P (projectAPI_update (projectId D) editProject);;
         (if bool_decide (PartialProject.start_date editProject
                          ≠ project D ≫= Project.start_date)
             || bool_decide (PartialProject.end_date editProject
                             ≠ project D ≫= Project.end_date)
          then handleScheduleChange else mret tt);;
         setShowEditForm false;;
         loadProjectData P D
     end)
    (alert AlertProjectUpdateFailed).

(** [handleAddMember]; the form is the [newMember] state.  The capacity
    check applies when the selected employee is found among the workloads. *)
Definition handleAddMember (P : Platform) (D : Data) : M unit :=
  λ s,
  let newMember := newMember s in
  let id := Number P (NewMember.employee_id newMember) in
  let employee :=
    List.find
      (λ e, bool_decide (Employee.employee_id (Workload.employee e) = id))
      (Workload.employeesWithWorkload (employees D) (allMembers D)) in
  let over :=
    match employee with
    | Some e =>
        if Workload.exceeds (NewMember.allocation_ratio newMember)
                            (Workload.remaining_capacity e)
        then Some (AlertOverCapacity
                     (Some (Employee.employee_name (Workload.employee e)))
                     (Workload.remaining_capacity e))
        else None
    | None => None
    end in
  try_catch
    (match over with
     | Some a => alert a
     | None =>
         request P (projectMemberAPI_addMember
           (ProjectMember.mk (projectId D) id None
              (Some (NewMember.role_in_project newMember))
              (Some (NewMember.allocation_ratio newMember))
              (Some (today P)) None));;
         setNewMember (NewMember.mk [] [] (JSNumber.of_decimal (1 # 10)));;
         setShowAddMemberForm false;;
         loadProjectData P D
     end)
    (alert AlertMemberAddFailed) s.

(** [handleRemoveMember]; the answer to [window.confirm] is an input, and a
    failure is only written to the console. *)
Definition handleRemoveMember (P : Platform) (D : Data) (employeeId : Z)
    (confirmed : bool) : M unit :=
  if confirmed then
    try_catch
      (request P (projectMemberAPI_removeMember (projectId D) employeeId);;
       loadProjectData P D)
      (mret tt)
  else mret tt.

(** The [onUpdateMember] prop of the members table. *)
Definition onUpdateMember (P : Platform) (D : Data)
    (projectId employeeId : Z) (updates : MemberUpdates.t) : M unit :=
  try_catch
    (request P (projectMemberAPI_updateMember projectId employeeId updates);;
     (if MemberUpdates.allocation_ratio updates is Some _
      then handleScheduleChange else mret tt);;
     loadProjectData P D)
    (alert AlertMemberUpdateFailed).

(** [handleSaveEdit] of [MembersTable]: the edited row is sent whole, and a
    failure of the prop is only written to the console. *)
Definition handleSaveEdit (P : Platform) (D : Data) (employeeId : Z)
    (role_in_project : jsstring) (allocation_ratio : Q) : M unit :=
  try_catch
    (onUpdateMember P D (projectId D) employeeId
       (MemberUpdates.mk (Some role_in_project) (Some allocation_ratio)))
    (mret tt).

(** The [onCreateDependency] prop given to the graph editor. *)
Definition onCreateDependency (P : Platform) (dep : TaskDependency.t)
  : M unit :=
  request P (taskAPI_createDependency dep).

(** *** What the user can do on the screen

    Each action is one handler with its inputs; the graph editor and the
    timeline view get [handleScheduleChange] and [handleUpdateTask] as their
    [onScheduleChange] and [onUpdateTask] props. *)
Inductive Action :=
| WBS_StatusUpdate (taskId : Z) (newStatus : jsstring)
| WBS_CreateTask (newTask : NewTask.t)
| WBS_SaveTask (selectedTask : option WBSTask.t) (editData : EditData.t)
| PERT_Connect (params : PERTChart.Connection) (ty : DependencyType)
| PERT_EdgeClick (edge_id : jsstring) (confirmed : bool)
| PERT_NodeDragStop (node_id : jsstring) (x y : Z)
| PERT_CreateTask (newTask : NewTask.t)
| PERT_PanelSave (task : WBSTask.t) (editData : EditData.t)
| EditProject (editProject : PartialProject.t)
| AddMember
| RemoveMember (employeeId : Z) (confirmed : bool)
| SaveMember (employeeId : Z) (role_in_project : jsstring)
             (allocation_ratio : Q)
| CalculateSchedule.

Definition perform (P : Platform) (D : Data) (a : Action) : M unit :=
  match a with
  | WBS_StatusUpdate taskId newStatus =>
      WBSView.handleStatusUpdate P handleScheduleChange
        (handleUpdateTask P D) taskId newStatus
  | WBS_CreateTask newTask =>
      WBSView.handleCreateTask P (tasks D) (project D) handleScheduleChange
        (handleUpdateTask P D) newTask
  | WBS_SaveTask selectedTask editData =>
      WBSView.handleSaveTask P handleScheduleChange (handleUpdateTask P D)
        selectedTask editData
  | PERT_Connect params ty =>
      PERTChart.onConnect P (tasks D) ty (onCreateDependency P)
        handleScheduleChange (handleUpdateTask P D) params
  | PERT_EdgeClick edge_id confirmed =>
      PERTChart.onEdgeClick P handleScheduleChange (handleUpdateTask P D)
        edge_id confirmed
  | PERT_NodeDragStop node_id x y => PERTChart.onNodeDragStop P node_id x y
  | PERT_CreateTask newTask =>
      PERTChart.handleCreateTask P (handleCreateTask P D)
        handleScheduleChange (handleUpdateTask P D) newTask
  | PERT_PanelSave task editData =>
      PERTChart.handleSave P handleScheduleChange (handleUpdateTask P D)
        task editData
  | EditProject editProject => handleEditProject P D editProject
  | AddMember => handleAddMember P D
  | RemoveMember employeeId confirmed =>
      handleRemoveMember P D employeeId confirmed
  | SaveMember employeeId role allocation =>
      handleSaveEdit P D employeeId role allocation
  | CalculateSchedule => handleCalculateSchedule P D
  end.

(** The requests an action has issued, most recent first. *)
Definition issued (s s' : Screen) : list (ApiCall * bool) :=
  take (length (requests s') - length (requests s)) (requests s').

(** Requests that change tasks, dependencies or memberships. *)
Definition mutation (c : ApiCall) : bool :=
  match c with
  | taskAPI_create _ | taskAPI_update _ _
  | taskAPI_createDependency _ | taskAPI_deleteDependency _ _
  | projectMemberAPI_addMember _ | projectMemberAPI_removeMember _ _
  | projectMemberAPI_updateMember _ _ _ => true
  | _ => false
  end.

(** The mutations after which the handlers call [handleScheduleChange]:
    those of tasks but for the position of a node, those of dependencies,
    and the member updates that carry an allocation ratio. *)
Definition schedule_relevant (c : ApiCall) : bool :=
  match c with
  | taskAPI_create _ => true
  | taskAPI_update _ (UpdatePosition _ _) => false
  | taskAPI_update _ _ => true
  | taskAPI_createDependency _ | taskAPI_deleteDependency _ _ => true
  | projectMemberAPI_updateMember _ _ u =>
      bool_decide (is_Some (MemberUpdates.allocation_ratio u))
  | _ => false
  end.

End ProjectDetail.

(** ** Project creation ([pages/ProjectList.tsx])

    The list page is another component; of the screen state its handler
    only uses the logs of requests and alerts. *)

Module ProjectList.
Import JS Eff.

Record MemberAllocation := mkMemberAllocation {
  employee_id : Z;
  role_in_project : jsstring;
  allocation_ratio : Q
}.

(** The capacity check over [selectedMembers]: [true] when every selected
    member passes.  Reading the allocation of a member that has none throws;
    it is read only when the workload of the member is found. *)
Fixpoint check_members (employees : list Employee.t)
    (workloads : list Workload.t)
    (memberAllocations : gmap Z MemberAllocation)
    (selectedMembers : list Z) : M bool :=
  match selectedMembers with
  | [] => mret true
  | employeeId :: rest =>
      match List.find
              (λ w, bool_decide
                      (Employee.employee_id (Workload.employee w) = employeeId))
              workloads with
      | Some workload =>
          match memberAllocations !! employeeId with
          | Some allocation =>
              if Workload.exceeds (allocation_ratio allocation)
                                  (Workload.remaining_capacity workload)
              then
                alert (AlertOverCapacity
                         (Employee.employee_name <$>
                            List.find
                              (λ e, bool_decide
                                      (Employee.employee_id e = employeeId))
                              employees)
                         (Workload.remaining_capacity workload));;
                mret false
              else check_members employees workloads memberAllocations rest
          | None => throw
          end
      | None => check_members employees workloads memberAllocations rest
      end
  end.

(** The requests that add the selected members to the created project; an
    allocation ratio of zero is replaced by 0.1. *)
Fixpoint add_members (P : Platform) (created : Z)
    (memberAllocations : gmap Z MemberAllocation)
    (selectedMembers : list Z) : M unit :=
  match selectedMembers with
  | [] => mret tt
  | employeeId :: rest =>
      match memberAllocations !! employeeId with
      | Some allocation =>
          request P (projectMemberAPI_addMember
            (ProjectMember.mk created employeeId None
               (Some (role_in_project allocation))
               (Some (if Qeq_bool (allocation_ratio allocation) 0
                      then JSNumber.of_decimal (1 # 10)
                      else allocation_ratio allocation))
               (Some (today P)) None));;
          add_members P created memberAllocations rest
      | None => throw
      end
  end.

(** [loadData]: it catches what its requests throw. *)
Definition loadData (P : Platform) : M unit :=
  try_catch (request P fetch_loadData) (mret tt).

(** [handleCreateProject] *)
Definition handleCreateProject (P : Platform) (employees : list Employee.t)
    (allMembers : list ProjectMember.t) (newProject : PartialProject.t)
    (selectedMembers : list Z)
    (memberAllocations : gmap Z MemberAllocation) : M unit :=
  try_catch
    (match ProjectForm.validate_project P newProject with
     | Some a => alert a
     | None =>
         ok ← check_members employees
                (Workload.employeesWithWorkload employees allMembers)
                memberAllocations selectedMembers;
         if (ok : bool) then
           let projectData :=
             PartialProject.mk
               (PartialProject.project_id newProject)
               (PartialProject.project_name newProject)
               (PartialProject.client_name newProject)
               (PartialProject.manager_id newProject)
               (PartialProject.manager newProject)
               (match PartialProject.budget newProject with
                | Some b => if Qeq_bool b 0 then None else Some b
                | None => None
                end)
               (PartialProject.start_date newProject)
               (PartialProject.end_date newProject)
               (PartialProject.status_code newProject)
               (PartialProject.phases newProject) in
           request P (projectAPI_create projectData);;
           log ← getRequests;
           add_members P (created_project_id P log) memberAllocations
                       selectedMembers;;
           loadData P
         else mret tt
     end)
    (alert AlertProjectCreateFailed).

End ProjectList.

(** ** A platform and data to run the handlers on *)

Module Sample.
Import JS.

(** The value of a run of decimal digits; other units count as zero. *)
Definition digits (s : jsstring) : Z :=
  foldl (λ acc c, 10 * acc + (if bool_decide (48 ≤ c ≤ 57) then c - 48 else 0))
        0 s.

(** [Number(s)] on the decimal rendering of an integer. *)
Definition Number (s : jsstring) : Z :=
  match s with
  | 45 :: s' => - digits s'
  | _ => digits s
  end.

(** Days from 1970-01-01 to a day of the proleptic Gregorian calendar. *)
Definition days_from_civil (y m d : Z) : Z :=
  let y' := if bool_decide (m ≤ 2) then y - 1 else y in
  let era := y' / 400 in
  let yoe := y' - era * 400 in
  let doy := (153 * (if bool_decide (2 < m) then m - 3 else m + 9) + 2) / 5
             + d - 1 in
  let doe := yoe * 365 + yoe / 4 - yoe / 100 + doy in
  era * 146097 + doe - 719468.

(** [new Date(s).getTime()] on the [YYYY-MM-DD] values of a date input:
    midnight UTC of that day.  Any other string is an invalid date here. *)
Definition Date_getTime (s : jsstring) : option Z :=
  match s with
  | [y1; y2; y3; y4; 45; m1; m2; 45; d1; d2] =>
      let y := digits [y1; y2; y3; y4] in
      let m := digits [m1; m2] in
      let d := digits [d1; d2] in
      if forallb (λ c, bool_decide (48 ≤ c ≤ 57))
                 [y1; y2; y3; y4; m1; m2; d1; d2]
         && bool_decide (1 ≤ m ≤ 12) && bool_decide (1 ≤ d ≤ 31)
      then Some (days_from_civil y m d * 86400000)
      else None
  | _ => None
  end.

(** The calendar day of a time value in UTC, named by its number. *)
Definition toDateString (ms : Z) : jsstring := toString (ms / 86400000).

Definition no_result : ScheduleCalculationResult.t :=
  ScheduleCalculationResult.mk [] [] 0.

(** A server that fulfils every request, and one that rejects them all. *)
Definition online : Platform :=
  mkPlatform (λ _ _, true) (λ _, no_result) (λ _, 1) Number Date_getTime
             toDateString (js "2025-09-01").

Definition offline : Platform :=
  mkPlatform (λ _ _, false) (λ _, no_result) (λ _, 1) Number Date_getTime
             toDateString (js "2025-09-01").

(** [new Date(s).getTime()] also on the [YYYY-MM-DDTHH:MM] texts of a date
    with a time of day, where the time zone has no offset. *)
Definition DateTime_getTime (s : jsstring) : option Z :=
  match s with
  | [y1; y2; y3; y4; 45; m1; m2; 45; d1; d2; 84; h1; h2; 58; n1; n2] =>
      if forallb (λ c, bool_decide (48 ≤ c ≤ 57)) [h1; h2; n1; n2]
         && bool_decide (digits [h1; h2] ≤ 23)
         && bool_decide (digits [n1; n2] ≤ 59)
      then (λ t, t + digits [h1; h2] * 3600000 + digits [n1; n2] * 60000)
             <$> Date_getTime [y1; y2; y3; y4; 45; m1; m2; 45; d1; d2]
      else None
  | _ => Date_getTime s
  end.

(** The fulfilling server where dates can carry a time of day. *)
Definition online_by_the_minute : Platform :=
  mkPlatform (λ _ _, true) (λ _, no_result) (λ _, 1) Number DateTime_getTime
             toDateString (js "2025-09-01").

(** A task with the given identifier, description, dates and
    predecessors. *)
Definition task (id : Z) (description : option jsstring)
    (start_date end_date : option jsstring) (deps : list Z) : WBSTask.t :=
  WBSTask.mk
    (Task.mk id 1 None (js "task") description (Some 1%Q) start_date end_date
             None None None None None None None None)
    0 [] ((λ d, TaskDependency.mk id d FS) <$> deps).

(** Design precedes build: task 2 depends on task 1. *)
Definition two_tasks : list WBSTask.t :=
  [task 1 None None None []; task 2 None None None [1]].

(** A chain: 2 depends on 1, 3 depends on 2. *)
Definition chain : list WBSTask.t :=
  [task 1 None None None []; task 2 None None None [1];
   task 3 None None None [2]].

Definition screen0 : Screen :=
  mkScreen false false false false
           (NewMember.mk [] [] (JSNumber.of_decimal (1 # 10))) [] [].

Definition data (tasks : list WBSTask.t) : ProjectDetail.Data :=
  ProjectDetail.mkData 1 None tasks [] [] [].

(** One employee, already given to another project at the ratio [held],
    a decimal as the server sends it. *)
Definition alice : Employee.t :=
  Employee.mk 1 (js "Alice") (js "alice@example.org") None.

Definition holding (held : Q) : list ProjectMember.t :=
  [ProjectMember.mk 2 1 None None (Some (JSNumber.of_decimal held)) None
                    None].

Definition staffed_at (held : Q) : ProjectDetail.Data :=
  ProjectDetail.mkData 1 None [] [alice] (holding held) [].

(** Alice at 80%, at 50% and at 100% elsewhere. *)
Definition staffed : ProjectDetail.Data := staffed_at (8 # 10).

Definition half_staffed : ProjectDetail.Data := staffed_at (5 # 10).

Definition booked : ProjectDetail.Data := staffed_at 1.

(** The add-member form asking for the ratio [asked] of employee 1, a
    decimal as the input gives it. *)
Definition asking (asked : Q) : Screen :=
  mkScreen false false false true
           (NewMember.mk (js "1") (js "dev") (JSNumber.of_decimal asked))
           [] [].

Definition asking_30 : Screen := asking (3 # 10).

Definition asking_20 : Screen := asking (2 # 10).

Definition asking_25 : Screen := asking (25 # 100).

Definition asking_10 : Screen := asking (1 # 10).

(** A project form with the given dates. *)
Definition form (start_date end_date : option jsstring) : PartialProject.t :=
  PartialProject.mk None (Some (js "Shop")) None None None None
                    start_date end_date (Some (js "ACTIVE")) None.

(** The days from 2025-08-25 to 2025-09-14, as the timeline renders them
    for a project that runs from 2025-09-01 to 2025-09-07. *)
Definition september : list Z :=
  (λ i, (20325 + i) * 86400000) <$> seqZ 0 21.

End Sample.

(** ** The schedule calculation engine

    The engine runs on the server, behind
    [POST /projects/:id/calculate-schedule]; the front end only calls it.
    It is modelled here from its specification.  Dates are day numbers
    counted from 1970-01-01, a Thursday. *)

Module Engine.

(** Modelled from the spec: the task the engine consumes (section 6), whose
    source is the server code that is not part of the front end: identity,
    effort in person-days, optional earliest start and deadline, the resolved
    allocation ratio of the assignee ([None] when unassigned) and the
    milestone flag. *)
Record Task := mkTask {
  id : Z;
  effort : Q;
  earliest_start : option Z;
  deadline : option Z;
  ratio : option Q;
  milestone : bool
}.

(** Modelled from the spec: the dependency of section 3, an ordered pair
    with one of the four relation kinds; the server code is missing. *)
Record Dependency := mkDependency {
  predecessor : Z;
  successor : Z;
  kind : DependencyType
}.

(** Modelled from the spec: the snapshot a recalculation request supplies
    (section 6), with the schedule epoch; the server code is missing. *)
Record Snapshot := mkSnapshot {
  tasks : list Task;
  dependencies : list Dependency;
  epoch : Z
}.

(** Modelled from the spec: the per-task part of the Schedule Result
    (section 6); the server code is missing. *)
Record Scheduled := mkScheduled {
  start_date : Z;
  end_date : Z;
  over_deadline : bool;
  unassigned : bool
}.

(** Modelled from the spec: the failures of section 7; the server code is
    missing. *)
Inductive Failure :=
| CyclicDependency (offending : list Z)
| InvalidInput (offending : Z).

(** Modelled from the spec: the Schedule Result without its critical paths,
    which the extractor of section 4.4 adds; the server code is missing. *)
Record Result := mkResult {
  schedule : gmap Z Scheduled;
  total_duration : Z
}.

(** *** Calendar (section 4.1) *)

(** Modelled from the spec: Saturday and Sunday are the only non-working
    days; the calendar code of the server is missing.  Day 0 is a Thursday,
    so Sunday is 0 and Saturday 6. *)
Definition weekday (d : Z) : Z := (d + 4) `mod` 7.

(** Modelled from the spec: a working day is a day that is not a modelled
    weekend day (glossary); the calendar code of the server is missing. *)
Definition is_working_day (d : Z) : bool :=
  negb (bool_decide (weekday d = 0)) && negb (bool_decide (weekday d = 6)).

(** Modelled from the spec: one working day forward, the weekend consuming
    no credit; the calendar code of the server is missing. *)
Definition next_working_day (d : Z) : Z :=
  if bool_decide (weekday d = 5) then d + 3
  else if bool_decide (weekday d = 6) then d + 2
  else d + 1.

(** Modelled from the spec: the mirror step, for [retreat]; the calendar code
    of the server is missing. *)
Definition previous_working_day (d : Z) : Z :=
  if bool_decide (weekday d = 1) then d - 3
  else if bool_decide (weekday d = 0) then d - 2
  else d - 1.

(** Modelled from the spec: [workingDaysNeeded], the ceiling of effort over
    ratio and at least 1, failing on a ratio that is not positive; the
    calendar code of the server is missing. *)
Definition workingDaysNeeded (effort allocationRatio : Q) : option Z :=
  if Qle_bool allocationRatio 0 then None
  else Some (Z.max 1 (Qceiling (effort / allocationRatio))).

(** Modelled from the spec: [advance], stepping [workingDays - 1] working
    days forward, so that a one-day task ends on the day it starts; the
    calendar code of the server is missing. *)
Definition advance (date workingDays : Z) : Z :=
  Nat.iter (Z.to_nat (workingDays - 1)) next_working_day date.

(** Modelled from the spec: [retreat], the mirror of [advance]; the calendar
    code of the server is missing. *)
Definition retreat (date workingDays : Z) : Z :=
  Nat.iter (Z.to_nat (workingDays - 1)) previous_working_day date.

(** *** Dependency graph (section 4.2) *)

(** Modelled from the spec: the graph holds the tasks by identity; the graph
    code of the server is missing. *)
Definition nodes (S : Snapshot) : gmap Z Task :=
  list_to_map ((λ t, (id t, t)) <$> tasks S).

(** Modelled from the spec: a task is ready when every predecessor of its
    incoming edges is placed; the graph code of the server is missing. *)
Definition ready (S : Snapshot) (placed : list Z) (x : Z) : bool :=
  forallb (λ e, negb (bool_decide (successor e = x))
                || bool_decide (predecessor e ∈ placed))
          (dependencies S).

(** Modelled from the spec: among the tasks of equal readiness the one of
    least identity goes first; the graph code of the server is missing. *)
Definition pick_ready (S : Snapshot) (placed : list Z) (remaining : gset Z)
  : option Z :=
  foldr (λ x acc, if ready S placed x
                  then Some (match acc with
                             | Some y => Z.min x y
                             | None => x
                             end)
                  else acc)
        None (elements remaining).

(** Modelled from the spec: Kahn's algorithm, one ready task placed per
    turn; it stops when no task is ready.  There are as many turns as tasks;
    the graph code of the server is missing. *)
Fixpoint kahn (S : Snapshot) (turns : nat) (placed : list Z)
    (remaining : gset Z) : list Z * gset Z :=
  match turns with
  | O => (placed, remaining)
  | Datatypes.S turns' =>
      match pick_ready S placed remaining with
      | Some x => kahn S turns' (placed ++ [x]) (remaining ∖ {[x]})
      | None => (placed, remaining)
      end
  end.

(** Modelled from the spec: [topologicalOrder], failing with the tasks that
    could not be placed; the graph code of the server is missing. *)
Definition topologicalOrder (S : Snapshot) : Failure + list Z :=
  let '(order, rest) := kahn S (size (dom (nodes S))) [] (dom (nodes S)) in
  if decide (rest = ∅) then inr order
  else inl (CyclicDependency (elements rest)).

(** Modelled from the spec: a valid linearization (section 8): in [l] every
    task comes after the predecessors of its incoming edges; the graph code
    of the server is missing. *)
Definition linearized (S : Snapshot) (l : list Z) : Prop :=
  ∀ l1 x l2 e,
    l = l1 ++ x :: l2 → e ∈ dependencies S → successor e = x →
    predecessor e ∈ l1.

(** *** Forward scheduler (section 4.3) *)

(** Modelled from the spec: the working days of a task: a milestone has no
    effort, an unassigned task counts with a ratio of 1; the scheduler code
    of the server is missing. *)
Definition duration (t : Task) : option Z :=
  workingDaysNeeded (if milestone t then 0 else effort t)
                    (default 1%Q (ratio t)).

(** Modelled from the spec: the lower bound an incoming edge puts on the
    start of its successor, once the predecessor is scheduled: FS the working
    day after the end of the predecessor, SS its start, FF and SF the start
    from which the working days of the successor end on the end, or the
    start, of the predecessor; the scheduler code of the server is missing. *)
Definition bound (days : Z) (p : Scheduled) (k : DependencyType) : Z :=
  match k with
  | FS => next_working_day (end_date p)
  | SS => start_date p
  | FF => retreat (end_date p) days
  | SF => retreat (start_date p) days
  end.

(** Modelled from the spec: the bounds of the incoming edges of a task
    whose predecessors are scheduled; the scheduler code of the server is
    missing. *)
Definition bounds (S : Snapshot) (m : gmap Z Scheduled) (x days : Z)
  : list Z :=
  omap (λ e, if bool_decide (successor e = x)
             then (λ p, bound days p (kind e)) <$> m !! predecessor e
             else None)
       (dependencies S).

(** Modelled from the spec: the start is the latest of the bounds of the
    dependencies and of the earliest allowed start, or the epoch when there
    is none; the end is [advance]d from it; a computed end after the
    deadline is flagged, not clamped; the scheduler code of the server is
    missing. *)
Definition schedule_task (S : Snapshot) (m : gmap Z Scheduled) (t : Task)
  : option Scheduled :=
  days ← duration t;
  let lower := bounds S m (id t) days ++ option_list (earliest_start t) in
  let start := match lower with
               | [] => epoch S
               | b :: bs => foldr Z.max b bs
               end in
  let finish := advance start days in
  Some (mkScheduled start finish
          (match deadline t with
           | Some d => bool_decide (d < finish)
           | None => false
           end)
          (bool_decide (ratio t = None))).

(** Modelled from the spec: one walk over the topological order; the
    scheduler code of the server is missing. *)
Fixpoint schedule_all (S : Snapshot) (order : list Z) (m : gmap Z Scheduled)
  : option (gmap Z Scheduled) :=
  match order with
  | [] => Some m
  | x :: order' =>
      t ← nodes S !! x;
      r ← schedule_task S m t;
      schedule_all S order' (<[x := r]> m)
  end.

(** *** Schedule session (section 4.5) *)

(** Modelled from the spec: validation rejects a dependency on an unknown
    task or on the task itself, an effort or a ratio that is not positive;
    the session code of the server is missing. *)
Definition invalid_dependency (S : Snapshot) (e : Dependency) : bool :=
  bool_decide (predecessor e = successor e)
  || bool_decide (nodes S !! predecessor e = None)
  || bool_decide (nodes S !! successor e = None).

(** Modelled from the spec: the task part of that validation (section 7);
    a milestone counts with no effort.  The session code of the server is
    missing. *)
Definition invalid_task (t : Task) : bool :=
  (negb (milestone t) && Qle_bool (effort t) 0)
  || match ratio t with
     | Some r => Qle_bool r 0
     | None => false
     end.

(** Modelled from the spec: the Validating state, which fails on the first
    offending dependency or task; the session code of the server is
    missing. *)
Definition validate (S : Snapshot) : option Failure :=
  match List.find (invalid_dependency S) (dependencies S) with
  | Some e => Some (InvalidInput (successor e))
  | None =>
      match List.find invalid_task (tasks S) with
      | Some t => Some (InvalidInput (id t))
      | None => None
      end
  end.

(** Modelled from the spec: the total duration, the latest end minus the
    epoch in calendar days, 0 for an empty task set; the extractor code of
    the server is missing. *)
Definition duration_of (S : Snapshot) (m : gmap Z Scheduled) : Z :=
  map_fold (λ _ r acc, Z.max acc (end_date r - epoch S)) 0 m.

(** Modelled from the spec: one recalculation request: validate, order,
    schedule, or fail with no partial schedule; the session code of the
    server is missing. *)
Definition recalculate (S : Snapshot) : Failure + Result :=
  match validate S with
  | Some f => inl f
  | None =>
      match topologicalOrder S with
      | inl f => inl f
      | inr order =>
          match schedule_all S order ∅ with
          | Some m => inr (mkResult m (duration_of S m))
          | None => inl (InvalidInput 0)
          end
      end
  end.

(** *** Critical path extractor (section 4.4) *)

(** Modelled from the spec: a task whose end date is the maximum among all
    tasks, where a walk starts; the extractor code of the server is
    missing. *)
Definition terminal (m : gmap Z Scheduled) (x : Z) : bool :=
  match m !! x with
  | Some s =>
      forallb (λ yr : Z * Scheduled, bool_decide (end_date yr.2 ≤ end_date s))
              (map_to_list m)
  | None => false
  end.

(** Modelled from the spec: the terminal tasks, in ascending identity; the
    extractor code of the server is missing. *)
Definition terminals (m : gmap Z Scheduled) : list Z :=
  filter (λ x, terminal m x = true) (merge_sort Z.le (elements (dom m))).

(** Modelled from the spec: the predecessors of [x] whose contribution was
    binding: the bound of the incoming edge is the start computed for [x].
    Several predecessors can be binding at once, which the spec calls
    equally binding.  The extractor code of the server is missing. *)
Definition binding (S : Snapshot) (m : gmap Z Scheduled) (x : Z) : list Z :=
  match nodes S !! x, m !! x with
  | Some t, Some s =>
      match duration t with
      | Some days =>
          omap (λ e, if bool_decide (successor e = x)
                     then p ← m !! predecessor e;
                          if bool_decide (bound days p (kind e)
                                          = start_date s)
                          then Some (predecessor e) else None
                     else None)
               (dependencies S)
      | None => []
      end
  | _, _ => []
  end.

(** Modelled from the spec: of two binding predecessors the one with the
    later end date is preferred, then the one of smaller identity; the
    extractor code of the server is missing. *)
Definition prefer (m : gmap Z Scheduled) (a b : Z) : Z :=
  let end_of x := default 0 (end_date <$> m !! x) in
  if bool_decide (end_of b < end_of a) then a
  else if bool_decide (end_of a < end_of b) then b
  else Z.min a b.

(** Modelled from the spec: the predecessor a walk selects at [x], none at
    a root or when no predecessor is binding; the extractor code of the
    server is missing. *)
Definition binding_predecessor (S : Snapshot) (m : gmap Z Scheduled) (x : Z)
  : option Z :=
  match binding S m x with
  | [] => None
  | p :: ps => Some (foldr (prefer m) p ps)
  end.

(** Modelled from the spec: the walk backward from [x], of at most [steps]
    steps; the extractor code of the server is missing. *)
Fixpoint walk (S : Snapshot) (m : gmap Z Scheduled) (steps : nat) (x : Z)
  : list Z :=
  x :: match steps with
       | O => []
       | Datatypes.S steps' =>
           match binding_predecessor S m x with
           | Some p => walk S m steps' p
           | None => []
           end
       end.

(** Modelled from the spec: the critical path of a terminal task, the walk
    reversed; a walk has fewer steps than there are tasks.  The extractor
    code of the server is missing. *)
Definition critical_path (S : Snapshot) (m : gmap Z Scheduled) (x : Z)
  : list Z :=
  reverse (walk S m (size m) x).

(** Modelled from the spec: the Schedule Result of section 6: the dates and
    flags per task, the total duration, and one critical path per terminal
    task; the session code of the server is missing. *)
Record ScheduleResult := mkScheduleResult {
  computed : Result;
  critical_paths : list (list Z)
}.

(** Modelled from the spec: the session through its Extracting state, which
    cannot fail; the session code of the server is missing. *)
Definition session (S : Snapshot) : Failure + ScheduleResult :=
  match recalculate S with
  | inl f => inl f
  | inr r =>
      inr (mkScheduleResult r
             (critical_path S (schedule r) <$> terminals (schedule r)))
  end.

(** Modelled from the spec: a task ties for the latest end date; the
    extractor code of the server is missing. *)
Definition latest_finisher (m : gmap Z Scheduled) (x : Z) : Prop :=
  ∃ s, m !! x = Some s ∧ ∀ y r, m !! y = Some r → end_date r ≤ end_date s.

(** Modelled from the spec: an ordered sequence of dependent tasks
    (glossary): each task is the predecessor of an edge to the next; the
    extractor code of the server is missing. *)
Definition follows (S : Snapshot) (path : list Z) : Prop :=
  ∀ i a b, path !! i = Some a → path !! Datatypes.S i = Some b →
           ∃ e, e ∈ dependencies S ∧ predecessor e = a ∧ successor e = b.

(** Modelled from the spec: Scenario A of section 8, T1 of 5 person-days at
    ratio 1 and T2 of 8 person-days at ratio 0.8, finish-to-start, from the
    epoch Monday 2025-09-01, which is day 20332. *)
Definition scenario_A : Snapshot :=
  mkSnapshot [mkTask 1 5 None None (Some 1%Q) false;
              mkTask 2 8 None None (Some (8 # 10)) false]
             [mkDependency 1 2 FS] 20332.

(** Modelled from the spec: two chains that end on the same day, Friday
    2025-09-12: T1 and T2 of 5 person-days each, finish-to-start, beside T3
    of 10 person-days. *)
Definition scenario_tie : Snapshot :=
  mkSnapshot [mkTask 1 5 None None (Some 1%Q) false;
              mkTask 2 5 None None (Some 1%Q) false;
              mkTask 3 10 None None (Some 1%Q) false]
             [mkDependency 1 2 FS] 20332.

(** Modelled from the spec: Scenario C of section 8, the chain A, B, C and a
    parallel task D, numbered 1 to 4. *)
Definition scenario_C : Snapshot :=
  mkSnapshot [mkTask 1 3 None None (Some 1%Q) false;
              mkTask 2 3 None None (Some 1%Q) false;
              mkTask 3 3 None None (Some 1%Q) false;
              mkTask 4 2 None None (Some 1%Q) false]
             [mkDependency 1 2 FS; mkDependency 2 3 FS] 20332.

(** Modelled from the spec: T1 of 5 person-days with a deadline on
    Wednesday 2025-09-03, and T2 of 2 person-days that nobody is assigned
    to. *)
Definition scenario_flags : Snapshot :=
  mkSnapshot [mkTask 1 5 None (Some 20334) (Some 1%Q) false;
              mkTask 2 2 None None None false]
             [] 20332.

End Engine.

(** ** JavaScript arrays

    The array methods that the list pages, the timeline and the checklist
    panel use. *)

Module JSArray.
Import JS.

(** [l.slice(start, end)]: a negative bound counts from the end, and both
    are clamped to the length. *)
Definition slice {A} (start end_ : Z) (l : list A) : list A :=
  let len := Z.of_nat (length l) in
  let k := if bool_decide (start < 0) then Z.max (len + start) 0
           else Z.min start len in
  let final := if bool_decide (end_ < 0) then Z.max (len + end_) 0
               else Z.min end_ len in
  take (Z.to_nat (final - k)) (drop (Z.to_nat k) l).

(** [l.sort(cmp)].  The sort of the language is stable, and with a
    consistent comparator its result is the one arrangement of [l] that is
    ordered by [cmp] and keeps equal elements in their order; insertion from
    the right computes it.  With an inconsistent comparator the language
    leaves the order to the implementation. *)
Fixpoint insert_sorted {A} (cmp : A → A → Z) (x : A) (l : list A)
  : list A :=
  match l with
  | [] => [x]
  | y :: l' =>
      if bool_decide (cmp x y ≤ 0) then x :: y :: l'
      else y :: insert_sorted cmp x l'
  end.

Definition sort {A} (cmp : A → A → Z) (l : list A) : list A :=
  foldr (insert_sorted cmp) [] l.

(** The comparison of two strings by [<], on their code units: the order
    of [sort()] without a comparator. *)
Fixpoint compareStrings (a b : jsstring) : Z :=
  match a, b with
  | [], [] => 0
  | [], _ :: _ => -1
  | _ :: _, [] => 1
  | x :: a', y :: b' =>
      if bool_decide (x < y) then -1
      else if bool_decide (y < x) then 1
      else compareStrings a' b'
  end.

(** [s.includes(t)] for a string [t]: [t] occurs in [s]. *)
Fixpoint isPrefix (t s : jsstring) : bool :=
  match t, s with
  | [], _ => true
  | _ :: _, [] => false
  | x :: t', y :: s' => bool_decide (x = y) && isPrefix t' s'
  end.

Fixpoint includesString (s t : jsstring) : bool :=
  isPrefix t s ||
  match s with
  | [] => false
  | _ :: s' => includesString s' t
  end.

(** [l.splice(i, 1)] and [l.splice(i, 0, x)], as they leave [l]; the start
    of the second is clamped to the length. *)
Definition splice_out {A} (i : nat) (l : list A) : list A :=
  take i l ++ drop (S i) l.

Definition splice_in {A} (i : nat) (x : A) (l : list A) : list A :=
  take i l ++ x :: drop i l.

(** [new Set()] filled by [add]: the values in the order of their first
    insertion. *)
Definition Set_add (s : list jsstring) (x : jsstring) : list jsstring :=
  if bool_decide (x ∈ s) then s else s ++ [x].

End JSArray.

(** ** Categories of the task forms: [existingCategories] and
       [getCategoryColor] ([WBSView], [PERTChart]) *)

Module Categories.
Import JS JSArray.

(** [existingCategories]: the categories of the tasks, collected in a set
    and sorted.  The loop tests each description as [getTaskCategory]
    does. *)
Definition existingCategories (tasks : list WBSTask.t) : list jsstring :=
  sort compareStrings
    (foldl (λ categories (task : WBSTask.t),
              if Category.bracketed (Task.description task) then
                match Task.description task ≫= Category.match_category with
                | Some (g1, _) => Set_add categories g1
                | None => categories
                end
              else categories)
           [] tasks).

Definition colors : list jsstring :=
  [js "#1976d2"; js "#388e3c"; js "#f57c00"; js "#7b1fa2"; js "#d32f2f";
   js "#0097a7"; js "#5d4037"].

(** [category.split('').reduce((a, b) => a + b.charCodeAt(0), 0)] *)
Definition hash (category : jsstring) : Z :=
  foldl (λ a b, a + b) 0 category.

(** [getCategoryColor(category)]: [colors[hash % colors.length]], where [%]
    is the remainder of the truncated division; [None] is [undefined]. *)
Definition getCategoryColor (category : jsstring) : option jsstring :=
  let i := Z.rem (hash category) (Z.of_nat (length colors)) in
  if bool_decide (0 ≤ i) then colors !! Z.to_nat i else None.

(** A string of the language: its code units are 16-bit. *)
Definition code_units (s : jsstring) : Prop :=
  Forall (λ c, 0 ≤ c < 65536) s.

End Categories.

(** ** Nodes and edges of the graph editor ([PERTChart]) *)

Module Node.
Record t := mk {
  id : JS.jsstring;
  x : Q;
  y : Q;
  task : WBSTask.t
}.
End Node.

Module Edge.
Record t := mk {
  id : JS.jsstring;
  source : JS.jsstring;
  target : JS.jsstring;
  label : DependencyType;
  stroke : JS.jsstring
}.
End Edge.

Module PERTGraph.
Import JS.

(** A coordinate that is [undefined] or [0] is falsy. *)
Definition falsy (stored : option Q) : bool :=
  match stored with
  | Some q => Qeq_bool q 0
  | None => true
  end.

(** [stored || fallback] on a coordinate. *)
Definition or_default (stored : option Q) (fallback : Z) : Q :=
  match stored with
  | Some q => if falsy stored then inject_Z fallback else q
  | None => inject_Z fallback
  end.

(** The node of the task at [index]: its stored position, or a cell of a
    grid of four columns. *)
Definition node (index : nat) (task : WBSTask.t) : Node.t :=
  Node.mk (toString (Task.task_id task))
    (or_default (Task.x_position task) (Z.of_nat index `mod` 4 * 300 + 100))
    (or_default (Task.y_position task) (Z.of_nat index `div` 4 * 220 + 100))
    task.

Definition newNodes (tasks : list WBSTask.t) : list Node.t :=
  imap node tasks.

(** The code unit of a decimal digit. *)
Definition digit (c : Z) : Prop := 48 ≤ c ≤ 57.

(** The edge of a dependency, from the predecessor to the task; its
    identifier joins the two task identifiers with a dash. *)
Definition edge (dep : TaskDependency.t) : Edge.t :=
  Edge.mk
    (toString (TaskDependency.depends_on_id dep) ++ [45]
       ++ toString (TaskDependency.task_id dep))
    (toString (TaskDependency.depends_on_id dep))
    (toString (TaskDependency.task_id dep))
    (TaskDependency.dependency_type dep)
    (match TaskDependency.dependency_type dep with
     | FS => js "#1976d2"
     | _ => js "#ff9800"
     end).

Definition newEdges (tasks : list WBSTask.t) : list Edge.t :=
  tasks ≫= λ task : WBSTask.t, edge <$> WBSTask.dependencies task.

(** [onNodeClick]: the task that becomes [selectedTask]; [None] is
    [null]. *)
Definition onNodeClick (tasks : list WBSTask.t) (node_id : jsstring)
  : option WBSTask.t :=
  PERTChart.findTask tasks node_id.

(** A task without a stored position. *)
Definition unplaced (task : WBSTask.t) : Prop :=
  falsy (Task.x_position task) = true ∧ falsy (Task.y_position task) = true.

End PERTGraph.

(** ** The order of the timeline: [sortedTasks] ([WBSView]) *)

Module WBSOrder.
Import JS JSArray.

(** [d ? new Date(d) : null]: [None] is [null], and the time value of the
    date is [None] when the date is invalid. *)
Definition dateOf (P : Platform) (d : option jsstring)
  : option (option Z) :=
  if truthy d then Some (d ≫= Date_getTime P) else None.

(** [a.getTime() - b.getTime()]; [None] is [NaN]. *)
Definition diff (a b : option Z) : option Z :=
  match a, b with
  | Some ta, Some tb => Some (ta - tb)
  | _, _ => None
  end.

(** The end of both branches of the comparator: by end date, tasks with
    one first, then by identifier.  A difference that is [NaN] differs from
    zero and is returned. *)
Definition compareEnd (P : Platform) (a b : Task.t) : option Z :=
  let endDateA := dateOf P (Task.end_date a) in
  let endDateB := dateOf P (Task.end_date b) in
  let byId := Some (Task.task_id a - Task.task_id b) in
  match endDateA, endDateB with
  | Some ea, Some eb =>
      match diff ea eb with
      | Some endDiff =>
          if bool_decide (endDiff ≠ 0) then Some endDiff else byId
      | None => None
      end
  | Some _, None => Some (-1)
  | None, Some _ => Some 1
  | None, None => byId
  end.

(** The comparator of [sortedTasks]; [None] is [NaN]. *)
Definition compareTasks (P : Platform) (a b : Task.t) : option Z :=
  let startDateA := dateOf P (Task.start_date a) in
  let startDateB := dateOf P (Task.start_date b) in
  match startDateA, startDateB with
  | Some sa, Some sb =>
      match diff sa sb with
      | Some startDiff =>
          if bool_decide (startDiff ≠ 0) then Some startDiff
          else compareEnd P a b
      | None => None
      end
  | Some _, None => Some (-1)
  | None, Some _ => Some 1
  | None, None => compareEnd P a b
  end.

(** What the sort makes of the comparator: it reads [NaN] as [0]. *)
Definition order (P : Platform) (a b : Task.t) : Z :=
  default 0 (compareTasks P a b).

(** [[...tasks].sort(compareTasks)] *)
Definition sortedTasks (P : Platform) (tasks : list WBSTask.t)
  : list WBSTask.t :=
  sort (λ a b : WBSTask.t, order P a b) tasks.

(** The dates of a task are dates: each one that is given is valid. *)
Definition dated (P : Platform) (t : Task.t) : Prop :=
  ProjectForm.valid_date P (Task.start_date t) ∧
  ProjectForm.valid_date P (Task.end_date t).

End WBSOrder.

(** ** Pages of the list screens ([ProjectList], [EmployeeList])

    [paginatedProjects] and [paginatedEmployees] cut the same slice, and
    both screens count their pages alike. *)

Module Paging.
Import JSArray.

(** [filtered.slice(startIndex, startIndex + itemsPerPage)] with
    [startIndex = (currentPage - 1) * itemsPerPage] *)
Definition paginated {A} (filtered : list A) (currentPage itemsPerPage : Z)
  : list A :=
  let startIndex := (currentPage - 1) * itemsPerPage in
  slice startIndex (startIndex + itemsPerPage) filtered.

(** [Math.ceil(filtered.length / itemsPerPage)] *)
Definition totalPages {A} (filtered : list A) (itemsPerPage : Z) : Z :=
  WBSView.ceil_div (Z.of_nat (length filtered)) itemsPerPage.

End Paging.

(** ** The list of projects ([pages/ProjectList.tsx]) *)

Module ProjectListView.
Import JS JSArray.

Section Filter.
(** [String.prototype.toLowerCase] *)
Context (toLowerCase : jsstring → jsstring).

Definition matchesSearch (searchTerm : jsstring) (project : Project.t)
  : bool :=
  negb (truthy (Some searchTerm))
  || includesString (toLowerCase (Project.project_name project))
                    (toLowerCase searchTerm)
  || match Project.client_name project with
     | Some client_name =>
         truthy (Some client_name)
         && includesString (toLowerCase client_name) (toLowerCase searchTerm)
     | None => false
     end.

Definition matchesStatus (statusFilter : jsstring) (project : Project.t)
  : bool :=
  negb (truthy (Some statusFilter))
  || bool_decide (Project.status_code project = Some statusFilter).

(** [filteredProjects]: the projects that match, newest identifier
    first. *)
Definition filteredProjects (projects : list Project.t)
    (searchTerm statusFilter : jsstring) : list Project.t :=
  sort (λ a b, Project.project_id b - Project.project_id a)
       (filter (λ project, matchesSearch searchTerm project
                           && matchesStatus statusFilter project = true)
               projects).

End Filter.

End ProjectListView.

(** ** The member selection of the project creation dialog
       ([pages/ProjectList.tsx]) *)

Module MemberDialog.
Import JS ProjectList.

(** The [selectedMembers] and [memberAllocations] states. *)
Record State := mkState {
  selectedMembers : list Z;
  memberAllocations : gmap Z MemberAllocation
}.

(** [handleMemberToggle] *)
Definition handleMemberToggle (employeeId : Z) (st : State) : State :=
  if bool_decide (employeeId ∈ selectedMembers st) then
    mkState (filter (λ id, id ≠ employeeId) (selectedMembers st))
            (delete employeeId (memberAllocations st))
  else
    mkState (selectedMembers st ++ [employeeId])
            (<[employeeId := mkMemberAllocation employeeId []
                               (JSNumber.of_decimal (1 # 10))]>
               (memberAllocations st)).

(** The [field] and [value] of [handleMemberAllocationChange], as the two
    inputs of a selected member give them. *)
Inductive Change :=
| Field_role_in_project (value : jsstring)
| Field_allocation_ratio (value : Q).

(** [handleMemberAllocationChange]: the allocation of the member with one
    field replaced.  The inputs that call it are rendered for selected
    members; for an employee without an allocation the new entry would hold
    the one field only, which is no [MemberAllocation]: [None]. *)
Definition handleMemberAllocationChange (employeeId : Z) (change : Change)
    (st : State) : option State :=
  match memberAllocations st !! employeeId with
  | Some prev =>
      Some (mkState (selectedMembers st)
              (<[employeeId :=
                   match change with
                   | Field_role_in_project value =>
                       mkMemberAllocation (employee_id prev) value
                                          (allocation_ratio prev)
                   | Field_allocation_ratio value =>
                       mkMemberAllocation (employee_id prev)
                                          (role_in_project prev) value
                   end]>
                 (memberAllocations st)))
  | None => None
  end.

(** [workload?.remaining_capacity || 1.0]: the capacity the dialog shows
    for an employee and caps the ratio input with. *)
Definition remainingCapacity (workloads : list Workload.t) (employeeId : Z)
  : Q :=
  match List.find
          (λ w, bool_decide
                  (Employee.employee_id (Workload.employee w) = employeeId))
          workloads with
  | Some workload =>
      if Qeq_bool (Workload.remaining_capacity workload) 0 then 1%Q
      else Workload.remaining_capacity workload
  | None => 1%Q
  end.

(** The [onChange] of the ratio input:
    [Math.min(Number(e.target.value), remainingCapacity)]. *)
Definition onChangeRatio (workloads : list Workload.t) (employeeId : Z)
    (value : Q) (st : State) : option State :=
  handleMemberAllocationChange employeeId
    (Field_allocation_ratio
       (Qmin value (remainingCapacity workloads employeeId)))
    st.

(** The two states agree: no member is selected twice, the allocations are
    those of the selected members, each under its own identifier. *)
Definition consistent (st : State) : Prop :=
  NoDup (selectedMembers st)
  ∧ (∀ id, id ∈ selectedMembers st ↔ is_Some (memberAllocations st !! id))
  ∧ (∀ id a, memberAllocations st !! id = Some a → employee_id a = id).

(** What the user does in the member selection. *)
Inductive Event :=
| Toggle (employeeId : Z)
| ChangeRole (employeeId : Z) (value : jsstring)
| ChangeRatio (employeeId : Z) (value : Q).

(** The inputs of an employee exist while the employee is selected. *)
Definition step (workloads : list Workload.t) (st : State) (e : Event)
  : option State :=
  match e with
  | Toggle employeeId => Some (handleMemberToggle employeeId st)
  | ChangeRole employeeId value =>
      if bool_decide (employeeId ∈ selectedMembers st)
      then handleMemberAllocationChange employeeId
             (Field_role_in_project value) st
      else None
  | ChangeRatio employeeId value =>
      if bool_decide (employeeId ∈ selectedMembers st)
      then onChangeRatio workloads employeeId value st
      else None
  end.

(** The dialog opens with nobody selected. *)
Definition initial : State := mkState [] ∅.

(** The states the dialog can reach. *)
Inductive reachable (workloads : list Workload.t) : State → Prop :=
| reachable_initial : reachable workloads initial
| reachable_step st e st' :
    reachable workloads st → step workloads st e = Some st' →
    reachable workloads st'.

End MemberDialog.

(** ** The list of employees ([pages/EmployeeList.tsx]) and the page of one
       employee ([pages/EmployeeDetail.tsx]) *)

Module EmployeeList.
Import JS JSArray.

(** [EmployeeWithWorkload] of the list: the employee with three more
    fields. *)
Record EmployeeWithWorkload := mkEmployeeWithWorkload {
  employee : Employee.t;
  total_allocation : Q;
  remaining_capacity : Q;
  project_count : nat
}.

Definition employeesWithWorkload (employees : list Employee.t)
    (allMembers : list ProjectMember.t) : list EmployeeWithWorkload :=
  (λ e,
     let employeeAllocations :=
       Workload.allocations allMembers (Employee.employee_id e) in
     let totalAllocation := Workload.total employeeAllocations in
     mkEmployeeWithWorkload e totalAllocation
       (Qmax 0 (JSNumber.sub 1 totalAllocation))
       (length employeeAllocations))
  <$> employees.

(** The text and the colour of [getWorkloadStatus].  Its threshold and that
    of the filter are the double 0.1; no double lies between 1/10 and that
    double, so the comparison with 1/10 decides the same on every double. *)
Definition getWorkloadStatus (remainingCapacity : Q)
  : jsstring * jsstring :=
  if Qle_bool (1 # 10) remainingCapacity
  then ([31354; 12365; 12354; 12426], js "#4caf50")
  else ([31354; 12365; 12394; 12375], js "#d32f2f").

Section Filter.
(** [String.prototype.toLowerCase] *)
Context (toLowerCase : jsstring → jsstring).

Definition matchesSearch (searchTerm : jsstring) (e : EmployeeWithWorkload)
  : bool :=
  negb (truthy (Some searchTerm))
  || includesString (toLowerCase (Employee.employee_name (employee e)))
                    (toLowerCase searchTerm)
  || includesString (toLowerCase (Employee.email (employee e)))
                    (toLowerCase searchTerm).

(** The [switch] on [workloadFilter]; the empty filter and any other value
    let every employee through. *)
Definition matchesWorkload (workloadFilter : jsstring)
    (e : EmployeeWithWorkload) : bool :=
  if negb (truthy (Some workloadFilter)) then true
  else if bool_decide (workloadFilter = js "available")
  then Qle_bool (1 # 10) (remaining_capacity e)
  else if bool_decide (workloadFilter = js "busy")
  then negb (Qle_bool (1 # 10) (remaining_capacity e))
  else true.

Definition filteredEmployees
    (employeesWithWorkload : list EmployeeWithWorkload)
    (searchTerm workloadFilter : jsstring) : list EmployeeWithWorkload :=
  sort (λ a b, Employee.employee_id (employee b)
               - Employee.employee_id (employee a))
       (filter (λ e, matchesSearch searchTerm e
                     && matchesWorkload workloadFilter e = true)
               employeesWithWorkload).

End Filter.

End EmployeeList.

Module EmployeeDetail.
Import JS.

(** A membership of the employee with its project. *)
Record EmployeeProject := mkEmployeeProject {
  member : ProjectMember.t;
  project : option Project.t
}.

(** [employeeProjects]: the memberships of the employee whose project is
    among the projects. *)
Definition employeeProjects (allMembers : list ProjectMember.t)
    (allProjects : list Project.t) (employeeId : Z) : list EmployeeProject :=
  filter (λ item, is_Some (project item))
    ((λ member,
        mkEmployeeProject member
          (List.find (λ p, bool_decide (Project.project_id p
                                        = ProjectMember.project_id member))
                     allProjects))
     <$> filter (λ member, ProjectMember.employee_id member = employeeId)
                allMembers).

Record WorkloadSummary := mkWorkloadSummary {
  totalAllocation : Q;
  remainingCapacity : Q;
  projectCount : nat
}.

(** [workloadSummary] *)
Definition workloadSummary (employeeProjects : list EmployeeProject)
  : WorkloadSummary :=
  let totalAllocation :=
    foldl (λ sum proj,
             JSNumber.add sum
               (default 0%Q (ProjectMember.allocation_ratio (member proj))))
          0%Q employeeProjects in
  mkWorkloadSummary totalAllocation (Qmax 0 (JSNumber.sub 1 totalAllocation))
                    (length employeeProjects).

End EmployeeDetail.

(** ** Handlers with a state of their own

    The checklist of the task panels and the employee forms keep their own
    state and call their own part of the API.  Their handlers are programs
    over that state, the log of their calls (most recent first, each with
    whether it was fulfilled) and the alerts they showed. *)

Module Local.
Import Eff.

Section World.
Context {St Call Notice : Type}.

Record World := mkWorld {
  state : St;
  calls : list (Call * bool);
  notices : list Notice
}.

Definition M (A : Type) : Type := World → World * outcome A.

Definition ret {A} (a : A) : M A := λ w, (w, Ok a).

Definition bind {A B} (m : M A) (k : A → M B) : M B :=
  λ w, match m w with
       | (w', Ok a) => k a w'
       | (w', Thrown) => (w', Thrown)
       end.

Definition throw {A} : M A := λ w, (w, Thrown).

(** [try { m } catch (e) { h }] *)
Definition try_catch {A} (m : M A) (h : M A) : M A :=
  λ w, match m w with
       | (w', Thrown) => h w'
       | r => r
       end.

Definition run {A} (m : M A) (w : World) : World := fst (m w).

Definition get : M St := λ w, (w, Ok (state w)).

(** A state setter called with an updater function. *)
Definition modify (f : St → St) : M unit :=
  λ w, (mkWorld (f (state w)) (calls w) (notices w), Ok tt).

Definition getCalls : M (list (Call * bool)) := λ w, (w, Ok (calls w)).

Definition notice (n : Notice) : M unit :=
  λ w, (mkWorld (state w) (calls w) (n :: notices w), Ok tt).

(** A call whose promise is kept for later, or dropped: it is logged, and
    whether it is fulfilled is returned. *)
Definition fire (answers : list (Call * bool) → Call → bool) (c : Call)
  : M bool :=
  λ w, let ok := answers (calls w) c in
       (mkWorld (state w) ((c, ok) :: calls w) (notices w), Ok ok).

(** An awaited call: the await throws when the call is rejected. *)
Definition call (answers : list (Call * bool) → Call → bool) (c : Call)
  : M unit :=
  bind (fire answers c) (λ ok : bool, if ok then ret tt else throw).

(** [await Promise.all(cs.map(c => ...))]: every call is made, and the
    await throws when one of them is rejected. *)
Fixpoint fire_all (answers : list (Call * bool) → Call → bool)
    (cs : list Call) : M bool :=
  match cs with
  | [] => ret true
  | c :: cs' =>
      bind (fire answers c)
           (λ ok, bind (fire_all answers cs') (λ oks, ret (ok && oks)))
  end.

Definition call_all (answers : list (Call * bool) → Call → bool)
    (cs : list Call) : M unit :=
  bind (fire_all answers cs) (λ oks : bool, if oks then ret tt else throw).

End World.

Arguments World : clear implicits.
Arguments M : clear implicits.

End Local.

#[global] Instance Local_ret {St Call Notice}
  : MRet (Local.M St Call Notice) :=
  @Local.ret St Call Notice.
#[global] Instance Local_bind {St Call Notice}
  : MBind (Local.M St Call Notice) :=
  λ A B k m, Local.bind m k.

(** ** The checklist of the task detail panel ([TaskDetailPanel] of
       [PERTChart], and the same handlers of [WBSView]) *)

Module Checklist.
Import JS JSArray Eff Local.

(** The bodies of [checklistAPI.update]. *)
Inductive Patch :=
| Patch_is_done (is_done : bool)
| Patch_sort_order (sort_order : Z)
| Patch_item_name (item_name : jsstring).

Inductive Call :=
| checklistAPI_create (task_id : Z) (item_name : jsstring) (is_done : bool)
                      (sort_order : Z)
| checklistAPI_update (id : Z) (patch : Patch).

(** The alerts of the checklist handlers. *)
Inductive Notice :=
| AlertChecklistAddFailed
| AlertChecklistUpdateFailed
| AlertChecklistOrderFailed
| AlertChecklistEditFailed.

(** The state of the panel that the checklist handlers write, and the
    state of the project screen, which the [onUpdate] prop writes. *)
Record Panel := mkPanel {
  checklistItems : list TaskChecklist.t;
  newChecklistItem : jsstring;
  draggedIndex : option nat;
  editingChecklist : option Z;
  editingChecklistText : jsstring;
  screen : Screen
}.

(** What the server answers: whether it fulfils a call, and the item it
    returns for a fulfilled [create]. *)
Record Server := mkServer {
  answers : list (Call * bool) → Call → bool;
  created : list (Call * bool) → TaskChecklist.t
}.

Definition M := Local.M Panel Call Notice.

Definition setChecklistItems
    (f : list TaskChecklist.t → list TaskChecklist.t) : M unit :=
  modify (λ p, mkPanel (f (checklistItems p)) (newChecklistItem p)
                       (draggedIndex p) (editingChecklist p)
                       (editingChecklistText p) (screen p)).

Definition setNewChecklistItem (s : jsstring) : M unit :=
  modify (λ p, mkPanel (checklistItems p) s (draggedIndex p)
                       (editingChecklist p) (editingChecklistText p)
                       (screen p)).

Definition setDraggedIndex (i : option nat) : M unit :=
  modify (λ p, mkPanel (checklistItems p) (newChecklistItem p) i
                       (editingChecklist p) (editingChecklistText p)
                       (screen p)).

Definition setEditingChecklist (id : option Z) : M unit :=
  modify (λ p, mkPanel (checklistItems p) (newChecklistItem p)
                       (draggedIndex p) id (editingChecklistText p)
                       (screen p)).

Definition setEditingChecklistText (s : jsstring) : M unit :=
  modify (λ p, mkPanel (checklistItems p) (newChecklistItem p)
                       (draggedIndex p) (editingChecklist p) s (screen p)).

(** A callback of the project screen, run from the panel. *)
Definition lift {A} (m : Eff.M A) : M A :=
  λ w, let p := state w in
       let '(sc, r) := m (screen p) in
       (mkWorld (mkPanel (checklistItems p) (newChecklistItem p)
                         (draggedIndex p) (editingChecklist p)
                         (editingChecklistText p) sc)
                (calls w) (notices w), r).

(** The [onUpdate] prop that [PERTChart] gives its panel, and the
    [onUpdateTask] prop that [WBSView] calls in its place. *)
Definition PERTChart_onUpdate (P : Platform) (D : ProjectDetail.Data)
  : Eff.M unit :=
  ProjectDetail.handleScheduleChange;;
  ProjectDetail.handleUpdateTask P D.

Definition WBSView_onUpdateTask (P : Platform) (D : ProjectDetail.Data)
  : Eff.M unit :=
  ProjectDetail.handleUpdateTask P D.

(** [{ ...item, is_done: isDone }] for the item with the identifier. *)
Definition mark (checklistId : Z) (isDone : bool) (item : TaskChecklist.t)
  : TaskChecklist.t :=
  if bool_decide (TaskChecklist.checklist_id item = checklistId)
  then TaskChecklist.mk (TaskChecklist.checklist_id item)
                        (TaskChecklist.task_id item)
                        (TaskChecklist.item_name item) isDone
                        (TaskChecklist.sort_order item)
  else item.

(** [{ ...item, item_name: text }] for the item with the identifier. *)
Definition rename (checklistId : Z) (text : jsstring)
    (item : TaskChecklist.t) : TaskChecklist.t :=
  if bool_decide (TaskChecklist.checklist_id item = checklistId)
  then TaskChecklist.mk (TaskChecklist.checklist_id item)
                        (TaskChecklist.task_id item) text
                        (TaskChecklist.is_done item)
                        (TaskChecklist.sort_order item)
  else item.

(** [[...task.checklist_items]
       .sort((a, b) => a.sort_order - b.sort_order)] *)
Definition bySortOrder (items : list TaskChecklist.t)
  : list TaskChecklist.t :=
  sort (λ a b, TaskChecklist.sort_order a - TaskChecklist.sort_order b)
       items.

(** The log after the calls [cs], made in their order. *)
Definition logged (answers : list (Call * bool) → Call → bool)
    (cs : list Call) (log : list (Call * bool)) : list (Call * bool) :=
  foldl (λ log c, (c, answers log c) :: log) log cs.

(** [handleAddChecklistItem] of the panel. *)
Definition handleAddChecklistItem (V : Server) (onUpdate : Eff.M unit)
    (task : WBSTask.t) : M unit :=
  p ← get;
  if negb (truthy (Some (trim (newChecklistItem p)))) then mret tt
  else
    try_catch
      (call (answers V)
            (checklistAPI_create (Task.task_id task) (newChecklistItem p)
               false (Z.of_nat (length (checklistItems p))));;
       log ← getCalls;
       let newItem := created V log in
       setChecklistItems (λ prev, prev ++ [newItem]);;
       setNewChecklistItem [];;
       lift onUpdate)
      (notice AlertChecklistAddFailed).

(** [handleChecklistToggle]: the item is marked at once, and marked the
    other way when the update fails. *)
Definition handleChecklistToggle (V : Server) (onUpdate : Eff.M unit)
    (checklistId : Z) (isDone : bool) : M unit :=
  try_catch
    (setChecklistItems (λ prev, mark checklistId isDone <$> prev);;
     call (answers V)
          (checklistAPI_update checklistId (Patch_is_done isDone));;
     lift onUpdate)
    (setChecklistItems (λ prev, mark checklistId (negb isDone) <$> prev);;
     notice AlertChecklistUpdateFailed).

(** [handleSaveEditChecklist] of [WBSView]. *)
Definition handleSaveEditChecklist (V : Server) (onUpdateTask : Eff.M unit)
    (checklistId : Z) : M unit :=
  p ← get;
  try_catch
    (call (answers V)
          (checklistAPI_update checklistId
             (Patch_item_name (editingChecklistText p)));;
     setChecklistItems (λ prev, rename checklistId (editingChecklistText p)
                                  <$> prev);;
     setEditingChecklist None;;
     setEditingChecklistText [];;
     lift onUpdateTask)
    (notice AlertChecklistEditFailed).

(** [handleDragStart] *)
Definition handleDragStart (index : nat) : M unit :=
  setDraggedIndex (Some index).

(** The array after the two [splice]s of [handleDrop]. *)
Definition moved (draggedIndex dropIndex : nat)
    (draggedItem : TaskChecklist.t) (items : list TaskChecklist.t)
  : list TaskChecklist.t :=
  splice_in dropIndex draggedItem (splice_out draggedIndex items).

(** [newItems.map((item, index) =>
       checklistAPI.update(item.checklist_id, { sort_order: index }))] *)
Definition updateOrder (newItems : list TaskChecklist.t) : list Call :=
  imap (λ index item,
          checklistAPI_update (TaskChecklist.checklist_id item)
                              (Patch_sort_order (Z.of_nat index)))
       newItems.

(** The items as the server keeps them once it has fulfilled the calls of
    [updateOrder]: each with its index as [sort_order]. *)
Definition renumbered (newItems : list TaskChecklist.t)
  : list TaskChecklist.t :=
  imap (λ index item,
          TaskChecklist.mk (TaskChecklist.checklist_id item)
                           (TaskChecklist.task_id item)
                           (TaskChecklist.item_name item)
                           (TaskChecklist.is_done item) (Z.of_nat index))
       newItems.

(** [handleDrop].  When nothing is at [draggedIndex], the first [splice]
    removes nothing and the second one puts [undefined] at [dropIndex]: the
    [map] makes the calls for the items before it and throws there, so that
    the catch puts the checklist of the task back. *)
Definition handleDrop (V : Server) (onUpdate : Eff.M unit)
    (task : WBSTask.t) (dropIndex : nat) : M unit :=
  p ← get;
  match draggedIndex p with
  | None => setDraggedIndex None
  | Some draggedIndex =>
      if bool_decide (draggedIndex = dropIndex) then setDraggedIndex None
      else
        try_catch
          (match checklistItems p !! draggedIndex with
           | Some draggedItem =>
               let newItems :=
                 moved draggedIndex dropIndex draggedItem
                       (checklistItems p) in
               setChecklistItems (λ _, newItems);;
               call_all (answers V) (updateOrder newItems);;
               lift onUpdate
           | None =>
               fire_all (answers V)
                        (updateOrder (take dropIndex (checklistItems p)));;
               throw
           end)
          (setChecklistItems
             (λ _, bySortOrder (WBSTask.checklist_items task));;
           notice AlertChecklistOrderFailed);;
        setDraggedIndex None
  end.

End Checklist.

(** ** The employee forms ([pages/EmployeeList.tsx],
       [pages/EmployeeDetail.tsx]) *)

Module EmployeeForm.
Import JS Eff Local.

(** The form state of both screens. *)
Record Form := mkForm {
  employee_name : jsstring;
  email : jsstring;
  daily_work_hours : Q
}.

Inductive Call :=
| employeeAPI_create (employee : Form)
| employeeAPI_update (id : Z) (employee : Form)
| loadEmployees
| loadEmployeeData.

(** What the alert of a failed update reads of the error:
    [error.response?.status] and [error.response?.data?.detail]. *)
Record Error := mkError {
  status : option Z;
  detail : option jsstring
}.

Inductive Notice :=
| AlertNameRequired
| AlertEmailRequired
| AlertHoursOutOfRange
| AlertCreateFailed
| AlertUpdated
| AlertEmailExists
| AlertUpdateFailedBecause (detail : jsstring)
| AlertUpdateFailed.

Record Server := mkServer {
  answers : list (Call * bool) → Call → bool;
  (** the error of the call that was rejected last *)
  error : list (Call * bool) → Error;
  (** the employee that a fulfilled [loadEmployeeData] puts in the form *)
  loaded : list (Call * bool) → Form
}.

(** The form with whether its dialog is shown. *)
Record Page := mkPage {
  form : Form;
  showForm : bool
}.

Definition M := Local.M Page Call Notice.

(** The three checks of both handlers, in their order. *)
Definition validate_employee (f : Form) : option Notice :=
  if negb (truthy (Some (trim (employee_name f)))) then Some AlertNameRequired
  else if negb (truthy (Some (trim (email f)))) then Some AlertEmailRequired
  else if Qle_bool (daily_work_hours f) 0
          || negb (Qle_bool (daily_work_hours f) 24)
  then Some AlertHoursOutOfRange
  else None.

(** [handleCreateEmployee] ([EmployeeList]); the reload is not awaited and
    catches what its requests throw. *)
Definition handleCreateEmployee (V : Server) : M unit :=
  try_catch
    (p ← get;
     match validate_employee (form p) with
     | Some n => notice n
     | None =>
         call (answers V) (employeeAPI_create (form p));;
         modify (λ _, mkPage (mkForm [] [] 8) false);;
         fire (answers V) loadEmployees;;
         mret tt
     end)
    (notice AlertCreateFailed).

(** [handleEditEmployee] ([EmployeeDetail]); the reload catches what its
    requests throw, and fills the form again when they are fulfilled. *)
Definition handleEditEmployee (V : Server) (employeeId : Z) : M unit :=
  try_catch
    (p ← get;
     match validate_employee (form p) with
     | Some n => notice n
     | None =>
         call (answers V) (employeeAPI_update employeeId (form p));;
         modify (λ p, mkPage (form p) false);;
         ok ← fire (answers V) loadEmployeeData;
         log ← getCalls;
         (if (ok : bool) then modify (λ p, mkPage (loaded V log) (showForm p))
          else mret tt);;
         notice AlertUpdated
     end)
    (log ← getCalls;
     let e := error V log in
     if bool_decide (status e = Some 400)
        && bool_decide (detail e = Some (js "Email already exists"))
     then notice AlertEmailExists
     else match detail e with
          | Some (c :: d) => notice (AlertUpdateFailedBecause (c :: d))
          | _ => notice AlertUpdateFailed
          end).

(** The form passes the checks: name and address are not blank and the
    hours are more than 0 and at most 24. *)
Definition acceptable (f : Form) : Prop :=
  trim (employee_name f) ≠ [] ∧ trim (email f) ≠ []
  ∧ (0 < daily_work_hours f)%Q ∧ (daily_work_hours f <= 24)%Q.

End EmployeeForm.

(** ** The employees offered by the add-member dialog
       ([pages/ProjectDetail.tsx]) *)

Module AddMemberDialog.
Import JS.

(** [getAvailableEmployees]: the workloads of the employees that are not
    members of the project. *)
Definition getAvailableEmployees (D : ProjectDetail.Data)
  : list Workload.t :=
  let memberIds := ProjectMember.employee_id <$> ProjectDetail.members D in
  filter (λ emp, Employee.employee_id (Workload.employee emp) ∉ memberIds)
         (Workload.employeesWithWorkload (ProjectDetail.employees D)
                                         (ProjectDetail.allMembers D)).

(** The [value] of the option of an employee, as the select gives it to
    the form. *)
Definition option_value (emp : Workload.t) : jsstring :=
  toString (Employee.employee_id (Workload.employee emp)).

End AddMemberDialog.

(** ** Data for the list screens and the timeline *)

Module SampleViews.
Import JS.

(** A project with the given identifier, name and status. *)
Definition project (id : Z) (name status : jsstring) : Project.t :=
  Project.mk id name None None None None None None (Some status) None.

(** Three tasks of the timeline: task 1 has no dates, task 2 starts on
    2025-09-03 and task 3 on 2025-09-01. *)
Definition dated_tasks : list WBSTask.t :=
  [Sample.task 1 None None None [];
   Sample.task 2 None (Some (js "2025-09-03")) (Some (js "2025-09-05")) [];
   Sample.task 3 None (Some (js "2025-09-01")) None []].

(** A checklist item of task 1 with the given identifier and place. *)
Definition item (id sort_order : Z) : TaskChecklist.t :=
  TaskChecklist.mk id 1 (js "item") false sort_order.

(** A server that fulfils every checklist call, and one that rejects them
    all. *)
Definition accepting : Checklist.Server :=
  Checklist.mkServer (λ _ _, true) (λ _, item 14 3).

Definition rejecting : Checklist.Server :=
  Checklist.mkServer (λ _ _, false) (λ _, item 14 3).

(** The panel with three items, the first of which is being dragged. *)
Definition dragging
  : Local.World Checklist.Panel Checklist.Call Checklist.Notice :=
  Local.mkWorld
    (Checklist.mkPanel [item 11 0; item 12 1; item 13 2] [] (Some 0%nat)
                       None [] Sample.screen0)
    [] [].

(** A server that fulfils every call of the employee screens. *)
Definition registry : EmployeeForm.Server :=
  EmployeeForm.mkServer (λ _ _, true)
    (λ _, EmployeeForm.mkError None None)
    (λ _, EmployeeForm.mkForm (js "Bob") (js "bob@example.org") 8).

(** The create form filled in for a new employee. *)
Definition hiring
  : Local.World EmployeeForm.Page EmployeeForm.Call EmployeeForm.Notice :=
  Local.mkWorld
    (EmployeeForm.mkPage
       (EmployeeForm.mkForm (js "Bob") (js "bob@example.org") 8) true)
    [] [].

End SampleViews.

(** * Theorems *)

(** ** JavaScript strings *)

Module JSFacts.
Import JS.

Lemma js_inj : Inj (=) (=) js.
Proof.
  assert (Inj (=) (=) code_of_ascii) as Hc.
  { intros a b Hab. apply (inj Z.of_N) in Hab.
    rewrite <- (ascii_N_embedding a), <- (ascii_N_embedding b).
    by rewrite Hab. }
  intros s1 s2 H. unfold js in H.
  apply (inj (fmap code_of_ascii)) in H.
  rewrite <- (String.string_of_list_ascii_of_string s1),
          <- (String.string_of_list_ascii_of_string s2).
  by rewrite H.
Qed.

Lemma toString_inj : Inj (=) (=) toString.
Proof. intros a b H. apply js_inj in H. by apply (inj pretty) in H. Qed.

Lemma pretty_N_go_length (x : N) (s : string) :
  (String.length s ≤ String.length (pretty_N_go x s))%nat.
Proof.
  revert s. induction (N.lt_wf_0 x) as [x _ IH]. intros s.
  destruct (decide (x = 0)%N) as [->|Hx]; [by rewrite pretty_N_go_0|].
  rewrite pretty_N_go_step by lia.
  etrans; [|apply IH; apply N.div_lt; lia]. simpl. lia.
Qed.

Lemma pretty_N_nonempty (x : N) : pretty x ≠ "".
Proof.
  unfold pretty, pretty_N. case_decide; [done|].
  rewrite pretty_N_go_step by lia.
  intros Hp.
  pose proof (pretty_N_go_length (x `div` 10)%N
                (String (pretty_N_char (x `mod` 10)%N) "")) as Hl.
  rewrite Hp in Hl. simpl in Hl. lia.
Qed.

Lemma toString_nonempty (n : Z) : toString n ≠ [].
Proof.
  unfold toString, js. destruct n as [|p|p]; simpl.
  - done.
  - pose proof (pretty_N_nonempty (Npos p)) as H.
    change (pretty (Z.pos p)) with (pretty (N.pos p)).
    destruct (pretty (N.pos p)); [done|]. simpl. done.
  - done.
Qed.

Lemma truthy_toString (n : Z) : truthy (Some (toString n)) = true.
Proof.
  pose proof (toString_nonempty n) as H. unfold truthy.
  by destruct (toString n).
Qed.

End JSFacts.

(** ** The rounding of sums *)

Module JSNumberFacts.
Import JSNumber.
Local Open Scope Q_scope.

Lemma two_power_pos (e : Z) : 0 < 2 ^ e.
Proof. by apply Qpower_0_lt. Qed.

Lemma two_power_succ (e : Z) : 2 ^ (e + 1) == 2 * 2 ^ e.
Proof. rewrite Qpower_plus by done. change (2 ^ 1) with 2. ring. Qed.

Lemma two_power_Z (a : Z) : (0 ≤ a)%Z → inject_Z (2 ^ a) == 2 ^ a.
Proof. intros Ha. by rewrite Zpower_Qpower. Qed.

(** [log2_floor] brackets a positive rational between two powers of two. *)
Lemma log2_floor_spec (q : Q) :
  0 < q → 2 ^ log2_floor q <= q ∧ q < 2 ^ (log2_floor q + 1).
Proof.
  intros Hq. destruct q as [n d].
  assert (0 < n)%Z as Hn by (unfold Qlt in Hq; simpl in Hq; lia).
  unfold log2_floor. cbn [Qnum Qden].
  assert (Qabs (n # d) = n # d) as -> by (simpl; by rewrite Z.abs_eq by lia).
  rewrite Z.abs_eq by lia.
  set (a := Z.log2 n). set (b := Z.log2 (Z.pos d)).
  destruct (Z.log2_spec n Hn) as [Ha1 Ha2].
  destruct (Z.log2_spec (Z.pos d) ltac:(done)) as [Hb1 Hb2].
  fold a in Ha1, Ha2. fold b in Hb1, Hb2.
  pose proof (Z.log2_nonneg n) as Ha0.
  pose proof (Z.log2_nonneg (Z.pos d)) as Hb0.
  fold a in Ha0. fold b in Hb0.
  rewrite Zle_Qle, two_power_Z in Ha1, Hb1 by done.
  rewrite <- Z.add_1_r in Ha2, Hb2.
  rewrite Zlt_Qlt in Ha2, Hb2.
  rewrite two_power_Z, two_power_succ in Ha2 by lia.
  rewrite two_power_Z, two_power_succ in Hb2 by lia.
  pose proof (two_power_pos a) as HA. pose proof (two_power_pos b) as HB.
  pose proof (two_power_pos (a - b)) as HL.
  assert (2 ^ (a - b) * 2 ^ b == 2 ^ a) as Hl.
  { rewrite <- Qpower_plus by done. by replace (a - b + b)%Z with a by lia. }
  assert ((n # d) * inject_Z (Z.pos d) == inject_Z n) as Hnd.
  { rewrite (Qmake_Qdiv n d). field. by intros H%(inject_Z_injective _ 0). }
  assert (0 < inject_Z (Z.pos d)) as HD by (unfold Qlt; simpl; lia).
  set (D := inject_Z (Z.pos d)) in *. set (N := inject_Z n) in *.
  set (A := 2 ^ a) in *. set (B := 2 ^ b) in *. set (q := n # d) in *.
  destruct (Qle_bool (2 ^ (a - b)) q) eqn:Hc.
  - apply Qle_bool_iff in Hc. split; [done|].
    rewrite two_power_succ. set (L := 2 ^ (a - b)) in *.
    apply Qnot_le_lt. intros Hle.
    assert (2 * L * B <= q * D) as H1.
    { apply Qle_trans with (q * B).
      - apply Qmult_le_compat_r; lra.
      - rewrite !(Qmult_comm q). apply Qmult_le_compat_r; lra. }
    lra.
  - assert (q < 2 ^ (a - b)) as Hlt.
    { apply Qnot_le_lt. intros Hle. apply Qle_bool_iff in Hle. congruence. }
    replace (a - b - 1 + 1)%Z with (a - b)%Z by lia. split; [|done].
    assert (2 * 2 ^ (a - b - 1) == 2 ^ (a - b)) as Hhalf.
    { rewrite <- two_power_succ.
      by replace (a - b - 1 + 1)%Z with (a - b)%Z by lia. }
    pose proof (two_power_pos (a - b - 1)) as HL'.
    set (L := 2 ^ (a - b)) in *. set (L' := 2 ^ (a - b - 1)) in *.
    apply Qnot_lt_le. intros Hgt.
    assert (q * D < L' * (2 * B)) as H1.
    { apply Qlt_trans with (L' * D).
      - apply Qmult_lt_compat_r; lra.
      - rewrite !(Qmult_comm L'). apply Qmult_lt_compat_r; lra. }
    assert (L' * (2 * B) == A) as H2.
    { rewrite <- Hl, <- Hhalf. ring. }
    lra.
Qed.


Lemma round_half_even_bounds (q : Q) :
  q - (1 # 2) <= inject_Z (round_half_even q)
  ∧ inject_Z (round_half_even q) <= q + (1 # 2).
Proof.
  unfold round_half_even.
  pose proof (Qfloor_le q) as Hf. pose proof (Qlt_floor q) as Hc.
  rewrite inject_Z_plus in Hc. change (inject_Z 1) with 1 in Hc.
  destruct (q - inject_Z (Qfloor q) ?= 1 # 2) eqn:Hcmp.
  - apply Qeq_alt in Hcmp.
    destruct (Z.even (Qfloor q)); rewrite ?inject_Z_plus;
      change (inject_Z 1) with 1; split; lra.
  - apply Qlt_alt in Hcmp. split; lra.
  - apply Qgt_alt in Hcmp. rewrite inject_Z_plus.
    change (inject_Z 1) with 1. split; lra.
Qed.

Lemma round_half_even_le (q : Q) (N : Z) :
  q < inject_Z N + (1 # 2) → (round_half_even q ≤ N)%Z.
Proof.
  intros Hq. destruct (round_half_even_bounds q) as [_ Hu].
  assert (inject_Z (round_half_even q) < inject_Z (N + 1)) as H.
  { rewrite inject_Z_plus. change (inject_Z 1) with 1. lra. }
  rewrite <- Zlt_Qlt in H. lia.
Qed.

Lemma clamp_le (r b : Q) :
  r <= b → 0 <= b → Qred (Qmax (- infinity) (Qmin r infinity)) <= b.
Proof.
  intros Hr Hb. rewrite Qred_correct. apply Q.max_lub.
  - pose proof (two_power_pos 1024) as Hinf. fold infinity in Hinf. lra.
  - eapply Qle_trans; [apply Q.le_min_l|done].
Qed.

Lemma scaled_le (m N : Z) (e : Z) :
  (m ≤ N)%Z → inject_Z m * 2 ^ e <= inject_Z N * 2 ^ e.
Proof.
  intros H. apply Qmult_le_compat_r.
  - by rewrite <- Zle_Qle.
  - apply Qlt_le_weak, two_power_pos.
Qed.

(** Below one, the last place of a double is at most [2 ^ -53]. *)
Lemma ulp_exponent_below_one (y : Q) :
  0 < y → y < 1 →
  (ulp_exponent y ≤ -53)%Z ∧ y < 2 ^ 53 * 2 ^ ulp_exponent y.
Proof.
  intros Hpos Hlt. destruct (log2_floor_spec y Hpos) as [Hl Hu].
  assert (log2_floor y < 0)%Z as Hneg.
  { apply (Qpower_lt_compat_l_inv 2); [|done].
    change (2 ^ 0) with 1. lra. }
  unfold ulp_exponent. split; [lia|].
  eapply Qlt_le_trans; [exact Hu|].
  rewrite <- Qpower_plus by done. apply Qpower_le_compat_l; [lia|done].
Qed.

(** From one to just above it, the last place is [2 ^ -52]. *)
Lemma ulp_exponent_at_one (y : Q) :
  1 <= y → y < 2 → ulp_exponent y = (-52)%Z.
Proof.
  intros Hge Hlt.
  destruct (log2_floor_spec y ltac:(lra)) as [Hl Hu].
  assert (log2_floor y < 1)%Z.
  { apply (Qpower_lt_compat_l_inv 2); [|done]. change (2 ^ 1) with 2. lra. }
  assert (0 < log2_floor y + 1)%Z.
  { apply (Qpower_lt_compat_l_inv 2); [|done]. change (2 ^ 0) with 1. lra. }
  unfold ulp_exponent. lia.
Qed.

(** What rounds to a double above one is more than [2 ^ -54] above one. *)
Lemma round64_le_1 (y : Q) : y <= 1 + 2 ^ (-54) → round64 y <= 1.
Proof.
  intros Hy. unfold round64.
  destruct (Qeq_bool y 0) eqn:H0; [done|].
  apply Qeq_bool_neq in H0. apply clamp_le; [|done].
  pose proof (two_power_pos (ulp_exponent y)) as He.
  destruct (Qlt_le_dec y 0) as [Hneg|Hpos].
  - assert (round_half_even (y / 2 ^ ulp_exponent y) ≤ 0)%Z as Hm.
    { apply round_half_even_le. apply Qlt_shift_div_r; [done|].
      change (inject_Z 0) with 0. lra. }
    eapply Qle_trans; [by apply scaled_le|].
    change (inject_Z 0) with 0. lra.
  - assert (0 < y) as Hy0.
    { apply Qle_lt_or_eq in Hpos as [?|Heq]; [done|]. by symmetry in Heq. }
    destruct (Qlt_le_dec y 1) as [Hlt|Hge].
    + destruct (ulp_exponent_below_one y Hy0 Hlt) as [He53 Hbound].
      assert (round_half_even (y / 2 ^ ulp_exponent y) ≤ 2 ^ 53)%Z as Hm.
      { apply round_half_even_le.
        eapply Qlt_trans; [|apply Qplus_lt_r with (z := inject_Z (2 ^ 53));
                            by instantiate (1 := 0)].
        rewrite Qplus_0_r, two_power_Z by done.
        by apply Qlt_shift_div_r. }
      eapply Qle_trans; [by apply scaled_le|].
      rewrite two_power_Z by done. rewrite <- Qpower_plus by done.
      change 1 with (2 ^ 0). apply Qpower_le_compat_l; [lia|done].
    + assert (2 ^ (-54) < 1) as Hsmall by (by vm_compute).
      rewrite (ulp_exponent_at_one y Hge) in * by lra.
      assert (round_half_even (y / 2 ^ (-52)) ≤ 2 ^ 52)%Z as Hm.
      { apply round_half_even_le. apply Qlt_shift_div_r; [done|].
        assert ((inject_Z (2 ^ 52) + (1 # 2)) * 2 ^ (-52)
                == 1 + 2 * 2 ^ (-54)) as -> by (by vm_compute).
        pose proof (two_power_pos (-54)). lra. }
      eapply Qle_trans; [by apply scaled_le|].
      by vm_compute.
Qed.

(** Rounding a number between zero and one raises it by at most
    [2 ^ -54]. *)
Lemma round64_error (x : Q) :
  0 <= x → x <= 1 → round64 x <= x + 2 ^ (-54).
Proof.
  intros Hx0 Hx1. pose proof (two_power_pos (-54)) as Hsmall.
  destruct (Qlt_le_dec x 1) as [Hlt|Hge].
  - unfold round64. destruct (Qeq_bool x 0) eqn:H0; [lra|].
    apply Qeq_bool_neq in H0. apply clamp_le; [|lra].
    assert (0 < x) as Hpos.
    { apply Qle_lt_or_eq in Hx0 as [?|Heq]; [done|]. by symmetry in Heq. }
    destruct (ulp_exponent_below_one x Hpos Hlt) as [He53 _].
    pose proof (two_power_pos (ulp_exponent x)) as He.
    destruct (round_half_even_bounds (x / 2 ^ ulp_exponent x)) as [_ Hu].
    apply Qle_trans
      with ((x / 2 ^ ulp_exponent x + (1 # 2)) * 2 ^ ulp_exponent x).
    { apply Qmult_le_compat_r; lra. }
    assert ((x / 2 ^ ulp_exponent x + (1 # 2)) * 2 ^ ulp_exponent x
            == x + (1 # 2) * 2 ^ ulp_exponent x) as ->.
    { field. lra. }
    assert (2 ^ ulp_exponent x <= 2 ^ (-53)) as Hle.
    { apply Qpower_le_compat_l; [lia|done]. }
    assert (2 ^ (-53) == 2 * 2 ^ (-54)) as Hdouble by (by vm_compute).
    lra.
  - pose proof (round64_le_1 x ltac:(lra)). lra.
Qed.

(** A ratio within the remaining capacity keeps the sum the code computes
    within one: for a total between zero and one, the sum of the total and
    of a ratio that is at most [Math.max(0, 1.0 - total)] is at most 1.0. *)
Lemma add_within_remaining (total ratio : Q) :
  0 <= total → total <= 1 → ratio <= Qmax 0 (sub 1 total) →
  add total ratio <= 1.
Proof.
  intros Ht0 Ht1 Hr.
  assert (1 + 2 ^ (-54) < infinity) as Hbig by (by vm_compute).
  pose proof (two_power_pos (-54)) as Hsmall.
  assert (∀ q, Qabs q <= 1 → Qle_bool infinity (Qabs q) = false) as Hfin.
  { intros q Hq. apply not_true_iff_false. intros H%Qle_bool_iff. lra. }
  assert (sub 1 total = round64 (1 + - total)) as Hsub.
  { unfold sub, add. rewrite (Hfin 1) by (by vm_compute).
    rewrite Hfin; [done|]. rewrite Qabs_opp, Qabs_pos; done. }
  rewrite Hsub in Hr.
  pose proof (round64_error (1 + - total) ltac:(lra) ltac:(lra)) as Herr.
  assert (ratio <= 1 + - total + 2 ^ (-54)) as Hratio.
  { eapply Qle_trans; [exact Hr|]. apply Q.max_lub; lra. }
  unfold add. rewrite Hfin by (rewrite Qabs_pos; done).
  destruct (Qle_bool infinity (Qabs ratio)) eqn:Hinf.
  - apply Qle_bool_iff in Hinf. revert Hinf.
    apply Qabs_case; intros; lra.
  - apply round64_le_1. lra.
Qed.

End JSNumberFacts.

(** ** The bracketed category *)

Module CategoryFacts.
Import JS Category.

Lemma span_app (p : Z → bool) (s rest : jsstring) :
  Forall (λ u, p u = true) s →
  match rest with [] => True | u :: _ => p u = false end →
  span p (s ++ rest) = (s, rest).
Proof.
  intros Hs Hrest. induction Hs as [|u s Hu _ IH]; simpl.
  - destruct rest as [|u rest]; [done|]. simpl. by rewrite Hrest.
  - by rewrite Hu, IH.
Qed.

Lemma match_category_compose (c d : jsstring) :
  c ≠ [] → rbracket ∉ c →
  match_category (compose_description c d) = Some (c, space :: d).
Proof.
  intros Hc Hr. unfold compose_description, match_category.
  destruct c as [|u c]; [done|]. cbn [truthy app].
  rewrite bool_decide_eq_true_2 by done.
  change (u :: c ++ rbracket :: space :: d)
    with ((u :: c) ++ rbracket :: space :: d).
  rewrite span_app.
  - by rewrite bool_decide_eq_true_2.
  - apply Forall_forall. intros x Hx.
    apply negb_true_iff, bool_decide_eq_false. by intros ->.
  - done.
Qed.

Lemma bracketed_compose (c d : jsstring) :
  c ≠ [] → bracketed (Some (compose_description c d)) = true.
Proof.
  intros Hc. unfold compose_description, bracketed.
  destruct c as [|u c]; [done|]. cbn [truthy app startsWith andb].
  rewrite bool_decide_eq_true_2 by done. cbn [andb].
  unfold includes. apply bool_decide_eq_true. set_solver.
Qed.

(** C7, as amended.  A description composed from a non-empty category
    without a closing bracket and a text that neither starts with white
    space nor holds a line terminator gives back the category and the
    text. *)
Theorem category_round_trip (task : Task.t) (c d : jsstring) :
  c ≠ [] → rbracket ∉ c →
  starts_black d → Forall (λ u, is_line_terminator u = false) d →
  Task.description task = Some (compose_description c d) →
  getTaskCategory task = Some c ∧
  getDescriptionWithoutCategory (compose_description c d) = d.
Proof.
  intros Hc Hr Hd Hlt Htask. split.
  - unfold getTaskCategory. rewrite Htask, bracketed_compose by done.
    by rewrite match_category_compose.
  - unfold getDescriptionWithoutCategory, match_description.
    rewrite bracketed_compose, match_category_compose by done.
    change (space :: d) with ([space] ++ d).
    rewrite (span_app is_white_space [space] d).
    + cbn [snd]. rewrite <- (app_nil_r d) at 1. rewrite span_app; [done| |done].
      eapply Forall_impl; [exact Hlt|]. intros u Hu. cbv beta. by rewrite Hu.
    + by repeat constructor.
    + by destruct d.
Qed.

Lemma category_round_trip_witness :
  js "dev" ≠ [] ∧ (rbracket ∉ js "dev") ∧ starts_black (js "write it") ∧
  Forall (λ u, is_line_terminator u = false) (js "write it") ∧
  Task.description (Sample.task 1 (Some (js "[dev] write it")) None None [])
  = Some (compose_description (js "dev") (js "write it")) ∧
  getTaskCategory (Sample.task 1 (Some (js "[dev] write it")) None None [])
  = Some (js "dev") ∧
  getDescriptionWithoutCategory
    (compose_description (js "dev") (js "write it"))
  = js "write it".
Proof.
  assert (js "dev" ≠ []) as H1 by done.
  assert (rbracket ∉ js "dev") as H2.
  { apply (bool_decide_unpack _). by vm_compute. }
  assert (starts_black (js "write it")) as H3 by done.
  assert (Forall (λ u, is_line_terminator u = false) (js "write it")) as H4.
  { apply (bool_decide_unpack _). by vm_compute. }
  assert (Task.description
            (Sample.task 1 (Some (js "[dev] write it")) None None [])
          = Some (compose_description (js "dev") (js "write it"))) as H5
    by done.
  repeat (split; [assumption|]).
  exact (category_round_trip _ _ _ H1 H2 H3 H4 H5).
Defined.

(** The round trip that the specification states for every category and
    text fails on a category that holds a closing bracket, on a text that
    starts with a space, and on a text of two lines. *)
Lemma category_round_trip_fails :
  ¬ (getTaskCategory
       (Sample.task 1 (Some (compose_description (js "a]b") (js "x")))
                    None None [])
     = Some (js "a]b") ∧
     getDescriptionWithoutCategory (compose_description (js "a]b") (js "x"))
     = js "x")
  ∧
  ¬ (getTaskCategory
       (Sample.task 1 (Some (compose_description (js "dev") (js " x")))
                    None None [])
     = Some (js "dev") ∧
     getDescriptionWithoutCategory (compose_description (js "dev") (js " x"))
     = js " x")
  ∧
  ¬ (getTaskCategory
       (Sample.task 1
          (Some (compose_description (js "dev")
                   (js "one" ++ [10] ++ js "two")))
          None None [])
     = Some (js "dev") ∧
     getDescriptionWithoutCategory
       (compose_description (js "dev") (js "one" ++ [10] ++ js "two"))
     = js "one" ++ [10] ++ js "two").
Proof.
  split; [|split].
  - intros [Hcat _]. by vm_compute in Hcat.
  - intros [_ Hdesc]. by vm_compute in Hdesc.
  - intros [_ Hdesc]. by vm_compute in Hdesc.
Qed.

(** What the two functions return on those inputs. *)
Example category_round_trip_values :
  getTaskCategory
    (Sample.task 1 (Some (compose_description (js "a]b") (js "x")))
                 None None [])
  = Some (js "a")
  ∧ getDescriptionWithoutCategory (compose_description (js "dev") (js " x"))
    = js "x"
  ∧ getDescriptionWithoutCategory
      (compose_description (js "dev") (js "one" ++ [10] ++ js "two"))
    = js "one".
Proof. repeat split; by vm_compute. Qed.

End CategoryFacts.

(** ** The dependency-graph editor *)

Module PERTChartFacts.
Import JS JSFacts Eff PERTChart.

Section Walk.
Context (tasks : list WBSTask.t).

Lemma avoiding_weaken (V V' : gset jsstring) x y :
  V ⊆ V' → avoiding tasks V' x y → avoiding tasks V x y.
Proof.
  intros Hsub. induction 1 as [x Hx|x y z Hx Hxy _ IH].
  - apply avoiding_here. set_solver.
  - eapply avoiding_step; [set_solver|done..].
Qed.

Lemma avoiding_start (V : gset jsstring) x y :
  avoiding tasks V x y → x ∉ V.
Proof. by destruct 1. Qed.

(** A walk that avoids [V] either avoids [c] as well, or leaves [c] for the
    last time through one of the identifiers [c] pushes. *)
Lemma avoiding_split (V : gset jsstring) (c x z : jsstring) :
  c ≠ z → avoiding tasks V x z →
  avoiding tasks ({[c]} ∪ V) x z ∨
  ∃ y, walks tasks c y ∧ avoiding tasks ({[c]} ∪ V) y z.
Proof.
  intros Hcz. induction 1 as [x Hx|x y z Hx Hxy Hyz IH].
  - left. apply avoiding_here. set_solver.
  - destruct (IH Hcz) as [Hav|Hex]; [|by right].
    destruct (decide (x = c)) as [->|Hne].
    + right. by exists y.
    + left. eapply avoiding_step; [set_solver|done..].
Qed.

Lemma hasCycle_loop_spec (sourceId : jsstring) (visited : gset jsstring)
    (stack : list jsstring) :
  hasCycle_loop tasks sourceId visited stack = true ↔
  ∃ x, x ∈ stack ∧ avoiding tasks visited x sourceId.
Proof.
  funelim (hasCycle_loop tasks sourceId visited stack).
  - split; [done|]. intros (x & Hx & _). by apply elem_of_nil in Hx.
  - rewrite H. split.
    + intros (x & Hx & Hav). exists x. split; [by right|done].
    + intros (x & Hx & Hav). exists x. split; [|done].
      apply elem_of_cons in Hx as [->|Hx]; [|done].
      by apply avoiding_start in Hav.
  - subst current. split; [|done]. intros _. exists sourceId.
    split; [by left|]. by apply avoiding_here.
  - rewrite H. split.
    + intros (x & Hx & Hav).
      apply elem_of_app in Hx as [Hx|Hx].
      * rewrite elem_of_reverse in Hx. exists current.
        split; [apply elem_of_cons; by left|].
        eapply avoiding_step; [done|exact Hx|].
        eapply avoiding_weaken; [|done]. set_solver.
      * exists x. split; [by right|].
        eapply avoiding_weaken; [|done]. set_solver.
    + intros (x & Hx & Hav).
      destruct (avoiding_split visited current x sourceId ltac:(done) Hav)
        as [Hav'|(y & Hy & Hav')].
      * apply elem_of_cons in Hx as [->|Hx].
        { apply avoiding_start in Hav'. set_solver. }
        exists x. split; [|done]. apply elem_of_app. by right.
      * exists y. split; [|done]. apply elem_of_app. left.
        by rewrite elem_of_reverse.
Qed.

Lemma avoiding_empty (x y : jsstring) :
  avoiding tasks ∅ x y ↔ rtc (walks tasks) x y.
Proof.
  split.
  - induction 1; [done|]. by eapply rtc_l.
  - induction 1 as [x|x y z Hxy _ IH].
    + by apply avoiding_here.
    + by eapply avoiding_step.
Qed.

(** What [hasCycle] computes: whether the walk that starts at the target
    and moves from an identifier to the identifiers it depends on reaches the
    source. *)
Lemma hasCycle_spec (sourceId targetId : jsstring) :
  hasCycle tasks sourceId targetId = true ↔
  rtc (walks tasks) targetId sourceId.
Proof.
  unfold hasCycle. rewrite hasCycle_loop_spec, <- avoiding_empty. split.
  - intros (x & Hx & Hav). by apply list_elem_of_singleton in Hx as ->.
  - intros Hav. exists targetId. split; [|done]. by left.
Qed.

Lemma findTask_unique (t : WBSTask.t) :
  unique_ids tasks → t ∈ tasks →
  findTask tasks (toString (Task.task_id t)) = Some t.
Proof.
  unfold unique_ids, findTask. intros Hnd Hin.
  induction tasks as [|u l IH]; [by apply elem_of_nil in Hin|].
  csimpl in Hnd. apply NoDup_cons in Hnd as [Hu Hnd]. simpl.
  destruct (decide (toString (Task.task_id u) = toString (Task.task_id t)))
    as [Heq|Hne].
  - rewrite bool_decide_eq_true_2 by done.
    apply elem_of_cons in Hin as [->|Hin]; [done|].
    apply toString_inj in Heq. exfalso. apply Hu. rewrite Heq.
    apply list_elem_of_fmap. by exists t.
  - rewrite bool_decide_eq_false_2 by done.
    apply elem_of_cons in Hin as [->|Hin]; [done|]. by apply IH.
Qed.

Lemma walks_depends_on (a : Z) (x : jsstring) :
  unique_ids tasks →
  walks tasks (toString a) x ↔ ∃ b, x = toString b ∧ depends_on tasks a b.
Proof.
  intros Hnd. unfold walks, pushed. split.
  - destruct (findTask tasks (toString a)) as [t|] eqn:Hf;
      [|by intros ?%elem_of_nil].
    apply findTask_Some in Hf as [Hin Hid]. apply toString_inj in Hid.
    intros (d & -> & Hd)%list_elem_of_fmap.
    exists (TaskDependency.depends_on_id d). split; [done|].
    by exists t, d.
  - intros (b & -> & t & d & Hin & <- & Hd & <-).
    rewrite (findTask_unique t Hnd Hin).
    apply list_elem_of_fmap. by exists d.
Qed.

Lemma rtc_walks_depends_on (T S : Z) :
  unique_ids tasks →
  rtc (walks tasks) (toString T) (toString S) ↔ rtc (depends_on tasks) T S.
Proof.
  intros Hnd. split.
  - assert (∀ x y, rtc (walks tasks) x y → ∀ a, x = toString a →
              ∃ b, y = toString b ∧ rtc (depends_on tasks) a b) as Hgen.
    { induction 1 as [x|x y z Hxy _ IH]; intros a ->.
      - by exists a.
      - apply (walks_depends_on _ _ Hnd) in Hxy as (b & -> & Hab).
        destruct (IH b eq_refl) as (c & -> & Hbc).
        exists c. split; [done|]. by eapply rtc_l. }
    intros Hw. destruct (Hgen _ _ Hw T eq_refl) as (b & Hb & Hr).
    by apply toString_inj in Hb as <-.
  - induction 1 as [a|a b c Hab _ IH]; [done|].
    eapply rtc_l; [|done].
    apply (walks_depends_on _ _ Hnd). by exists b.
Qed.

End Walk.

(** What the pre-check of [onConnect] decides.  When the target already
    depends on the source, in zero or more steps, the handler only shows an
    alert: none of its callbacks runs, whatever they are. *)
Lemma onConnect_blocked (P : Platform) (tasks : list WBSTask.t)
    (ty : DependencyType) (onCreateDependency : TaskDependency.t → M unit)
    (onScheduleChange onUpdateTask : M unit) (S T : Z) (s : Screen) :
  unique_ids tasks → rtc (depends_on tasks) T S →
  ∃ a, onConnect P tasks ty onCreateDependency onScheduleChange onUpdateTask
         (connect S T) s = alert a s.
Proof.
  intros Hnd Hr. unfold onConnect, connect. cbn [source target].
  rewrite !truthy_toString. cbn [negb orb].
  case_bool_decide; [by eexists|].
  destruct (existingDependency tasks (toString S) (toString T));
    [by eexists|].
  apply (rtc_walks_depends_on tasks _ _ Hnd), hasCycle_spec in Hr.
  rewrite Hr. by eexists.
Qed.

(** Otherwise the handler goes on to create the dependency. *)
Lemma onConnect_passes (P : Platform) (tasks : list WBSTask.t)
    (ty : DependencyType) (onCreateDependency : TaskDependency.t → M unit)
    (onScheduleChange onUpdateTask : M unit) (S T : Z) (s : Screen) :
  unique_ids tasks → ¬ rtc (depends_on tasks) T S →
  onConnect P tasks ty onCreateDependency onScheduleChange onUpdateTask
    (connect S T) s
  = try_catch
      (onCreateDependency
         (TaskDependency.mk (Number P (toString T)) (Number P (toString S))
                            ty);;
       onScheduleChange;;
       onUpdateTask)
      (alert AlertDependencyCreateFailed) s.
Proof.
  intros Hnd Hr. unfold onConnect, connect. cbn [source target].
  rewrite !truthy_toString. cbn [negb orb].
  rewrite bool_decide_eq_false_2.
  2:{ intros Heq%toString_inj. subst. by apply Hr. }
  destruct (existingDependency tasks (toString S) (toString T)) as [d|] eqn:He.
  { exfalso. apply Hr. apply rtc_once.
    unfold existingDependency in He.
    destruct (findTask tasks (toString T)) as [t|] eqn:Hf; [|done].
    apply findTask_Some in Hf as [Hin Hid%toString_inj].
    apply find_some in He as [Hd Hb].
    apply bool_decide_eq_true in Hb. apply toString_inj in Hb.
    exists t, d. by rewrite <- list_elem_of_In in Hd. }
  destruct (hasCycle tasks (toString S) (toString T)) eqn:Hc; [|done].
  exfalso. apply Hr.
  by apply hasCycle_spec, (rtc_walks_depends_on tasks _ _ Hnd) in Hc.
Qed.

(** X2.  The pre-check wired as the project screen wires it: the dependency
    is requested exactly when the target does not yet depend on the source. *)
Lemma onConnect_requests_iff (P : Platform) (D : ProjectDetail.Data)
    (ty : DependencyType) (S T : Z) (s : Screen) :
  unique_ids (ProjectDetail.tasks D) →
  requests (exec (ProjectDetail.perform P D
                    (ProjectDetail.PERT_Connect (connect S T) ty)) s)
  ≠ requests s
  ↔ ¬ rtc (depends_on (ProjectDetail.tasks D)) T S.
Proof.
  intros Hnd. unfold exec, ProjectDetail.perform.
  assert (rtc (depends_on (ProjectDetail.tasks D)) T S ∨
          ¬ rtc (depends_on (ProjectDetail.tasks D)) T S) as [Hr|Hr].
  { rewrite <- (rtc_walks_depends_on _ _ _ Hnd), <- hasCycle_spec.
    destruct (hasCycle _ _ _); [by left|by right]. }
  - destruct (onConnect_blocked P _ ty (ProjectDetail.onCreateDependency P)
                ProjectDetail.handleScheduleChange
                (ProjectDetail.handleUpdateTask P D) S T s Hnd Hr)
      as [a ->].
    split; [by intros []|done].
  - rewrite onConnect_passes by done. split; [done|]. intros _.
    unfold try_catch, mbind, M_bind, bind, ProjectDetail.onCreateDependency,
      request. simpl.
    destruct (responds P (requests s) _); simpl.
    + unfold ProjectDetail.handleUpdateTask, try_catch, request. simpl.
      intros Heq. apply (f_equal length) in Heq.
      destruct (responds P _ _); simpl in Heq; lia.
    + intros Heq. apply (f_equal length) in Heq. simpl in Heq. lia.
Qed.

(** In a snapshot without cycles the pre-check lets every edge through
    that closes a cycle between two distinct tasks: the walk looks for the
    source among what the target depends on, where a cycle needs the target
    among what the source depends on. *)
Lemma onConnect_passes_cycles (P : Platform) (tasks : list WBSTask.t)
    (ty : DependencyType) (onCreateDependency : TaskDependency.t → M unit)
    (onScheduleChange onUpdateTask : M unit) (S T : Z) (s : Screen) :
  unique_ids tasks → acyclic tasks → S ≠ T → closes_cycle tasks S T →
  onConnect P tasks ty onCreateDependency onScheduleChange onUpdateTask
    (connect S T) s
  = try_catch
      (onCreateDependency
         (TaskDependency.mk (Number P (toString T)) (Number P (toString S))
                            ty);;
       onScheduleChange;;
       onUpdateTask)
      (alert AlertDependencyCreateFailed) s.
Proof.
  intros Hnd Hac Hne Hcyc. apply onConnect_passes; [done|].
  intros Hback. apply (Hac S).
  apply rtc_tc in Hcyc as [->|Hcyc]; [done|].
  apply rtc_tc in Hback as [->|Hback]; [done|].
  by etrans.
Qed.

(** C3. When the source is the target, or the target already lists the
    source among its dependencies, [onConnect] only shows the matching
    alert: the result does not depend on the callbacks, so none of them, and
    in particular not [onCreateDependency], has run. *)
Theorem onConnect_rejects_self_loop_and_duplicate (P : Platform)
    (tasks : list WBSTask.t) (ty : DependencyType)
    (onCreateDependency : TaskDependency.t → M unit)
    (onScheduleChange onUpdateTask : M unit) (S T : Z) (s : Screen) :
  unique_ids tasks →
  S = T ∨ depends_on tasks T S →
  onConnect P tasks ty onCreateDependency onScheduleChange onUpdateTask
    (connect S T) s
  = alert (if bool_decide (S = T) then AlertSameTask
           else AlertDependencyExists) s.
Proof.
  intros Hnd Hrej. unfold onConnect, connect. cbn [source target].
  rewrite !truthy_toString. cbn [negb orb].
  case_bool_decide as Hst.
  - apply toString_inj in Hst. by rewrite bool_decide_eq_true_2.
  - assert (S ≠ T) as Hne by (by intros ->).
    rewrite (bool_decide_eq_false_2 (S = T)) by done.
    destruct Hrej as [?|(t & d & Hin & <- & Hd & <-)]; [done|].
    unfold existingDependency. rewrite (findTask_unique tasks t Hnd Hin).
    destruct (List.find _ (WBSTask.dependencies t)) as [d'|] eqn:Hf; [done|].
    exfalso. pose proof (find_none _ _ Hf d) as Hn. cbv beta in Hn.
    rewrite bool_decide_eq_true_2 in Hn by done.
    apply list_elem_of_In in Hd. by specialize (Hn Hd).
Qed.

Lemma onConnect_rejects_self_loop_and_duplicate_witness :
  PERTChart.unique_ids Sample.two_tasks ∧
  (2 = 1 ∨ depends_on Sample.two_tasks 2 1) ∧
  Eff.exec
    (ProjectDetail.perform Sample.online (Sample.data Sample.two_tasks)
       (ProjectDetail.PERT_Connect (connect 1 2) FS)) Sample.screen0
  = Eff.exec (alert AlertDependencyExists) Sample.screen0.
Proof.
  assert (PERTChart.unique_ids Sample.two_tasks) as Hnd.
  { unfold unique_ids. apply (bool_decide_unpack _). by vm_compute. }
  assert (depends_on Sample.two_tasks 2 1) as Hdep.
  { exists (Sample.task 2 None None None [1]), (TaskDependency.mk 2 1 FS).
    repeat split; vm_compute; set_solver. }
  split; [exact Hnd|]. split; [by right|].
  unfold Eff.exec, ProjectDetail.perform.
  by rewrite (onConnect_rejects_self_loop_and_duplicate Sample.online
                Sample.two_tasks FS _ _ _ 1 2 Sample.screen0 Hnd
                (or_intror Hdep)).
Defined.

(** C1. On the snapshot where task 2 depends on task 1, drawing the edge
    from 2 to 1 passes the pre-check: the dependency of 1 on 2 is created,
    and it closes the cycle between the two tasks.  On the chain where 3
    depends on 2 and 2 on 1, the edge from 1 to 3, which closes no cycle, is
    refused as one. *)
Theorem onConnect_creates_a_cycle :
  (let s' :=
     Eff.exec
       (ProjectDetail.perform Sample.online (Sample.data Sample.two_tasks)
          (ProjectDetail.PERT_Connect (connect 2 1) FS)) Sample.screen0 in
   (taskAPI_createDependency (TaskDependency.mk 1 2 FS), true) ∈ requests s'
   ∧ alerts s' = []
   ∧ closes_cycle Sample.two_tasks 2 1)
  ∧
  (let s' :=
     Eff.exec
       (ProjectDetail.perform Sample.online (Sample.data Sample.chain)
          (ProjectDetail.PERT_Connect (connect 1 3) FS)) Sample.screen0 in
   requests s' = [] ∧ alerts s' = [AlertCycle]
   ∧ ¬ closes_cycle Sample.chain 1 3).
Proof.
  split.
  - split; [vm_compute; set_solver|]. split; [by vm_compute|].
    apply rtc_once.
    exists (Sample.task 2 None None None [1]), (TaskDependency.mk 2 1 FS).
    repeat split; vm_compute; set_solver.
  - split; [by vm_compute|]. split; [by vm_compute|].
    unfold closes_cycle. intros Hr.
    inversion Hr as [|a b c Hab Hbc]; subst.
    destruct Hab as (t & d & Hin & Hid & Hd & _).
    vm_compute in Hin.
    repeat (apply elem_of_cons in Hin as [->|Hin]);
      [| |  |by apply elem_of_nil in Hin];
      vm_compute in Hid; try done.
    vm_compute in Hd. by apply elem_of_nil in Hd.
Qed.

End PERTChartFacts.

(** ** The bars of the timeline *)

Module WBSViewFacts.
Import JS WBSView.

Lemma findIndex_None {A} (p : A → bool) (l : list A) :
  findIndex p l = None ↔ ∀ x, x ∈ l → p x = false.
Proof.
  induction l as [|y l IH]; simpl.
  - split; [|done]. intros _ x Hx. by apply elem_of_nil in Hx.
  - destruct (p y) eqn:Hy.
    + split; [done|]. intros H. specialize (H y ltac:(by left)). congruence.
    + rewrite fmap_None, IH. split.
      * intros H x [->|Hx]%elem_of_cons; auto.
      * intros H x Hx. apply H. by right.
Qed.

Lemma findIndex_Some {A} (p : A → bool) (l : list A) (i : Z) :
  findIndex p l = Some i → ∃ x, x ∈ l ∧ p x = true.
Proof.
  revert i. induction l as [|y l IH]; intros i; simpl; [done|].
  destruct (p y) eqn:Hy.
  - intros _. exists y. split; [by left|done].
  - intros (j & Hj & _)%fmap_Some. destruct (IH j Hj) as (x & Hx & Hp).
    exists x. split; [by right|done].
Qed.

(** [ceil_div a b] is the ceiling of the quotient: the least integer whose
    product with [b] reaches [a]. *)
Lemma ceil_div_spec (a b : Z) :
  0 < b → (ceil_div a b - 1) * b < a ≤ ceil_div a b * b.
Proof.
  intros Hb. unfold ceil_div.
  pose proof (Z.div_mod (- a) b ltac:(lia)).
  pose proof (Z.mod_pos_bound (- a) b Hb). nia.
Qed.

(** C10, as amended.  [getTaskPosition] returns [null] exactly for the
    tasks that lack a start or an end date or whose start day is not one of
    the rendered days.  For any other task whose two dates are valid dates
    it returns a bar whose width is 30 times the inclusive day span
    [n + 1], where [n] is the ceiling of [(end - start) / day], the least
    integer with [end - start <= n * day]; or 25 if that is less, hence at
    least 25.  When a date of the task is not a valid date, the width of the
    bar is not a number. *)
Theorem getTaskPosition_spec (P : Platform) (dateRange : list Z)
    (task : Task.t) :
  (getTaskPosition P dateRange task = None ↔
   truthy (Task.start_date task) = false ∨
   truthy (Task.end_date task) = false ∨
   ¬ starts_in_range P dateRange task)
  ∧
  (∀ pos ts te,
     getTaskPosition P dateRange task = Some pos →
     Task.start_date task ≫= Date_getTime P = Some ts →
     Task.end_date task ≫= Date_getTime P = Some te →
     ∃ n w, (n - 1) * 86400000 < te - ts ≤ n * 86400000 ∧
            width pos = Some w ∧ w = Z.max (30 * (n + 1)) 25 ∧ 25 ≤ w)
  ∧
  (∀ pos,
     getTaskPosition P dateRange task = Some pos →
     Task.start_date task ≫= Date_getTime P = None ∨
     Task.end_date task ≫= Date_getTime P = None →
     width pos = None).
Proof.
  unfold getTaskPosition, starts_in_range.
  set (key := Date_toDateString P (Task.start_date task ≫= Date_getTime P)).
  destruct (truthy (Task.start_date task)) eqn:Hs; cbn [negb orb];
    [|split; [split; auto|done]].
  destruct (truthy (Task.end_date task)) eqn:He; cbn [negb orb];
    [|split; [split; auto|done]].
  destruct (findIndex _ dateRange) as [i|] eqn:Hi.
  - split; [|split].
    + split; [done|]. intros [?|[?|Hno]]; [done..|].
      exfalso. apply Hno.
      apply findIndex_Some in Hi as (date & Hin & Hd).
      exists date. split; [done|]. by apply bool_decide_eq_true in Hd.
    + intros pos ts te [= <-] Hts Hte. rewrite Hts, Hte. cbn.
      pose proof (ceil_div_spec (te - ts) day_ms ltac:(done)) as Hceil.
      change day_ms with 86400000 in Hceil.
      exists (ceil_div (te - ts) day_ms). eexists.
      split; [exact Hceil|]. split; [done|]. split; lia.
    + intros pos [= <-] [Hno|Hno]; rewrite Hno; cbn; [done|].
      by destruct (Task.start_date task ≫= Date_getTime P).
  - split; [|done]. split; [|done]. intros _. right. right.
    intros (date & Hin & Hd).
    rewrite findIndex_None in Hi. specialize (Hi date Hin).
    by apply bool_decide_eq_false in Hi.
Qed.

Lemma getTaskPosition_spec_witness :
  getTaskPosition Sample.online_by_the_minute Sample.september
    (Sample.task 1 None (Some (js "2025-09-01T09:00"))
                 (Some (js "2025-09-03T17:30")) [])
  = Some (mkPosition 210 (Some 120)) ∧
  Task.start_date
    (Sample.task 1 None (Some (js "2025-09-01T09:00"))
                 (Some (js "2025-09-03T17:30")) [])
    ≫= Date_getTime Sample.online_by_the_minute = Some 1756717200000 ∧
  Task.end_date
    (Sample.task 1 None (Some (js "2025-09-01T09:00"))
                 (Some (js "2025-09-03T17:30")) [])
    ≫= Date_getTime Sample.online_by_the_minute = Some 1756920600000 ∧
  ∃ n w, (n - 1) * 86400000 < 1756920600000 - 1756717200000 ≤ n * 86400000 ∧
         width (mkPosition 210 (Some 120)) = Some w ∧
         w = Z.max (30 * (n + 1)) 25 ∧ 25 ≤ w.
Proof.
  assert (getTaskPosition Sample.online_by_the_minute Sample.september
            (Sample.task 1 None (Some (js "2025-09-01T09:00"))
                         (Some (js "2025-09-03T17:30")) [])
          = Some (mkPosition 210 (Some 120))) as H1 by (by vm_compute).
  assert (Task.start_date
            (Sample.task 1 None (Some (js "2025-09-01T09:00"))
                         (Some (js "2025-09-03T17:30")) [])
            ≫= Date_getTime Sample.online_by_the_minute
          = Some 1756717200000) as H2 by (by vm_compute).
  assert (Task.end_date
            (Sample.task 1 None (Some (js "2025-09-01T09:00"))
                         (Some (js "2025-09-03T17:30")) [])
            ≫= Date_getTime Sample.online_by_the_minute
          = Some 1756920600000) as H3 by (by vm_compute).
  repeat (split; [assumption|]).
  exact (proj1 (proj2 (getTaskPosition_spec Sample.online_by_the_minute
                         Sample.september _))
               _ _ _ H1 H2 H3).
Defined.

(** A task whose end date is not a date still gets a bar when its start day
    is rendered, and the width of that bar is not a number: it is neither 30
    times a day span nor at least 25. *)
Lemma getTaskPosition_width_not_a_number :
  truthy (Task.start_date
            (Sample.task 1 None (Some (js "2025-09-01")) (Some (js "soon"))
                         [])) = true
  ∧ truthy (Task.end_date
              (Sample.task 1 None (Some (js "2025-09-01")) (Some (js "soon"))
                           [])) = true
  ∧ starts_in_range Sample.online Sample.september
      (Sample.task 1 None (Some (js "2025-09-01")) (Some (js "soon")) [])
  ∧ getTaskPosition Sample.online Sample.september
      (Sample.task 1 None (Some (js "2025-09-01")) (Some (js "soon")) [])
    = Some (mkPosition 210 None)
  ∧ ¬ (∃ pos w,
         getTaskPosition Sample.online Sample.september
           (Sample.task 1 None (Some (js "2025-09-01")) (Some (js "soon"))
                        [])
         = Some pos ∧ width pos = Some w ∧ 25 ≤ w).
Proof.
  assert (getTaskPosition Sample.online Sample.september
            (Sample.task 1 None (Some (js "2025-09-01")) (Some (js "soon"))
                         [])
          = Some (mkPosition 210 None)) as Hpos by (by vm_compute).
  split; [done|]. split; [done|]. split; [|split; [exact Hpos|]].
  - exists (20332 * 86400000). split; [|by vm_compute].
    unfold Sample.september. apply list_elem_of_fmap. exists 7.
    split; [reflexivity|]. apply elem_of_seqZ. lia.
  - intros (pos & w & Hp & Hw & _). rewrite Hpos in Hp.
    injection Hp as <-. done.
Qed.

End WBSViewFacts.

(** ** Members and capacity *)

Module WorkloadFacts.
Import JS Eff ProjectDetail.

Lemma find_workload (employees : list Employee.t)
    (allMembers : list ProjectMember.t) (id : Z) (e : Employee.t) :
  e ∈ employees → Employee.employee_id e = id →
  ∃ e', List.find
          (λ w, bool_decide (Employee.employee_id (Workload.employee w) = id))
          (Workload.employeesWithWorkload employees allMembers)
        = Some (Workload.mk e'
                  (Workload.total (Workload.allocations allMembers id))
                  (Workload.remainingCapacity
                     (Workload.total (Workload.allocations allMembers id)))).
Proof.
  intros Hin Hid. unfold Workload.employeesWithWorkload.
  induction employees as [|u l IH]; [by apply elem_of_nil in Hin|].
  csimpl. case_bool_decide as Hu.
  - exists u. by rewrite Hu.
  - apply elem_of_cons in Hin as [->|Hin]; [done|]. by apply IH.
Qed.

Lemma exceeds_lt (a r : Q) : Workload.exceeds a r = true ↔ (r < a)%Q.
Proof.
  unfold Workload.exceeds. rewrite negb_true_iff.
  rewrite <- not_true_iff_false, Qle_bool_iff. split.
  - apply Qnot_le_lt.
  - apply Qlt_not_le.
Qed.

(** The check of the add-member form.  When the employee selected in the
    form is one of the employees and the ratio asked for exceeds what the
    code computes as the remaining capacity of that employee,
    [handleAddMember] only shows the alert; so a request that it issues for
    such an employee carries a ratio within that capacity. *)
Lemma handleAddMember_checks_capacity (P : Platform) (D : Data)
    (s : Screen) (e : Employee.t) :
  e ∈ employees D →
  Employee.employee_id e = Number P (NewMember.employee_id (newMember s)) →
  ((Workload.remainingCapacity
      (Workload.total
         (Workload.allocations (allMembers D) (Employee.employee_id e)))
    < NewMember.allocation_ratio (newMember s))%Q →
   ∃ name,
     handleAddMember P D s
     = alert (AlertOverCapacity name
                (Workload.remainingCapacity
                   (Workload.total
                      (Workload.allocations (allMembers D)
                         (Employee.employee_id e))))) s)
  ∧
  (requests (exec (handleAddMember P D) s) ≠ requests s →
   (NewMember.allocation_ratio (newMember s)
    <= Workload.remainingCapacity
         (Workload.total
            (Workload.allocations (allMembers D)
               (Employee.employee_id e))))%Q).
Proof.
  intros Hin Hid.
  set (left := Workload.remainingCapacity _).
  set (ratio := NewMember.allocation_ratio _).
  assert ((left < ratio)%Q →
          ∃ name, handleAddMember P D s
                  = alert (AlertOverCapacity name left) s) as Hrej.
  { intros Hover.
    destruct (find_workload (employees D) (allMembers D) _ e Hin Hid)
      as [e' Hf].
    unfold handleAddMember. rewrite Hf. cbn [Workload.remaining_capacity].
    rewrite <- Hid. fold left. fold ratio.
    apply exceeds_lt in Hover. rewrite Hover.
    by eexists. }
  split; [exact Hrej|].
  intros Hreq.
  destruct (Qlt_le_dec left ratio) as [Hover|Hle]; [|done].
  destruct (Hrej Hover) as [name Heq].
  exfalso. apply Hreq. unfold exec. by rewrite Heq.
Qed.

(** When the total of that employee is between 0 and 1.0, a request that
    [handleAddMember] issues keeps it there: the sum of the total and of the
    ratio, rounded as the code rounds sums, is at most 1.0. *)
Lemma handleAddMember_keeps_total_within_one (P : Platform) (D : Data)
    (s : Screen) (e : Employee.t) :
  e ∈ employees D →
  Employee.employee_id e = Number P (NewMember.employee_id (newMember s)) →
  (0 <= Workload.total
          (Workload.allocations (allMembers D) (Employee.employee_id e)))%Q →
  (Workload.total
     (Workload.allocations (allMembers D) (Employee.employee_id e)) <= 1)%Q →
  requests (exec (handleAddMember P D) s) ≠ requests s →
  (JSNumber.add
     (Workload.total
        (Workload.allocations (allMembers D) (Employee.employee_id e)))
     (NewMember.allocation_ratio (newMember s)) <= 1)%Q.
Proof.
  intros Hin Hid H0 H1 Hreq.
  apply JSNumberFacts.add_within_remaining; [done..|].
  by apply (handleAddMember_checks_capacity P D s e Hin Hid).
Qed.

(** An employee held at 0.7 can be asked for 0.3: the capacity left is
    1.0 - 0.7 = 0.30000000000000004, and the sum 0.7 + 0.3 is 1.0. *)
Example three_tenths_after_seven_tenths :
  Workload.employeesWithWorkload [Sample.alice] (Sample.holding (7 # 10))
  = [Workload.mk Sample.alice
       (3152519739159347 # 4503599627370496)
       (1351079888211149 # 4503599627370496)]
  ∧ NewMember.allocation_ratio (newMember Sample.asking_30)
    = 5404319552844595 # 18014398509481984
  ∧ requests (exec (handleAddMember Sample.online
                      (Sample.staffed_at (7 # 10))) Sample.asking_30)
    ≠ []
  ∧ JSNumber.add (JSNumber.of_decimal (7 # 10))
                 (JSNumber.of_decimal (3 # 10))
    = 1%Q.
Proof. repeat split; by vm_compute. Qed.

End WorkloadFacts.

(** ** Project creation and edit *)

Module ProjectFormFacts.
Import JS Eff ProjectForm.

Lemma truthy_Some (o : option jsstring) :
  truthy o = true → ∃ v, o = Some v ∧ v ≠ [].
Proof. destruct o as [[|c v]|]; [done| |done]. intros _. by eexists. Qed.

Lemma validate_project_passes (P : Platform) (form : PartialProject.t) :
  valid_date P (PartialProject.start_date form) →
  valid_date P (PartialProject.end_date form) →
  validate_project P form = None → ordered_window P form.
Proof.
  intros Hvs Hve. unfold validate_project.
  destruct (blank _); [done|].
  destruct (truthy (PartialProject.start_date form)) eqn:Hs; [|done].
  destruct (truthy (PartialProject.end_date form)) eqn:He; [|done].
  apply truthy_Some in Hs as (sd & Hsd & Hsn).
  apply truthy_Some in He as (ed & Hed & Hen).
  rewrite Hsd, Hed. cbn [negb].
  destruct (Hvs sd Hsd Hsn) as [ts Hts], (Hve ed Hed Hen) as [te Hte].
  unfold Date_ge. rewrite Hts, Hte.
  case_bool_decide; [done|]. intros _.
  exists sd, ed, ts, te. repeat split; try done. lia.
Qed.

Lemma handleEditProject_rejected (P : Platform) (D : ProjectDetail.Data)
    (form : PartialProject.t) (a : Alert) (s : Screen) :
  validate_project P form = Some a →
  ProjectDetail.handleEditProject P D form s = alert a s.
Proof. intros Hv. unfold ProjectDetail.handleEditProject. by rewrite Hv. Qed.

Lemma handleCreateProject_rejected (P : Platform)
    (employees : list Employee.t) (allMembers : list ProjectMember.t)
    (form : PartialProject.t) (selectedMembers : list Z)
    (memberAllocations : gmap Z ProjectList.MemberAllocation)
    (a : Alert) (s : Screen) :
  validate_project P form = Some a →
  ProjectList.handleCreateProject P employees allMembers form selectedMembers
    memberAllocations s = alert a s.
Proof. intros Hv. unfold ProjectList.handleCreateProject. by rewrite Hv. Qed.

(** C9, as amended.  When the two dates of the form are valid dates, as a
    date input gives them, a project edit or creation that issues any
    request has both dates given and its start date strictly earlier than
    its end date: every other such form is rejected before the first
    request. *)
Theorem project_requests_need_ordered_window (P : Platform)
    (D : ProjectDetail.Data) (employees : list Employee.t)
    (allMembers : list ProjectMember.t) (form : PartialProject.t)
    (selectedMembers : list Z)
    (memberAllocations : gmap Z ProjectList.MemberAllocation) (s : Screen) :
  valid_date P (PartialProject.start_date form) →
  valid_date P (PartialProject.end_date form) →
  (requests (exec (ProjectDetail.handleEditProject P D form) s) ≠ requests s
   → ordered_window P form)
  ∧
  (requests (exec (ProjectList.handleCreateProject P employees allMembers
                     form selectedMembers memberAllocations) s) ≠ requests s
   → ordered_window P form).
Proof.
  intros Hvs Hve.
  destruct (validate_project P form) as [a|] eqn:Hv.
  - split; intros Hreq; exfalso; apply Hreq; unfold exec.
    + by rewrite (handleEditProject_rejected _ _ _ a).
    + by rewrite (handleCreateProject_rejected _ _ _ _ _ _ a).
  - split; intros _; by apply validate_project_passes.
Qed.

Lemma project_requests_need_ordered_window_witness :
  valid_date Sample.online
    (PartialProject.start_date
       (Sample.form (Some (js "2025-09-01")) (Some (js "2025-09-30")))) ∧
  valid_date Sample.online
    (PartialProject.end_date
       (Sample.form (Some (js "2025-09-01")) (Some (js "2025-09-30")))) ∧
  requests
    (exec (ProjectDetail.handleEditProject Sample.online Sample.staffed
             (Sample.form (Some (js "2025-09-01")) (Some (js "2025-09-30"))))
          Sample.screen0) ≠ requests Sample.screen0 ∧
  ordered_window Sample.online
    (Sample.form (Some (js "2025-09-01")) (Some (js "2025-09-30"))).
Proof.
  assert (valid_date Sample.online
            (PartialProject.start_date
               (Sample.form (Some (js "2025-09-01"))
                            (Some (js "2025-09-30"))))) as H1.
  { intros v [= <-] _. by eexists. }
  assert (valid_date Sample.online
            (PartialProject.end_date
               (Sample.form (Some (js "2025-09-01"))
                            (Some (js "2025-09-30"))))) as H2.
  { intros v [= <-] _. by eexists. }
  assert (requests
            (exec (ProjectDetail.handleEditProject Sample.online
                     Sample.staffed
                     (Sample.form (Some (js "2025-09-01"))
                                  (Some (js "2025-09-30"))))
                  Sample.screen0) ≠ requests Sample.screen0) as H3.
  { by vm_compute. }
  repeat (split; [assumption|]).
  exact (proj1 (project_requests_need_ordered_window Sample.online
                  Sample.staffed [] [] _ [] ∅ Sample.screen0 H1 H2) H3).
Defined.

(** The comparison of two [Date]s is false when either is invalid, so a
    form whose start date is not a date passes the checks: the edit and the
    creation are requested although the form has no start date that is
    earlier than its end date. *)
Lemma project_request_without_ordered_window :
  requests
    (exec (ProjectDetail.handleEditProject Sample.online Sample.staffed
             (Sample.form (Some (js "yesterday")) (Some (js "2025-09-30"))))
          Sample.screen0)
  = [(fetch_loadProjectData 1, true);
     (projectAPI_update 1
        (Sample.form (Some (js "yesterday")) (Some (js "2025-09-30"))),
      true)]
  ∧ requests
      (exec (ProjectList.handleCreateProject Sample.online [] []
               (Sample.form (Some (js "yesterday"))
                            (Some (js "2025-09-30"))) [] ∅)
            Sample.screen0)
    = [(fetch_loadData, true);
       (projectAPI_create
          (Sample.form (Some (js "yesterday")) (Some (js "2025-09-30"))),
        true)]
  ∧ ¬ ordered_window Sample.online
        (Sample.form (Some (js "yesterday")) (Some (js "2025-09-30"))).
Proof.
  split; [by vm_compute|]. split; [by vm_compute|].
  intros (sd & ed & ts & te & Hsd & _ & _ & _ & Hts & _).
  injection Hsd as <-. by vm_compute in Hts.
Qed.

(** *** The capacity check of project creation *)

Lemma check_members_requests (employees : list Employee.t)
    (workloads : list Workload.t)
    (memberAllocations : gmap Z ProjectList.MemberAllocation)
    (selectedMembers : list Z) (s : Screen) :
  requests (ProjectList.check_members employees workloads memberAllocations
              selectedMembers s).1 = requests s.
Proof.
  induction selectedMembers as [|x l IH]; simpl; [done|].
  destruct (List.find _ workloads) as [w|]; [|done].
  destruct (memberAllocations !! x) as [a|]; [|done].
  by destruct (Workload.exceeds _ _).
Qed.

Lemma check_members_over (employees : list Employee.t)
    (workloads : list Workload.t)
    (memberAllocations : gmap Z ProjectList.MemberAllocation)
    (selectedMembers : list Z) (s : Screen) (x : Z) (w : Workload.t)
    (a : ProjectList.MemberAllocation) :
  x ∈ selectedMembers →
  List.find (λ w, bool_decide
                    (Employee.employee_id (Workload.employee w) = x))
            workloads = Some w →
  memberAllocations !! x = Some a →
  Workload.exceeds (ProjectList.allocation_ratio a)
                   (Workload.remaining_capacity w) = true →
  (ProjectList.check_members employees workloads memberAllocations
     selectedMembers s).2 ≠ Ok true.
Proof.
  intros Hin Hw Ha Hover.
  induction selectedMembers as [|y l IH]; [by apply elem_of_nil in Hin|].
  simpl. destruct (decide (y = x)) as [->|Hne].
  - by rewrite Hw, Ha, Hover.
  - apply elem_of_cons in Hin as [->|Hin]; [done|].
    destruct (List.find
                (λ w, bool_decide
                        (Employee.employee_id (Workload.employee w) = y))
                workloads) as [w'|]; [|by apply IH].
    destruct (memberAllocations !! y) as [a'|]; [|done].
    destruct (Workload.exceeds (ProjectList.allocation_ratio a') _);
      [done|by apply IH].
Qed.

(** X26.  A project whose form selects a member beyond the capacity of that
    member is not created: no request is issued. *)
Lemma handleCreateProject_rejects_over_capacity (P : Platform)
    (employees : list Employee.t) (allMembers : list ProjectMember.t)
    (form : PartialProject.t) (selectedMembers : list Z)
    (memberAllocations : gmap Z ProjectList.MemberAllocation) (s : Screen)
    (x : Z) (w : Workload.t) (a : ProjectList.MemberAllocation) :
  x ∈ selectedMembers →
  List.find (λ w, bool_decide
                    (Employee.employee_id (Workload.employee w) = x))
            (Workload.employeesWithWorkload employees allMembers) = Some w →
  memberAllocations !! x = Some a →
  Workload.exceeds (ProjectList.allocation_ratio a)
                   (Workload.remaining_capacity w) = true →
  requests (exec (ProjectList.handleCreateProject P employees allMembers form
                    selectedMembers memberAllocations) s) = requests s.
Proof.
  intros Hin Hw Ha Hover. unfold exec, ProjectList.handleCreateProject.
  destruct (validate_project P form); [done|].
  pose proof (check_members_requests employees
                (Workload.employeesWithWorkload employees allMembers)
                memberAllocations selectedMembers s) as Hreq.
  pose proof (check_members_over employees _ memberAllocations
                selectedMembers s x w a Hin Hw Ha Hover) as Hno.
  unfold try_catch, mbind, M_bind, bind.
  destruct (ProjectList.check_members _ _ _ _ s) as [s' [[]|]];
    simpl in *; done.
Qed.

(** The ratio that creation sends is not always the ratio it checked: a
    ratio of zero passes the check and is sent as 0.1, also for an employee
    with nothing left. *)
Example create_project_sends_a_tenth_for_zero :
  requests
    (exec (ProjectList.handleCreateProject Sample.online [Sample.alice]
             [ProjectMember.mk 2 1 None None (Some 1%Q) None None]
             (Sample.form (Some (js "2025-09-01")) (Some (js "2025-09-30")))
             [1] {[1 := ProjectList.mkMemberAllocation 1 (js "dev") 0]})
          Sample.screen0)
  = [(fetch_loadData, true);
     (projectMemberAPI_addMember
        (ProjectMember.mk 1 1 None (Some (js "dev"))
                          (Some (JSNumber.of_decimal (1 # 10)))
                          (Some (js "2025-09-01")) None), true);
     (projectAPI_create
        (Sample.form (Some (js "2025-09-01")) (Some (js "2025-09-30"))),
      true)].
Proof. by vm_compute. Qed.

End ProjectFormFacts.

(** ** What project creation checks and what it sends *)

Module CapacityFacts.
Import JS Eff.

(** C8.  Project creation adds an employee beyond the capacity that is
    left.  Alice holds 1.0 in project 2, so nothing remains of her.  In the
    creation dialog she is selected and her ratio field is emptied, which
    keeps a ratio of 0 for her; 0 passes the capacity check, and the request
    that adds her carries 0.1, more than remains, so that her total passes
    1.0.  The add-member form refuses 0.1 for her, and so does creation when
    0.1 is the ratio kept. *)
Theorem handleCreateProject_adds_beyond_capacity :
  Workload.employeesWithWorkload [Sample.alice] (Sample.holding 1)
  = [Workload.mk Sample.alice 1 0]
  ∧ MemberDialog.reachable
      (Workload.employeesWithWorkload [Sample.alice] (Sample.holding 1))
      (MemberDialog.mkState [1]
         {[1 := ProjectList.mkMemberAllocation 1 [] 0]})
  ∧ requests
      (exec (ProjectList.handleCreateProject Sample.online [Sample.alice]
               (Sample.holding 1)
               (Sample.form (Some (js "2025-09-01"))
                            (Some (js "2025-09-30")))
               [1] {[1 := ProjectList.mkMemberAllocation 1 [] 0]})
            Sample.screen0)
    = [(fetch_loadData, true);
       (projectMemberAPI_addMember
          (ProjectMember.mk 1 1 None (Some [])
             (Some (JSNumber.of_decimal (1 # 10)))
             (Some (js "2025-09-01")) None), true);
       (projectAPI_create
          (Sample.form (Some (js "2025-09-01")) (Some (js "2025-09-30"))),
        true)]
  ∧ Workload.exceeds (JSNumber.of_decimal (1 # 10)) 0 = true
  ∧ (1 < Workload.total [1%Q; JSNumber.of_decimal (1 # 10)])%Q
  ∧ requests (exec (ProjectDetail.handleAddMember Sample.online Sample.booked)
                   Sample.asking_10) = []
  ∧ requests
      (exec (ProjectList.handleCreateProject Sample.online [Sample.alice]
               (Sample.holding 1)
               (Sample.form (Some (js "2025-09-01"))
                            (Some (js "2025-09-30")))
               [1]
               {[1 := ProjectList.mkMemberAllocation 1 []
                        (JSNumber.of_decimal (1 # 10))]})
            Sample.screen0) = [].
Proof.
  split; [by vm_compute|]. split.
  { eapply (MemberDialog.reachable_step _ _ (MemberDialog.ChangeRatio 1 0)).
    - eapply (MemberDialog.reachable_step _ _ (MemberDialog.Toggle 1)).
      + apply MemberDialog.reachable_initial.
      + reflexivity.
    - by vm_compute. }
  repeat split; by vm_compute.
Qed.

End CapacityFacts.

(** ** The needs-recalculation flag *)

Module DirtyFlagFacts.
Import JS Eff ProjectDetail.

Lemma issued_spec (s s' : Screen) (l : list (ApiCall * bool)) :
  requests s' = l ++ requests s → issued s s' = l.
Proof.
  intros H. unfold issued. rewrite H, length_app.
  replace (length l + length (requests s) - length (requests s))%nat
    with (length l) by lia.
  by rewrite take_app_length.
Qed.

#[local] Opaque PERTChart.hasCycle PERTChart.existingDependency JS.truthy
  JS.trim Category.compose_description Workload.employeesWithWorkload
  Workload.exceeds ProjectForm.validate_project TaskForm.validate_task
  ProjectDetail.issued.

Ltac run :=
  unfold exec, perform,
    WBSView.handleStatusUpdate, WBSView.handleCreateTask,
    WBSView.handleSaveTask, PERTChart.onConnect, PERTChart.onEdgeClick,
    PERTChart.onNodeDragStop, PERTChart.handleCreateTask,
    PERTChart.handleSave, handleEditProject, handleAddMember,
    handleRemoveMember, handleSaveEdit, onUpdateMember,
    handleCalculateSchedule, handleCreateTask, onCreateDependency,
    handleScheduleChange, handleUpdateTask, loadProjectData,
    try_catch, try_finally, request, alert, throw, getRequests,
    setScheduleNeedsRecalculation, setIsCalculatingSchedule,
    setShowEditForm, setShowAddMemberForm, setNewMember,
    mbind, M_bind, bind, mret, M_ret, ret in *;
  cbn in *;
  repeat (case_match; cbn in *; simplify_eq/=).

Ltac issued_list :=
  first
    [ erewrite (issued_spec _ _ []) in * by reflexivity
    | erewrite (issued_spec _ _ [_]) in * by reflexivity
    | erewrite (issued_spec _ _ [_; _]) in * by reflexivity
    | erewrite (issued_spec _ _ [_; _; _]) in * by reflexivity
    | erewrite (issued_spec _ _ [_; _; _; _]) in * by reflexivity ].

Lemma flag_unchanged_by_members_and_drag (P : Platform) (D : Data)
    (a : Action) (s : Screen) :
  (a = AddMember ∨ (∃ e c, a = RemoveMember e c) ∨
   ∃ n x y, a = PERT_NodeDragStop n x y) →
  scheduleNeedsRecalculation (exec (perform P D a) s)
  = scheduleNeedsRecalculation s.
Proof.
  intros [->|[(e & c & ->)|(n & x & y & ->)]]; by run.
Qed.

Lemma flag_set_by_relevant_mutation (P : Platform) (D : Data) (a : Action)
    (s : Screen) (c : ApiCall) :
  (c, true) ∈ issued s (exec (perform P D a) s) →
  schedule_relevant c = true →
  scheduleNeedsRecalculation (exec (perform P D a) s) = true.
Proof.
  intros Hin Hrel. destruct a; run; try done; issued_list;
    repeat (apply elem_of_cons in Hin as [Hin|Hin]; simplify_eq/=);
    try done; try (by apply elem_of_nil in Hin).
Qed.

Lemma flag_cleared_only_by_recalculation (P : Platform) (D : Data)
    (a : Action) (s : Screen) :
  scheduleNeedsRecalculation s = true →
  scheduleNeedsRecalculation (exec (perform P D a) s) = false →
  a = CalculateSchedule ∧
  (scheduleAPI_calculateSchedule (projectId D), true)
  ∈ issued s (exec (perform P D a) s).
Proof.
  intros Hs Hs'. destruct a; run; try congruence.
  all: split; [done|]; issued_list; set_solver.
Qed.

Lemma recalculation_outcome (P : Platform) (D : Data) (s : Screen) :
  ((scheduleAPI_calculateSchedule (projectId D), true)
   ∈ issued s (exec (perform P D CalculateSchedule) s) →
   scheduleNeedsRecalculation (exec (perform P D CalculateSchedule) s)
   = false)
  ∧
  ((scheduleAPI_calculateSchedule (projectId D), false)
   ∈ issued s (exec (perform P D CalculateSchedule) s) →
   scheduleNeedsRecalculation (exec (perform P D CalculateSchedule) s)
   = scheduleNeedsRecalculation s).
Proof.
  split; intros Hin; run; try done; issued_list;
    repeat (apply elem_of_cons in Hin as [Hin|Hin]; simplify_eq/=);
    by apply elem_of_nil in Hin.
Qed.

(** C2, as amended.  A fulfilled request that creates a task, updates the
    status or the details of a task, creates or deletes a dependency, or
    updates a member with an allocation ratio leaves the flag set.  Adding
    or removing a member and saving the position of a node leave the flag as
    it was.  The flag goes from set to unset only by a recalculation whose
    request was fulfilled; a fulfilled recalculation unsets it and a
    rejected one leaves it as it was. *)
Theorem dirty_flag_protocol (P : Platform) (D : Data) (a : Action)
    (s : Screen) :
  (∀ c, (c, true) ∈ issued s (exec (perform P D a) s) →
        schedule_relevant c = true →
        scheduleNeedsRecalculation (exec (perform P D a) s) = true)
  ∧
  ((a = AddMember ∨ (∃ e c, a = RemoveMember e c) ∨
    ∃ n x y, a = PERT_NodeDragStop n x y) →
   scheduleNeedsRecalculation (exec (perform P D a) s)
   = scheduleNeedsRecalculation s)
  ∧
  (scheduleNeedsRecalculation s = true →
   scheduleNeedsRecalculation (exec (perform P D a) s) = false →
   a = CalculateSchedule ∧
   (scheduleAPI_calculateSchedule (projectId D), true)
   ∈ issued s (exec (perform P D a) s))
  ∧
  (a = CalculateSchedule →
   ((scheduleAPI_calculateSchedule (projectId D), true)
    ∈ issued s (exec (perform P D a) s) →
    scheduleNeedsRecalculation (exec (perform P D a) s) = false)
   ∧
   ((scheduleAPI_calculateSchedule (projectId D), false)
    ∈ issued s (exec (perform P D a) s) →
    scheduleNeedsRecalculation (exec (perform P D a) s)
    = scheduleNeedsRecalculation s)).
Proof.
  split; [|split; [|split]].
  - intros c. apply flag_set_by_relevant_mutation.
  - apply flag_unchanged_by_members_and_drag.
  - apply flag_cleared_only_by_recalculation.
  - intros ->. apply recalculation_outcome.
Qed.

Lemma dirty_flag_protocol_witness :
  (taskAPI_update 7 (UpdateStatus (js "COMPLETED")), true)
  ∈ issued Sample.screen0
      (exec (perform Sample.online (Sample.data Sample.chain)
               (WBS_StatusUpdate 7 (js "COMPLETED"))) Sample.screen0) ∧
  schedule_relevant (taskAPI_update 7 (UpdateStatus (js "COMPLETED"))) = true ∧
  scheduleNeedsRecalculation
    (exec (perform Sample.online (Sample.data Sample.chain)
             (WBS_StatusUpdate 7 (js "COMPLETED"))) Sample.screen0) = true.
Proof.
  assert ((taskAPI_update 7 (UpdateStatus (js "COMPLETED")), true)
          ∈ issued Sample.screen0
              (exec (perform Sample.online (Sample.data Sample.chain)
                       (WBS_StatusUpdate 7 (js "COMPLETED"))) Sample.screen0))
    as H1.
  { vm_compute. apply elem_of_cons. right. apply elem_of_cons. by left. }
  assert (schedule_relevant (taskAPI_update 7 (UpdateStatus (js "COMPLETED")))
          = true) as H2 by reflexivity.
  repeat (split; [assumption|]).
  exact (proj1 (dirty_flag_protocol Sample.online (Sample.data Sample.chain)
                  (WBS_StatusUpdate 7 (js "COMPLETED")) Sample.screen0)
               _ H1 H2).
Defined.

(** Not every mutation sets the flag, as the specification states: on a
    screen whose flag is unset, removing a member is a fulfilled membership
    mutation that leaves the flag unset. *)
Lemma dirty_flag_not_set_by_every_mutation :
  ¬ (∀ (P : Platform) (D : Data) (a : Action) (s : Screen) (c : ApiCall),
       (c, true) ∈ issued s (exec (perform P D a) s) →
       mutation c = true →
       scheduleNeedsRecalculation (exec (perform P D a) s) = true).
Proof.
  intros Hall.
  specialize (Hall Sample.online Sample.staffed (RemoveMember 1 true)
                   Sample.screen0 (projectMemberAPI_removeMember 1 1)).
  assert (false = true) as Hf; [|done].
  apply Hall; [|done].
  vm_compute. apply elem_of_cons. right. apply elem_of_cons. by left.
Qed.

(** What the three handlers leave behind on that screen: the member of
    project 2 is removed, half of an employee who holds the other half is
    added, a node is dragged, and the flag stays unset. *)
Example members_and_drag_leave_flag_unset :
  requests
    (exec (perform Sample.online Sample.half_staffed AddMember)
          Sample.asking_25)
  = [(fetch_loadProjectData 1, true);
     (projectMemberAPI_addMember
        (ProjectMember.mk 1 1 None (Some (js "dev")) (Some (1 # 4))
                          (Some (js "2025-09-01")) None), true)]
  ∧ scheduleNeedsRecalculation
      (exec (perform Sample.online Sample.half_staffed AddMember)
            Sample.asking_25) = false
  ∧ requests
      (exec (perform Sample.online Sample.staffed (RemoveMember 1 true))
            Sample.screen0)
    = [(fetch_loadProjectData 1, true);
       (projectMemberAPI_removeMember 1 1, true)]
  ∧ scheduleNeedsRecalculation
      (exec (perform Sample.online Sample.staffed (RemoveMember 1 true))
            Sample.screen0) = false
  ∧ requests
      (exec (perform Sample.online Sample.staffed
               (PERT_NodeDragStop (js "3") 120 80)) Sample.screen0)
    = [(taskAPI_update 3 (UpdatePosition 120 80), true)]
  ∧ scheduleNeedsRecalculation
      (exec (perform Sample.online Sample.staffed
               (PERT_NodeDragStop (js "3") 120 80)) Sample.screen0) = false.
Proof. repeat split; by vm_compute. Qed.

End DirtyFlagFacts.

(** ** The schedule calculation engine, as specified *)

Module EngineFacts.
Import Engine.

Lemma next_working_day_gt (d : Z) : d < next_working_day d.
Proof. unfold next_working_day. repeat case_bool_decide; lia. Qed.

Lemma weekday_add (d j : Z) : weekday (d + j) = (weekday d + j) `mod` 7.
Proof.
  unfold weekday. rewrite Z.add_mod_idemp_l by lia. f_equal. lia.
Qed.

Lemma weekday_range (d : Z) : 0 ≤ weekday d < 7.
Proof. unfold weekday. apply Z.mod_pos_bound. lia. Qed.

(** The step of the calendar lands on the first working day after [d]. *)
Lemma next_working_day_least (d : Z) :
  is_working_day (next_working_day d) = true ∧
  ∀ d', d < d' < next_working_day d → is_working_day d' = false.
Proof.
  pose proof (weekday_range d) as Hr.
  assert (∀ j, is_working_day (d + j)
               = negb (bool_decide ((weekday d + j) `mod` 7 = 0))
                 && negb (bool_decide ((weekday d + j) `mod` 7 = 6))) as Hw.
  { intros j. unfold is_working_day. by rewrite weekday_add. }
  assert (∀ d', ∃ j, d' = d + j ∧ j = d' - d) as Hj.
  { intros d'. exists (d' - d). lia. }
  unfold next_working_day.
  assert (weekday d = 0 ∨ weekday d = 1 ∨ weekday d = 2 ∨ weekday d = 3 ∨
          weekday d = 4 ∨ weekday d = 5 ∨ weekday d = 6) as Hk by lia.
  destruct Hk as [Hk|[Hk|[Hk|[Hk|[Hk|[Hk|Hk]]]]]]; rewrite Hk in *;
    cbn [bool_decide decide_rel]; simpl.
  all: split; [by rewrite Hw|].
  all: intros d' Hd; destruct (Hj d') as (j & -> & Hjd); rewrite Hw.
  all: assert (j = 1 ∨ j = 2 ∨ j ≤ 0 ∨ 3 ≤ j) as [->|[->|?]] by lia;
    try done; lia.
Qed.

Lemma foldr_max_ge (b : Z) (bs : list Z) (x : Z) :
  x ∈ b :: bs → x ≤ foldr Z.max b bs.
Proof.
  induction bs as [|c bs IH]; simpl.
  - intros ->%list_elem_of_singleton. lia.
  - intros [->|[->|Hx]%elem_of_cons]%elem_of_cons.
    + specialize (IH ltac:(by left)). lia.
    + lia.
    + specialize (IH ltac:(by right)). lia.
Qed.

Lemma nodes_id (S : Snapshot) (x : Z) (t : Task) :
  nodes S !! x = Some t → id t = x.
Proof.
  unfold nodes. intros H. apply elem_of_list_to_map_2 in H.
  apply list_elem_of_fmap in H as (t' & [= -> ->] & _). done.
Qed.

(** *** The topological order is a linearization *)

Lemma ready_spec (S : Snapshot) (placed : list Z) (x : Z) (e : Dependency) :
  ready S placed x = true → e ∈ dependencies S → successor e = x →
  predecessor e ∈ placed.
Proof.
  unfold ready. rewrite forallb_forall. intros Hall Hin Hx.
  apply list_elem_of_In, Hall in Hin. rewrite bool_decide_eq_true_2 in Hin by done.
  by apply bool_decide_eq_true in Hin.
Qed.

Lemma pick_ready_Some (S : Snapshot) (placed : list Z) (remaining : gset Z)
    (x : Z) :
  pick_ready S placed remaining = Some x →
  x ∈ remaining ∧ ready S placed x = true.
Proof.
  unfold pick_ready. rewrite <- elem_of_elements.
  generalize (elements remaining). intros l. revert x.
  induction l as [|a l IH]; intros x; simpl; [done|].
  destruct (ready S placed a) eqn:Ha.
  - destruct (foldr _ None l) as [y|]; intros [= <-].
    + destruct (Z.min_spec a y) as [[_ ->]|[_ ->]].
      * split; [by left|done].
      * destruct (IH y eq_refl) as [Hy Hr]. split; [by right|done].
    + split; [by left|done].
  - intros H. destruct (IH x H) as [Hx Hr]. split; [by right|done].
Qed.

Lemma linearized_snoc (S : Snapshot) (placed : list Z) (x : Z) :
  linearized S placed → ready S placed x = true →
  linearized S (placed ++ [x]).
Proof.
  intros Hlin Hready l1 y l2 e Heq Hin Hy.
  destruct l2 as [|z l2 _] using rev_ind.
  - apply app_inj_tail in Heq as [-> ->]. by eapply ready_spec.
  - rewrite app_comm_cons, app_assoc in Heq.
    apply app_inj_tail in Heq as [-> _]. by eapply Hlin.
Qed.

Lemma kahn_spec (S : Snapshot) (turns : nat) (placed order : list Z)
    (remaining rest : gset Z) :
  kahn S turns placed remaining = (order, rest) →
  linearized S placed → NoDup placed →
  (∀ x, x ∈ placed → x ∉ remaining) →
  linearized S order ∧ NoDup order ∧
  (∀ x, x ∈ placed → x ∈ order) ∧
  (∀ x, x ∈ remaining → x ∉ rest → x ∈ order) ∧
  (∀ x, x ∈ order → x ∈ placed ∨ x ∈ remaining).
Proof.
  revert placed remaining.
  induction turns as [|turns IH]; intros placed remaining; simpl.
  { intros [= <- <-]. intros. repeat split; auto; done. }
  destruct (pick_ready S placed remaining) as [x|] eqn:Hpick.
  2:{ intros [= <- <-]. intros. repeat split; auto; done. }
  apply pick_ready_Some in Hpick as [Hx Hready].
  intros Hk Hlin Hnd Hdisj.
  destruct (IH _ _ Hk) as (Hlin' & Hnd' & Hplaced & Hrem & Hfrom).
  - by apply linearized_snoc.
  - apply NoDup_app. split; [done|]. split; [|apply NoDup_singleton].
    intros y Hy ->%list_elem_of_singleton. by apply (Hdisj x).
  - intros y [Hy| ->%list_elem_of_singleton]%elem_of_app.
    + specialize (Hdisj y Hy). set_solver.
    + set_solver.
  - split; [done|]. split; [done|]. split; [|split].
    + intros y Hy. apply Hplaced, elem_of_app. by left.
    + intros y Hy Hrest. destruct (decide (y = x)) as [->|Hne].
      * apply Hplaced, elem_of_app. right. by apply list_elem_of_singleton.
      * apply Hrem; [set_solver|done].
    + intros y Hy.
      destruct (Hfrom y Hy) as [[?| ->%list_elem_of_singleton]%elem_of_app|?];
        [by left|by right|right; set_solver].
Qed.

Lemma topologicalOrder_linearizes (S : Snapshot) (order : list Z) :
  topologicalOrder S = inr order →
  linearized S order ∧ NoDup order ∧
  (∀ x, is_Some (nodes S !! x) ↔ x ∈ order).
Proof.
  unfold topologicalOrder.
  destruct (kahn S _ [] _) as [order' rest] eqn:Hk.
  case_decide as Hrest; [|done]. intros [= <-]. subst rest.
  destruct (kahn_spec _ _ _ _ _ _ Hk) as (Hlin & Hnd & _ & Hrem & Hfrom).
  - intros l1 x l2 e Heq. by destruct l1.
  - apply NoDup_nil_2.
  - by intros x Hx%elem_of_nil.
  - split; [done|]. split; [done|]. intros x. split.
    + intros Hx. apply Hrem; [|set_solver]. by apply elem_of_dom.
    + intros Hx. destruct (Hfrom x Hx) as [Hp|Hd].
      * by apply elem_of_nil in Hp.
      * by apply elem_of_dom.
Qed.

Lemma topologicalOrder_fails_with_cycle (S : Snapshot) (f : Failure) :
  topologicalOrder S = inl f → ∃ l, f = CyclicDependency l ∧ l ≠ [].
Proof.
  unfold topologicalOrder.
  destruct (kahn S _ [] _) as [order' rest] eqn:Hk.
  case_decide as Hrest; [done|]. intros [= <-]. eexists. split; [done|].
  intros He. by apply elements_empty_inv, leibniz_equiv in He.
Qed.

(** *** The walk over the order *)

Lemma schedule_all_keeps (S : Snapshot) (order : list Z)
    (m m' : gmap Z Scheduled) (y : Z) :
  schedule_all S order m = Some m' → y ∉ order → m' !! y = m !! y.
Proof.
  revert m. induction order as [|x order IH]; intros m; simpl.
  { by intros [= ->]. }
  destruct (nodes S !! x) as [t|]; [|done]. simpl.
  destruct (schedule_task S m t) as [r|]; [|done]. simpl.
  intros Hs Hy. rewrite (IH _ Hs) by set_solver.
  apply lookup_insert_ne. set_solver.
Qed.

Lemma schedule_task_start (S : Snapshot) (m : gmap Z Scheduled) (t : Task)
    (r p : Scheduled) (e : Dependency) :
  schedule_task S m t = Some r → e ∈ dependencies S →
  successor e = id t → kind e = FS → m !! predecessor e = Some p →
  next_working_day (end_date p) ≤ start_date r.
Proof.
  unfold schedule_task. destruct (duration t) as [days|]; [|done]. simpl.
  intros [= <-] Hin Hsucc Hkind Hp. simpl.
  assert (next_working_day (end_date p) ∈ bounds S m (id t) days) as Hb.
  { unfold bounds. apply list_elem_of_omap. exists e. split; [done|].
    rewrite bool_decide_eq_true_2 by done. rewrite Hp, Hkind. done. }
  destruct (bounds S m (id t) days ++ option_list (earliest_start t))
    as [|b bs] eqn:Hl.
  - apply app_eq_nil in Hl as [Hl _]. rewrite Hl in Hb.
    by apply elem_of_nil in Hb.
  - apply foldr_max_ge. rewrite <- Hl. apply elem_of_app. by left.
Qed.

Lemma schedule_all_fs (S : Snapshot) (order : list Z)
    (m m' : gmap Z Scheduled) (e : Dependency) :
  schedule_all S order m = Some m' → NoDup order →
  (∀ x, x ∈ order → m !! x = None) →
  (∀ l1 x l2 e',
     order = l1 ++ x :: l2 → e' ∈ dependencies S → successor e' = x →
     is_Some (m !! predecessor e') ∨ predecessor e' ∈ l1) →
  e ∈ dependencies S → kind e = FS → successor e ∈ order →
  ∃ p s, m' !! predecessor e = Some p ∧ m' !! successor e = Some s ∧
         next_working_day (end_date p) ≤ start_date s.
Proof.
  revert m. induction order as [|x order IH]; intros m; simpl.
  { intros _ _ _ _ _ _ Hin. by apply elem_of_nil in Hin. }
  destruct (nodes S !! x) as [t|] eqn:Ht; [|done]. simpl.
  destruct (schedule_task S m t) as [r|] eqn:Hr; [|done]. simpl.
  intros Hs Hnd Hfresh Hord He Hkind Hin.
  apply NoDup_cons in Hnd as [Hx Hnd].
  apply elem_of_cons in Hin as [Hsucc|Hin].
  - destruct (Hord [] x order e eq_refl He Hsucc) as [[p Hp]|Hnil];
      [|by apply elem_of_nil in Hnil].
    exists p, r. split; [|split].
    + rewrite (schedule_all_keeps _ _ _ _ _ Hs).
      * rewrite lookup_insert_ne; [done|].
        intros ->. rewrite Hfresh in Hp; [done|by left].
      * intros Hpo. rewrite Hfresh in Hp; [done|by right].
    + rewrite Hsucc, (schedule_all_keeps _ _ _ _ _ Hs) by done.
      apply lookup_insert_eq.
    + eapply schedule_task_start; [exact Hr|exact He| |done|done].
      by rewrite (nodes_id _ _ _ Ht).
  - apply (IH (<[x:=r]> m)); try done.
    + intros y Hy. rewrite lookup_insert_ne by set_solver.
      apply Hfresh. by right.
    + intros l1 y l2 e' Heq He' Hsucc'.
      destruct (Hord (x :: l1) y l2 e' ltac:(by rewrite Heq) He' Hsucc')
        as [Hm|[->|Hl]%elem_of_cons].
      * left. destruct (decide (x = predecessor e')) as [->|Hne].
        -- rewrite lookup_insert_eq. by eexists.
        -- by rewrite lookup_insert_ne.
      * left. rewrite lookup_insert_eq. by eexists.
      * by right.
Qed.

Lemma validate_None_dependency (S : Snapshot) (e : Dependency) :
  validate S = None → e ∈ dependencies S →
  is_Some (nodes S !! predecessor e) ∧ is_Some (nodes S !! successor e).
Proof.
  unfold validate.
  destruct (List.find (invalid_dependency S) (dependencies S)) eqn:Hf; [done|].
  intros _ Hin. apply list_elem_of_In in Hin.
  pose proof (find_none _ _ Hf e Hin) as Hv. unfold invalid_dependency in Hv.
  apply orb_false_iff in Hv as [Hv Hs]. apply orb_false_iff in Hv as [_ Hp].
  apply bool_decide_eq_false in Hp, Hs.
  split; by apply not_eq_None_Some.
Qed.

(** *** The session fails only as specified *)

Lemma validate_None_task (S : Snapshot) (x : Z) (t : Task) :
  validate S = None → nodes S !! x = Some t → is_Some (duration t).
Proof.
  unfold validate.
  destruct (List.find (invalid_dependency S) (dependencies S)); [done|].
  destruct (List.find invalid_task (tasks S)) eqn:Hf; [done|].
  intros _ Ht. unfold nodes in Ht. apply elem_of_list_to_map_2 in Ht.
  apply list_elem_of_fmap in Ht as (t' & [= -> ->] & Hin).
  apply list_elem_of_In in Hin.
  pose proof (find_none _ _ Hf t' Hin) as Hv. unfold invalid_task in Hv.
  apply orb_false_iff in Hv as [_ Hr].
  unfold duration, workingDaysNeeded.
  destruct (ratio t') as [q|]; simpl in *; [rewrite Hr|]; by eexists.
Qed.

Lemma schedule_all_succeeds (S : Snapshot) (order : list Z)
    (m : gmap Z Scheduled) :
  validate S = None → (∀ x, x ∈ order → is_Some (nodes S !! x)) →
  is_Some (schedule_all S order m).
Proof.
  intros Hv. revert m.
  induction order as [|x order IH]; intros m Hnodes; simpl; [by eexists|].
  destruct (Hnodes x ltac:(by left)) as [t Ht]. rewrite Ht. simpl.
  destruct (validate_None_task S x t Hv Ht) as [days Hd].
  unfold schedule_task. rewrite Hd. simpl.
  apply IH. intros y Hy. apply Hnodes. by right.
Qed.

(** A request fails in validation or on a cycle, and in no other way: once
    the snapshot is valid and ordered, every task gets its dates. *)
Lemma recalculate_failures (S : Snapshot) (f : Failure) :
  recalculate S = inl f →
  validate S = Some f ∨ ∃ l, f = CyclicDependency l ∧ l ≠ [].
Proof.
  unfold recalculate.
  destruct (validate S) eqn:Hv; [intros [= ->]; by left|].
  destruct (topologicalOrder S) as [f'|order] eqn:Ho.
  { intros [= <-]. right. by eapply topologicalOrder_fails_with_cycle. }
  destruct (topologicalOrder_linearizes _ _ Ho) as (_ & _ & Hall).
  destruct (schedule_all_succeeds S order ∅ Hv) as [m Hm].
  { intros x Hx. by apply Hall. }
  by rewrite Hm.
Qed.

(** C6. In every schedule the engine computes, the successor of a
    finish-to-start edge starts on the working day after the end of its
    predecessor or later, hence strictly after that end. *)
Theorem fs_invariant (S : Snapshot) (r : Result) (e : Dependency) :
  recalculate S = inr r → e ∈ dependencies S → kind e = FS →
  ∃ p s,
    schedule r !! predecessor e = Some p ∧
    schedule r !! successor e = Some s ∧
    next_working_day (end_date p) ≤ start_date s ∧
    end_date p < start_date s.
Proof.
  unfold recalculate.
  destruct (validate S) eqn:Hv; [done|].
  destruct (topologicalOrder S) as [|order] eqn:Ho; [done|].
  destruct (schedule_all S order ∅) as [m|] eqn:Hm; [|done].
  intros [= <-] He Hkind. simpl.
  destruct (topologicalOrder_linearizes _ _ Ho) as (Hlin & Hnd & Hall).
  destruct (validate_None_dependency _ _ Hv He) as [_ Hsucc].
  destruct (schedule_all_fs S order ∅ m e Hm Hnd) as (p & s & Hp & Hs & Hle);
    try done.
  - intros l1 x l2 e' Heq He' Hx. right. by eapply Hlin.
  - by apply Hall.
  - exists p, s. repeat split; try done.
    pose proof (next_working_day_gt (end_date p)). lia.
Qed.

Lemma fs_invariant_witness :
  mkDependency 1 2 FS ∈ dependencies scenario_A ∧
  kind (mkDependency 1 2 FS) = FS ∧
  ∃ r, recalculate scenario_A = inr r ∧
    ∃ p s,
      schedule r !! 1 = Some p ∧ schedule r !! 2 = Some s ∧
      next_working_day (end_date p) ≤ start_date s ∧
      end_date p < start_date s.
Proof.
  assert (mkDependency 1 2 FS ∈ dependencies scenario_A) as H1.
  { apply elem_of_cons. by left. }
  assert (kind (mkDependency 1 2 FS) = FS) as H2 by reflexivity.
  repeat (split; [assumption|]).
  destruct (recalculate scenario_A) as [f|r] eqn:Hr; [by vm_compute in Hr|].
  exists r. split; [done|].
  exact (fs_invariant scenario_A r (mkDependency 1 2 FS) Hr H1 H2).
Defined.

(** Scenario A of the specification: T1 runs from Monday 2025-09-01 to
    Friday 2025-09-05, T2 needs 10 working days and runs from Monday
    2025-09-08 to Friday 2025-09-19. *)
Example scenario_A_dates :
  (λ r, (schedule r !! 1, schedule r !! 2)) <$> sum_rect (λ _, option Result)
     (λ _, None) Some (recalculate scenario_A)
  = Some (Some (mkScheduled 20332 20336 false false),
          Some (mkScheduled 20339 20350 false false)).
Proof. by vm_compute. Qed.

(** *** What the result carries for each task *)

Lemma schedule_all_dom (S : Snapshot) (order : list Z)
    (m m' : gmap Z Scheduled) (x : Z) :
  schedule_all S order m = Some m' →
  is_Some (m' !! x) ↔ x ∈ order ∨ is_Some (m !! x).
Proof.
  revert m. induction order as [|y order IH]; intros m; simpl.
  { intros [= ->]. set_solver. }
  destruct (nodes S !! y) as [t|]; [|done]. simpl.
  destruct (schedule_task S m t) as [r|]; [|done]. simpl.
  intros Hs. rewrite (IH _ Hs). rewrite elem_of_cons.
  destruct (decide (x = y)) as [->|Hne].
  - rewrite lookup_insert_eq. split; intros _; [left; by left|].
    right. by eexists.
  - rewrite lookup_insert_ne by done. naive_solver.
Qed.

Lemma schedule_all_task (S : Snapshot) (order : list Z)
    (m m' : gmap Z Scheduled) (x : Z) :
  schedule_all S order m = Some m' → NoDup order → x ∈ order →
  ∃ t m0 s, nodes S !! x = Some t ∧ schedule_task S m0 t = Some s ∧
            m' !! x = Some s.
Proof.
  revert m. induction order as [|y order IH]; intros m; simpl.
  { intros _ _ Hin. by apply elem_of_nil in Hin. }
  destruct (nodes S !! y) as [t|] eqn:Ht; [|done]. simpl.
  destruct (schedule_task S m t) as [r|] eqn:Hr; [|done]. simpl.
  intros Hs [Hy Hnd]%NoDup_cons [->|Hin]%elem_of_cons.
  - exists t, m, r. split; [done|]. split; [done|].
    rewrite (schedule_all_keeps _ _ _ _ _ Hs) by done.
    apply lookup_insert_eq.
  - by apply (IH _ Hs).
Qed.

Lemma schedule_task_flags (S : Snapshot) (m : gmap Z Scheduled) (t : Task)
    (s : Scheduled) :
  schedule_task S m t = Some s →
  ∃ days, duration t = Some days ∧
          end_date s = advance (start_date s) days ∧
          (over_deadline s = true ↔ ∃ d, deadline t = Some d ∧ d < end_date s)
          ∧ (unassigned s = true ↔ ratio t = None).
Proof.
  unfold schedule_task. destruct (duration t) as [days|]; [|done]. simpl.
  intros [= <-]. exists days. simpl. split; [done|]. split; [done|]. split.
  - destruct (deadline t) as [d|].
    + rewrite bool_decide_eq_true. split; [by exists d|].
      by intros (d' & [= <-] & Hlt).
    + split; [done|]. by intros (d & ? & _).
  - apply bool_decide_eq_true.
Qed.

Lemma session_inv (S : Snapshot) (r : ScheduleResult) :
  session S = inr r →
  ∃ order,
    validate S = None ∧ topologicalOrder S = inr order ∧
    schedule_all S order ∅ = Some (schedule (computed r)) ∧
    critical_paths r
    = critical_path S (schedule (computed r))
        <$> terminals (schedule (computed r)).
Proof.
  unfold session, recalculate.
  destruct (validate S) eqn:Hv; [done|].
  destruct (topologicalOrder S) as [|order] eqn:Ho; [done|].
  destruct (schedule_all S order ∅) as [m|] eqn:Hm; [|done].
  intros [= <-]. by exists order.
Qed.

(** C4. In the result of every successful recalculation each task of the
    snapshot has its entry: the computed start date and the end date, which
    is the start advanced by the working days of the task and is reported as
    computed, the over-deadline flag, set exactly when the task has a
    deadline and the computed end is after it, and the unassigned flag, set
    exactly when no allocation ratio was resolved for the task. *)
Theorem result_carries_dates_and_flags (S : Snapshot) (r : ScheduleResult)
    (x : Z) (t : Task) :
  session S = inr r → nodes S !! x = Some t →
  ∃ s days,
    schedule (computed r) !! x = Some s ∧ duration t = Some days ∧
    end_date s = advance (start_date s) days ∧
    (over_deadline s = true ↔ ∃ d, deadline t = Some d ∧ d < end_date s) ∧
    (unassigned s = true ↔ ratio t = None).
Proof.
  intros Hr Ht.
  destruct (session_inv _ _ Hr) as (order & Hv & Ho & Hm & _).
  destruct (topologicalOrder_linearizes _ _ Ho) as (_ & Hnd & Hall).
  assert (x ∈ order) as Hx by (apply Hall; by eexists).
  destruct (schedule_all_task _ _ _ _ x Hm Hnd Hx)
    as (t' & m0 & s & Ht' & Hs & Hlook).
  assert (t' = t) as -> by congruence.
  destruct (schedule_task_flags _ _ _ _ Hs) as (days & Hd & Hflags).
  by exists s, days.
Qed.

Lemma result_carries_dates_and_flags_witness :
  ∃ r, session scenario_flags = inr r ∧
    nodes scenario_flags !! 1
    = Some (mkTask 1 5 None (Some 20334) (Some 1%Q) false) ∧
    schedule (computed r) !! 1 = Some (mkScheduled 20332 20336 true false) ∧
    ∃ s days,
      schedule (computed r) !! 1 = Some s ∧
      duration (mkTask 1 5 None (Some 20334) (Some 1%Q) false) = Some days ∧
      end_date s = advance (start_date s) days ∧
      (over_deadline s = true
       ↔ ∃ d, deadline (mkTask 1 5 None (Some 20334) (Some 1%Q) false)
              = Some d ∧ d < end_date s) ∧
      (unassigned s = true
       ↔ ratio (mkTask 1 5 None (Some 20334) (Some 1%Q) false) = None).
Proof.
  destruct (session scenario_flags) as [f|r] eqn:Hr; [by vm_compute in Hr|].
  exists r. split; [done|].
  assert (nodes scenario_flags !! 1
          = Some (mkTask 1 5 None (Some 20334) (Some 1%Q) false)) as Ht
    by reflexivity.
  split; [exact Ht|]. split.
  - vm_compute in Hr. by injection Hr as <-.
  - exact (result_carries_dates_and_flags scenario_flags r 1 _ Hr Ht).
Defined.

(** The task with a deadline on Wednesday 2025-09-03 ends on Friday
    2025-09-05: that end is reported and the task is flagged over its
    deadline; the task nobody is assigned to is scheduled for two working
    days and flagged unassigned. *)
Example scenario_flags_result :
  (λ r, (schedule (computed r) !! 1, schedule (computed r) !! 2))
    <$> sum_rect (λ _, option ScheduleResult) (λ _, None) Some
          (session scenario_flags)
  = Some (Some (mkScheduled 20332 20336 true false),
          Some (mkScheduled 20332 20333 false true)).
Proof. by vm_compute. Qed.

(** *** The critical paths *)

Lemma terminal_spec (m : gmap Z Scheduled) (x : Z) :
  terminal m x = true ↔ latest_finisher m x.
Proof.
  unfold terminal, latest_finisher.
  destruct (m !! x) as [s|]; [|split; [done|by intros (? & ? & _)]].
  rewrite forallb_forall. split.
  - intros Hall. exists s. split; [done|]. intros y r Hy.
    apply elem_of_map_to_list, list_elem_of_In, Hall in Hy.
    by apply bool_decide_eq_true in Hy.
  - intros (s' & [= <-] & Hmax) [y r] Hin.
    apply list_elem_of_In, elem_of_map_to_list in Hin.
    apply bool_decide_eq_true. by eapply Hmax.
Qed.

Lemma elem_of_terminals (m : gmap Z Scheduled) (x : Z) :
  x ∈ terminals m ↔ latest_finisher m x.
Proof.
  unfold terminals. rewrite list_elem_of_filter, terminal_spec.
  rewrite merge_sort_Permutation, elem_of_elements, elem_of_dom.
  split; [by intros [? _]|]. intros Hx. split; [done|].
  destruct Hx as (s & Hs & _). by eexists.
Qed.

Lemma NoDup_terminals (m : gmap Z Scheduled) : NoDup (terminals m).
Proof.
  unfold terminals. apply NoDup_filter.
  rewrite merge_sort_Permutation. apply NoDup_elements.
Qed.

Lemma last_critical_path (S : Snapshot) (m : gmap Z Scheduled) (x : Z) :
  last (critical_path S m x) = Some x.
Proof.
  unfold critical_path. rewrite last_reverse. by destruct (size m).
Qed.

Lemma foldr_prefer (m : gmap Z Scheduled) (p : Z) (ps : list Z) :
  foldr (prefer m) p ps ∈ p :: ps.
Proof.
  induction ps as [|q ps IH]; simpl; [by left|].
  unfold prefer at 1. cbv zeta.
  assert (foldr (prefer m) p ps ∈ p :: q :: ps) as Hrec.
  { apply elem_of_cons in IH as [->|IH]; [by left|by do 2 right]. }
  repeat case_bool_decide; [by right; left|done|].
  destruct (Z.min_spec q (foldr (prefer m) p ps)) as [[_ ->]|[_ ->]];
    [by right; left|done].
Qed.

Lemma binding_predecessor_edge (S : Snapshot) (m : gmap Z Scheduled)
    (x p : Z) :
  binding_predecessor S m x = Some p →
  ∃ e, e ∈ dependencies S ∧ predecessor e = p ∧ successor e = x.
Proof.
  unfold binding_predecessor.
  destruct (binding S m x) as [|q qs] eqn:Hb; [done|]. intros [= <-].
  pose proof (foldr_prefer m q qs) as Hin. rewrite <- Hb in Hin.
  unfold binding in Hin.
  destruct (nodes S !! x) as [t|]; [|by apply elem_of_nil in Hin].
  destruct (m !! x) as [s|]; [|by apply elem_of_nil in Hin].
  destruct (duration t) as [days|]; [|by apply elem_of_nil in Hin].
  apply list_elem_of_omap in Hin as (e & He & Hsome).
  case_bool_decide as Hx; [|done].
  destruct (m !! predecessor e) as [r|]; [|done]. simpl in Hsome.
  case_bool_decide; [|done]. injection Hsome as Hp.
  by exists e.
Qed.

Lemma follows_snoc (S : Snapshot) (l : list Z) (p x : Z) (e : Dependency) :
  follows S l → last l = Some p →
  e ∈ dependencies S → predecessor e = p → successor e = x →
  follows S (l ++ [x]).
Proof.
  intros Hl Hlast He Hp Hx i a b Ha Hb.
  destruct (decide (Datatypes.S i < length l)%nat) as [Hlt|Hge].
  - rewrite lookup_app_l in Ha by lia. rewrite lookup_app_l in Hb by lia.
    by eapply Hl.
  - assert (Datatypes.S i = length l) as Hi.
    { apply lookup_lt_Some in Hb. rewrite length_app in Hb. simpl in Hb.
      lia. }
    rewrite lookup_app_l in Ha by lia.
    rewrite lookup_app_r in Hb by lia.
    rewrite Hi, Nat.sub_diag in Hb. injection Hb as <-.
    rewrite last_lookup in Hlast.
    replace (pred (length l)) with i in Hlast by lia.
    assert (a = p) as -> by congruence.
    by exists e.
Qed.

Lemma follows_walk (S : Snapshot) (m : gmap Z Scheduled) (steps : nat)
    (x : Z) :
  follows S (reverse (walk S m steps x)).
Proof.
  revert x. induction steps as [|steps IH]; intros x; simpl.
  { intros i a b Ha Hb. by destruct i. }
  destruct (binding_predecessor S m x) as [p|] eqn:Hp.
  2:{ intros i a b Ha Hb. by destruct i. }
  rewrite reverse_cons.
  destruct (binding_predecessor_edge _ _ _ _ Hp) as (e & He & Hpe & Hxe).
  eapply follows_snoc; [apply IH| |exact He|exact Hpe|exact Hxe].
  rewrite last_reverse. by destruct steps.
Qed.

(** A walk of as many steps as tasks stops on its own: at a task none of
    whose predecessors is binding. *)
Lemma walk_ends (S : Snapshot) (m : gmap Z Scheduled) (order : list Z)
    (steps : nat) (x : Z) (l1 l2 : list Z) :
  linearized S order → order = l1 ++ x :: l2 → (length l1 < steps)%nat →
  ∃ first, last (walk S m steps x) = Some first ∧
           binding_predecessor S m first = None.
Proof.
  intros Hlin. revert x l1 l2.
  induction steps as [|steps IH]; intros x l1 l2 Hord Hlen; [lia|].
  simpl. destruct (binding_predecessor S m x) as [p|] eqn:Hp.
  2:{ by exists x. }
  destruct (binding_predecessor_edge _ _ _ _ Hp) as (e & He & Hpe & Hxe).
  pose proof (Hlin l1 x l2 e Hord He Hxe) as Hin. rewrite Hpe in Hin.
  apply list_elem_of_split in Hin as (l1a & l1b & ->).
  destruct (IH p l1a (l1b ++ x :: l2)) as (first & Hlast & Hnone).
  - rewrite Hord. by rewrite <- app_assoc.
  - rewrite length_app in Hlen. simpl in Hlen. lia.
  - exists first. split; [|done].
    rewrite length_app in Hlen.
    destruct steps; simpl in *; [lia|]. by rewrite Hlast.
Qed.

Lemma size_schedule (S : Snapshot) (order : list Z) (m : gmap Z Scheduled) :
  schedule_all S order ∅ = Some m → NoDup order → size m = length order.
Proof.
  intros Hm Hnd.
  assert (dom m = list_to_set order) as Hdom.
  { apply set_eq. intros x. rewrite elem_of_dom, elem_of_list_to_set.
    rewrite (schedule_all_dom _ _ _ _ x Hm). rewrite lookup_empty.
    split; [|by left]. intros [?|[? ?]]; done. }
  rewrite <- size_dom, Hdom. by apply size_list_to_set.
Qed.

(** C5. The result of a successful recalculation holds one critical path
    per task that ties for the latest end date, and so more than one when
    several tasks tie.  Each path is derived from its own terminal task
    alone: it is the walk backward from that task, reversed.  It is an
    ordered sequence of task identities that ends with the terminal task,
    each task the predecessor of a dependency of the next, and it begins
    where the walk stops, at a task without a binding predecessor. *)
Theorem one_critical_path_per_terminal_task (S : Snapshot)
    (r : ScheduleResult) :
  session S = inr r →
  (∀ x, latest_finisher (schedule (computed r)) x
        ↔ ∃ path, path ∈ critical_paths r ∧ last path = Some x)
  ∧ NoDup (last <$> critical_paths r)
  ∧ (∀ path, path ∈ critical_paths r →
       ∃ x first,
         path = critical_path S (schedule (computed r)) x ∧
         last path = Some x ∧ follows S path ∧
         head path = Some first ∧
         binding_predecessor S (schedule (computed r)) first = None).
Proof.
  intros Hr.
  destruct (session_inv _ _ Hr) as (order & Hv & Ho & Hm & ->).
  set (m := schedule (computed r)) in *.
  destruct (topologicalOrder_linearizes _ _ Ho) as (Hlin & Hnd & Hall).
  split; [|split].
  - intros x. rewrite <- elem_of_terminals. split.
    + intros Hx. exists (critical_path S m x).
      split; [|apply last_critical_path].
      apply list_elem_of_fmap. by exists x.
    + intros (path & (y & -> & Hy)%list_elem_of_fmap & Hlast).
      rewrite last_critical_path in Hlast. by injection Hlast as <-.
  - rewrite <- list_fmap_compose.
    assert (last ∘ critical_path S m <$> terminals m
            = Some <$> terminals m) as ->.
    { apply list_fmap_ext. intros i x _. apply last_critical_path. }
    apply (NoDup_fmap_2 Some), NoDup_terminals.
  - intros path (x & -> & Hx)%list_elem_of_fmap.
    assert (x ∈ order) as Hin.
    { apply elem_of_terminals in Hx as (s & Hs & _).
      destruct (proj1 (schedule_all_dom _ _ _ _ x Hm)) as [?|[? Hno]];
        [by eexists|done|].
      by rewrite lookup_empty in Hno. }
    apply list_elem_of_split in Hin as (l1 & l2 & Hord).
    destruct (walk_ends S m order (size m) x l1 l2 Hlin Hord)
      as (first & Hlast & Hnone).
    { rewrite (size_schedule _ _ _ Hm Hnd), Hord, length_app. simpl. lia. }
    exists x, first. split; [done|]. split; [apply last_critical_path|].
    split; [apply follows_walk|]. split; [|done].
    unfold critical_path. by rewrite head_reverse.
Qed.

Lemma one_critical_path_per_terminal_task_witness :
  ∃ r, session scenario_tie = inr r ∧
    critical_paths r = [[1; 2]; [3]] ∧
    (∀ x, latest_finisher (schedule (computed r)) x
          ↔ ∃ path, path ∈ critical_paths r ∧ last path = Some x)
    ∧ NoDup (last <$> critical_paths r)
    ∧ (∀ path, path ∈ critical_paths r →
         ∃ x first,
           path = critical_path scenario_tie (schedule (computed r)) x ∧
           last path = Some x ∧ follows scenario_tie path ∧
           head path = Some first ∧
           binding_predecessor scenario_tie (schedule (computed r)) first
           = None).
Proof.
  destruct (session scenario_tie) as [f|r] eqn:Hr; [by vm_compute in Hr|].
  exists r. split; [done|]. split.
  - vm_compute in Hr. by injection Hr as <-.
  - exact (one_critical_path_per_terminal_task scenario_tie r Hr).
Defined.

(** Scenario C of the specification: the critical path is the chain, and the
    parallel task is on no critical path. *)
Example scenario_C_critical_path :
  critical_paths
    <$> sum_rect (λ _, option ScheduleResult) (λ _, None) Some
          (session scenario_C)
  = Some [[1; 2; 3]].
Proof. by vm_compute. Qed.

End EngineFacts.

(** ** JavaScript arrays *)

Module JSArrayFacts.
Import JS JSArray.

Lemma insert_sorted_Permutation {A} (cmp : A → A → Z) (x : A) (l : list A) :
  insert_sorted cmp x l ≡ₚ x :: l.
Proof.
  induction l as [|y l IH]; simpl; [done|].
  case_bool_decide; [done|]. rewrite IH. apply Permutation_swap.
Qed.

Lemma sort_Permutation {A} (cmp : A → A → Z) (l : list A) :
  sort cmp l ≡ₚ l.
Proof.
  induction l as [|x l IH]; simpl; [done|].
  by rewrite insert_sorted_Permutation, IH.
Qed.

Lemma elem_of_sort {A} (cmp : A → A → Z) (l : list A) (x : A) :
  x ∈ sort cmp l ↔ x ∈ l.
Proof. by rewrite sort_Permutation. Qed.

Lemma length_sort {A} (cmp : A → A → Z) (l : list A) :
  length (sort cmp l) = length l.
Proof. by rewrite sort_Permutation. Qed.

(** A comparator that is total and transitive on the elements of the array
    sorts it. *)
Lemma insert_sorted_StronglySorted {A} (cmp : A → A → Z) (x : A)
    (l : list A) :
  (∀ y, y ∈ l → cmp x y ≤ 0 ∨ cmp y x ≤ 0) →
  (∀ y z, y ∈ l → z ∈ l → cmp x y ≤ 0 → cmp y z ≤ 0 → cmp x z ≤ 0) →
  StronglySorted (λ a b, cmp a b ≤ 0) l →
  StronglySorted (λ a b, cmp a b ≤ 0) (insert_sorted cmp x l).
Proof.
  intros Htot Htrans Hs.
  induction Hs as [|y l Hs IH Hall]; simpl.
  - repeat constructor.
  - case_bool_decide as Hxy.
    + constructor; [by constructor|].
      constructor; [done|].
      rewrite Forall_forall in Hall |- *. intros z Hz.
      apply (Htrans y z); [by left|by right|done|by apply Hall].
    + constructor.
      * apply IH.
        -- intros z Hz. apply Htot. by right.
        -- intros z w Hz Hw. apply Htrans; by right.
      * rewrite Forall_forall. intros z Hz.
        rewrite insert_sorted_Permutation in Hz.
        apply elem_of_cons in Hz as [->|Hz].
        -- destruct (Htot y ltac:(by left)); [done|done].
        -- rewrite Forall_forall in Hall. by apply Hall.
Qed.

Lemma sort_StronglySorted {A} (cmp : A → A → Z) (l : list A) :
  (∀ x y, x ∈ l → y ∈ l → cmp x y ≤ 0 ∨ cmp y x ≤ 0) →
  (∀ x y z, x ∈ l → y ∈ l → z ∈ l →
            cmp x y ≤ 0 → cmp y z ≤ 0 → cmp x z ≤ 0) →
  StronglySorted (λ a b, cmp a b ≤ 0) (sort cmp l).
Proof.
  intros Htot Htrans. induction l as [|x l IH]; simpl; [constructor|].
  apply insert_sorted_StronglySorted.
  - intros y Hy%elem_of_sort. apply Htot; [by left|by right].
  - intros y z Hy%elem_of_sort Hz%elem_of_sort.
    apply Htrans; [by left|by right|by right].
  - apply IH.
    + intros y z Hy Hz. apply Htot; by right.
    + intros y z w Hy Hz Hw. apply Htrans; by right.
Qed.

(** An array that is already ordered is left as it is. *)
Lemma sort_sorted_id {A} (cmp : A → A → Z) (l : list A) :
  StronglySorted (λ a b, cmp a b ≤ 0) l → sort cmp l = l.
Proof.
  induction 1 as [|x l Hs IH Hall]; simpl; [done|].
  rewrite IH. destruct l as [|y l]; simpl; [done|].
  apply Forall_cons in Hall as [Hxy _].
  by rewrite bool_decide_eq_true_2.
Qed.

Lemma StronglySorted_weaken {A} (R R' : A → A → Prop) (l : list A) :
  (∀ a b, R a b → R' a b) → StronglySorted R l → StronglySorted R' l.
Proof.
  intros HR. induction 1 as [|x l Hs IH Hall]; constructor; [done|].
  eapply Forall_impl; [done|]. intros y. apply HR.
Qed.

Lemma filter_all {A} (P : A → Prop) `{!∀ x, Decision (P x)} (l : list A) :
  (∀ x, P x) → filter P l = l.
Proof.
  intros HP. induction l as [|x l IH]; [done|].
  by rewrite filter_cons_True, IH.
Qed.

(** The order of strings. *)
Lemma compareStrings_eq (a b : jsstring) :
  compareStrings a b = 0 ↔ a = b.
Proof.
  revert b. induction a as [|x a IH]; intros [|y b]; simpl.
  - done.
  - split; [lia|done].
  - split; [lia|done].
  - repeat case_bool_decide.
    + split; [lia|intros [= ]; lia].
    + split; [lia|intros [= ]; lia].
    + rewrite IH. split; [intros ->; f_equal; lia|by intros [= ]].
Qed.

Lemma compareStrings_swap (a b : jsstring) :
  compareStrings b a = - compareStrings a b.
Proof.
  revert b. induction a as [|x a IH]; intros [|y b]; simpl; try done.
  repeat case_bool_decide; try lia. apply IH.
Qed.

Lemma compareStrings_total (a b : jsstring) :
  compareStrings a b ≤ 0 ∨ compareStrings b a ≤ 0.
Proof. rewrite (compareStrings_swap a b). lia. Qed.

Lemma compareStrings_trans (a b c : jsstring) :
  compareStrings a b ≤ 0 → compareStrings b c ≤ 0 → compareStrings a c ≤ 0.
Proof.
  revert b c. induction a as [|x a IH]; intros [|y b] [|z c]; simpl;
    try done; try lia.
  repeat case_bool_decide; try lia. apply IH.
Qed.

(** A page of [n] elements: the slice from [k * n] to [k * n + n]. *)
Lemma slice_page {A} (k n : nat) (l : list A) :
  slice (Z.of_nat k * Z.of_nat n) (Z.of_nat k * Z.of_nat n + Z.of_nat n) l
  = take n (drop (k * n) l).
Proof.
  unfold slice.
  rewrite !bool_decide_eq_false_2 by lia.
  destruct (decide (k * n ≤ length l)%nat) as [Hle|Hgt].
  - replace (Z.to_nat (Z.min (Z.of_nat k * Z.of_nat n) (Z.of_nat (length l))))
      with (k * n)%nat by lia.
    destruct (decide (k * n + n ≤ length l)%nat) as [Hle'|Hgt'].
    + f_equal. lia.
    + rewrite !take_ge; [done| |]; rewrite length_drop; lia.
  - rewrite !drop_ge by lia. by rewrite !take_nil.
Qed.

Lemma join_pages {A} (m n : nat) (l : list A) :
  mjoin ((λ k, take n (drop (k * n) l)) <$> seq 0 m) = take (m * n) l.
Proof.
  induction m as [|m IH]; [done|].
  rewrite seq_S, fmap_app, join_app, IH. cbn [fmap list_fmap mjoin list_join].
  rewrite app_nil_r, Nat.add_0_l.
  replace (S m * n)%nat with (m * n + n)%nat by lia.
  by rewrite take_take_drop.
Qed.

End JSArrayFacts.

(** ** Categories *)

Module CategoriesFacts.
Import JS JSArray JSArrayFacts Categories.

Lemma elem_of_Set_add (s : list jsstring) (x c : jsstring) :
  c ∈ Set_add s x ↔ c ∈ s ∨ c = x.
Proof.
  unfold Set_add. case_bool_decide as Hx.
  - split; [by left|]. by intros [?| ->].
  - rewrite elem_of_app, list_elem_of_singleton. done.
Qed.

Lemma NoDup_Set_add (s : list jsstring) (x : jsstring) :
  NoDup s → NoDup (Set_add s x).
Proof.
  intros Hs. unfold Set_add. case_bool_decide as Hx; [done|].
  apply NoDup_app. split; [done|]. split; [|apply NoDup_singleton].
  intros y Hy ->%list_elem_of_singleton. done.
Qed.

(** One turn of the loop of [existingCategories] adds the category that
    [getTaskCategory] gives. *)
Lemma collect_getTaskCategory (categories : list jsstring) (task : WBSTask.t) :
  (if Category.bracketed (Task.description task) then
     match Task.description task ≫= Category.match_category with
     | Some (g1, _) => Set_add categories g1
     | None => categories
     end
   else categories)
  = match Category.getTaskCategory task with
    | Some c => Set_add categories c
    | None => categories
    end.
Proof.
  unfold Category.getTaskCategory.
  destruct (Category.bracketed _); [|done].
  destruct (Task.description task) as [d|]; simpl; [|done].
  by destruct (Category.match_category d) as [[g1 after]|].
Qed.

Lemma collected_spec (tasks : list WBSTask.t) (acc : list jsstring)
    (c : jsstring) :
  c ∈ foldl (λ categories (task : WBSTask.t),
               if Category.bracketed (Task.description task) then
                 match Task.description task ≫= Category.match_category with
                 | Some (g1, _) => Set_add categories g1
                 | None => categories
                 end
               else categories) acc tasks
  ↔ c ∈ acc ∨ ∃ t : WBSTask.t, t ∈ tasks ∧ Category.getTaskCategory t = Some c.
Proof.
  revert acc. induction tasks as [|u tasks IH]; intros acc; simpl.
  - split; [by left|]. intros [?|(t & Ht & _)]; [done|].
    by apply elem_of_nil in Ht.
  - rewrite IH, collect_getTaskCategory. split.
    + intros [Hc|(t & Ht & Hg)].
      * destruct (Category.getTaskCategory u) as [c'|] eqn:Hu; [|by left].
        apply elem_of_Set_add in Hc as [?| ->]; [by left|].
        right. exists u. split; [by left|done].
      * right. exists t. split; [by right|done].
    + intros [Hc|(t & Ht & Hg)].
      * left. destruct (Category.getTaskCategory u); [|done].
        apply elem_of_Set_add. by left.
      * apply elem_of_cons in Ht as [->|Ht].
        -- left. rewrite Hg. apply elem_of_Set_add. by right.
        -- right. by exists t.
Qed.

Lemma collected_NoDup (tasks : list WBSTask.t) (acc : list jsstring) :
  NoDup acc →
  NoDup (foldl (λ categories (task : WBSTask.t),
                  if Category.bracketed (Task.description task) then
                    match Task.description task
                          ≫= Category.match_category with
                    | Some (g1, _) => Set_add categories g1
                    | None => categories
                    end
                  else categories) acc tasks).
Proof.
  revert acc. induction tasks as [|u tasks IH]; intros acc Hacc; simpl;
    [done|].
  apply IH. rewrite collect_getTaskCategory.
  destruct (Category.getTaskCategory u); [|done]. by apply NoDup_Set_add.
Qed.

(** X6.  The categories offered by the task forms are exactly the categories
    that [getTaskCategory] reads from the tasks, each once, in the order of
    their code units. *)
Theorem existingCategories_lists_the_categories (tasks : list WBSTask.t) :
  (∀ c, c ∈ existingCategories tasks ↔
        ∃ t : WBSTask.t, t ∈ tasks ∧ Category.getTaskCategory t = Some c)
  ∧ NoDup (existingCategories tasks)
  ∧ StronglySorted (λ a b, compareStrings a b < 0) (existingCategories tasks).
Proof.
  assert (NoDup (existingCategories tasks)) as Hnd.
  { unfold existingCategories. rewrite sort_Permutation.
    apply collected_NoDup, NoDup_nil_2. }
  split; [|split; [done|]].
  - intros c. unfold existingCategories.
    rewrite elem_of_sort, collected_spec. split.
    + intros [Hc|?]; [by apply elem_of_nil in Hc|done].
    + by right.
  - assert (StronglySorted (λ a b, compareStrings a b ≤ 0)
              (existingCategories tasks)) as Hs.
    { apply sort_StronglySorted.
      - intros x y _ _. apply compareStrings_total.
      - intros x y z _ _ _. apply compareStrings_trans. }
    induction Hs as [|x l Hs IH Hall]; [constructor|].
    apply NoDup_cons in Hnd as [Hx Hnd].
    constructor; [by apply IH|].
    rewrite Forall_forall in Hall |- *. intros y Hy.
    specialize (Hall y Hy).
    assert (compareStrings x y ≠ 0); [|lia].
    rewrite compareStrings_eq. by intros ->.
Qed.

Lemma hash_foldr (s : jsstring) : hash s = foldr Z.add 0 s.
Proof.
  unfold hash.
  assert (∀ a, foldl (λ a b, a + b) a s = a + foldr Z.add 0 s) as H.
  { induction s as [|c s IH]; intros a; simpl; [lia|]. rewrite IH. lia. }
  rewrite H. lia.
Qed.

Lemma hash_nonneg (s : jsstring) : code_units s → 0 ≤ hash s.
Proof.
  rewrite hash_foldr. induction 1; simpl; lia.
Qed.

Lemma hash_Permutation (s s' : jsstring) : s ≡ₚ s' → hash s = hash s'.
Proof.
  rewrite !hash_foldr. induction 1; simpl; lia.
Qed.

(** X7.  Every category gets one of the seven colours, and the colour only
    depends on which code units the category has, not on their order. *)
Theorem getCategoryColor_in_palette (category : jsstring) :
  code_units category →
  (∃ color, getCategoryColor category = Some color ∧ color ∈ colors)
  ∧ (∀ category', category' ≡ₚ category →
       getCategoryColor category' = getCategoryColor category).
Proof.
  intros Hc. split.
  - unfold getCategoryColor.
    pose proof (hash_nonneg category Hc) as Hh.
    pose proof (Z.rem_bound_pos (hash category) (Z.of_nat (length colors)) Hh
                  ltac:(simpl; lia)) as Hr.
    rewrite bool_decide_eq_true_2 by lia.
    destruct (colors !! Z.to_nat (hash category `rem` Z.of_nat (length colors)))
      as [color|] eqn:Hl.
    + exists color. split; [done|]. by eapply list_elem_of_lookup_2.
    + apply lookup_ge_None in Hl. lia.
  - intros category' Hp. unfold getCategoryColor.
    by rewrite (hash_Permutation _ _ Hp).
Qed.

Lemma getCategoryColor_in_palette_witness :
  code_units (js "dev") ∧
  getCategoryColor (js "dev") = Some (js "#d32f2f") ∧
  getCategoryColor (js "ved") = getCategoryColor (js "dev").
Proof.
  assert (code_units (js "dev")) as Hc.
  { unfold code_units. apply (bool_decide_unpack _). by vm_compute. }
  split; [exact Hc|]. split; [by vm_compute|].
  apply (proj2 (getCategoryColor_in_palette (js "dev") Hc)).
  apply (bool_decide_unpack _). by vm_compute.
Defined.

End CategoriesFacts.

(** ** Nodes and edges of the graph editor *)

Module PERTGraphFacts.
Import JS JSFacts Eff PERTChart PERTGraph.

Lemma pretty_N_char_digit (x : N) : digit (code_of_ascii (pretty_N_char x)).
Proof.
  unfold pretty_N_char, digit. repeat case_match; by vm_compute.
Qed.

Lemma pretty_N_go_digits (x : N) (s : string) :
  Forall digit (js s) → Forall digit (js (pretty_N_go x s)).
Proof.
  revert s. induction (N.lt_wf_0 x) as [x _ IH]. intros s Hs.
  destruct (decide (x = 0)%N) as [->|Hx]; [by rewrite pretty_N_go_0|].
  rewrite pretty_N_go_step by lia.
  apply IH; [apply N.div_lt; lia|].
  unfold js. cbn [String.list_ascii_of_string]. csimpl.
  constructor; [apply pretty_N_char_digit|done].
Qed.

(** The decimal rendering of a natural number has digits only. *)
Lemma toString_digits (n : Z) : 0 ≤ n → Forall digit (toString n).
Proof.
  intros Hn. unfold toString. destruct n as [|p|p]; [| |lia].
  - repeat constructor; by vm_compute.
  - change (pretty (Z.pos p)) with (pretty (N.pos p)).
    unfold pretty, pretty_N. rewrite decide_False by done.
    apply pretty_N_go_digits. constructor.
Qed.

Lemma split_without (sep : Z) (s : jsstring) :
  sep ∉ s → split sep s = [s].
Proof.
  induction s as [|c s IH]; intros Hs; simpl; [done|].
  apply not_elem_of_cons in Hs as [Hc Hs].
  rewrite bool_decide_eq_false_2 by done. by rewrite IH.
Qed.

Lemma split_at (sep : Z) (a b : jsstring) :
  sep ∉ a → split sep (a ++ sep :: b) = a :: split sep b.
Proof.
  induction a as [|c a IH]; intros Ha; simpl.
  - by rewrite bool_decide_eq_true_2.
  - apply not_elem_of_cons in Ha as [Hc Ha].
    rewrite bool_decide_eq_false_2 by done. by rewrite IH.
Qed.

Lemma dash_not_digit (s : jsstring) : Forall digit s → 45 ∉ s.
Proof.
  intros Hs Hin. rewrite Forall_forall in Hs. specialize (Hs _ Hin).
  unfold digit in Hs. lia.
Qed.

(** The identifier of an edge gives back the two task identifiers. *)
Lemma split_edge_id (dep : TaskDependency.t) :
  0 ≤ TaskDependency.depends_on_id dep → 0 ≤ TaskDependency.task_id dep →
  split 45 (Edge.id (edge dep))
  = [toString (TaskDependency.depends_on_id dep);
     toString (TaskDependency.task_id dep)].
Proof.
  intros Hs Ht. unfold edge. cbn [Edge.id app].
  rewrite split_at by by apply dash_not_digit, toString_digits.
  by rewrite split_without by by apply dash_not_digit, toString_digits.
Qed.

(** X3.  Every dependency of a task is drawn as an edge, and a confirmed
    click on that edge asks the server to delete that very dependency: the
    identifier of the edge, split at its dash, gives back the two task
    identifiers, which are natural numbers. *)
Theorem onEdgeClick_deletes_the_dependency_drawn (P : Platform)
    (tasks : list WBSTask.t) (onScheduleChange onUpdateTask : M unit)
    (task : WBSTask.t) (dep : TaskDependency.t) (s : Screen) :
  task ∈ tasks → dep ∈ WBSTask.dependencies task →
  0 ≤ TaskDependency.depends_on_id dep → 0 ≤ TaskDependency.task_id dep →
  Number P (toString (TaskDependency.depends_on_id dep))
  = TaskDependency.depends_on_id dep →
  Number P (toString (TaskDependency.task_id dep))
  = TaskDependency.task_id dep →
  edge dep ∈ newEdges tasks
  ∧ onEdgeClick P onScheduleChange onUpdateTask (Edge.id (edge dep)) true s
    = try_catch
        (request P (taskAPI_deleteDependency
                      (TaskDependency.task_id dep)
                      (TaskDependency.depends_on_id dep));;
         onScheduleChange;;
         onUpdateTask)
        (alert AlertDependencyDeleteFailed) s.
Proof.
  intros Hin Hdep Hs Ht HNs HNt. split.
  - unfold newEdges. apply list_elem_of_bind. exists task. split; [|done].
    apply list_elem_of_fmap. by exists dep.
  - unfold onEdgeClick. cbv zeta. rewrite split_edge_id by done.
    cbn [lookup list_lookup default]. unfold id. by rewrite HNs, HNt.
Qed.

Lemma onEdgeClick_deletes_the_dependency_drawn_witness :
  requests
    (exec (ProjectDetail.perform Sample.online (Sample.data Sample.chain)
             (ProjectDetail.PERT_EdgeClick
                (Edge.id (edge (TaskDependency.mk 3 2 FS))) true))
          Sample.screen0)
  = [(fetch_getProjectTasks 1, true);
     (taskAPI_deleteDependency 3 2, true)].
Proof.
  unfold exec, ProjectDetail.perform.
  rewrite (proj2 (onEdgeClick_deletes_the_dependency_drawn Sample.online
                    Sample.chain ProjectDetail.handleScheduleChange
                    (ProjectDetail.handleUpdateTask Sample.online
                       (Sample.data Sample.chain))
                    (Sample.task 3 None None None [2])
                    (TaskDependency.mk 3 2 FS) Sample.screen0
                    ltac:(vm_compute; set_solver)
                    ltac:(vm_compute; set_solver)
                    ltac:(simpl; lia) ltac:(simpl; lia)
                    ltac:(reflexivity) ltac:(reflexivity))).
  reflexivity.
Defined.

(** X4.  Each node carries the identifier of its task, and a click on a node
    selects the task it was drawn for, when task identifiers identify. *)
Theorem onNodeClick_selects_the_task_drawn (tasks : list WBSTask.t)
    (n : Node.t) :
  unique_ids tasks → n ∈ newNodes tasks →
  Node.task n ∈ tasks ∧ onNodeClick tasks (Node.id n) = Some (Node.task n).
Proof.
  intros Hnd Hn. unfold newNodes in Hn.
  apply list_elem_of_lookup in Hn as [i Hi].
  rewrite list_lookup_imap in Hi.
  destruct (tasks !! i) as [t|] eqn:Ht; [|done].
  cbn in Hi. injection Hi as <-. cbn [Node.task Node.id node].
  apply list_elem_of_lookup_2 in Ht.
  split; [done|]. unfold onNodeClick.
  by apply PERTChartFacts.findTask_unique.
Qed.

Lemma onNodeClick_selects_the_task_drawn_witness :
  unique_ids Sample.chain ∧
  onNodeClick Sample.chain (js "2") = Some (Sample.task 2 None None None [1]).
Proof.
  assert (unique_ids Sample.chain) as Hnd.
  { unfold unique_ids. apply (bool_decide_unpack _). by vm_compute. }
  split; [exact Hnd|].
  apply (onNodeClick_selects_the_task_drawn Sample.chain
           (node 1 (Sample.task 2 None None None [1])) Hnd).
  vm_compute. set_solver.
Defined.

Lemma or_default_falsy (stored : option Q) (fallback : Z) :
  falsy stored = true → or_default stored fallback = inject_Z fallback.
Proof.
  unfold or_default. destruct stored as [q|]; [|done]. by intros ->.
Qed.

(** X5.  Tasks without a stored position are laid out on a grid, four to a
    row, 300 apart and 220 down: no two of them get the same place. *)
Theorem unplaced_nodes_do_not_overlap (tasks : list WBSTask.t) (i j : nat)
    (ni nj : Node.t) :
  newNodes tasks !! i = Some ni → newNodes tasks !! j = Some nj →
  unplaced (Node.task ni) → unplaced (Node.task nj) →
  (Node.x ni, Node.y ni) = (Node.x nj, Node.y nj) → i = j.
Proof.
  unfold newNodes. rewrite !list_lookup_imap.
  destruct (tasks !! i) as [ti|]; [|done].
  destruct (tasks !! j) as [tj|]; [|done].
  cbn. intros [= <-] [= <-]. cbn [Node.task Node.x Node.y node].
  intros [Hxi Hyi] [Hxj Hyj].
  rewrite !or_default_falsy by done.
  unfold inject_Z. intros [= Hx Hy].
  pose proof (Z.div_mod (Z.of_nat i) 4 ltac:(lia)).
  pose proof (Z.div_mod (Z.of_nat j) 4 ltac:(lia)).
  lia.
Qed.

Lemma unplaced_nodes_do_not_overlap_witness :
  newNodes Sample.chain !! 1%nat
  = Some (node 1 (Sample.task 2 None None None [1])) ∧
  newNodes Sample.chain !! 2%nat
  = Some (node 2 (Sample.task 3 None None None [2])) ∧
  ((Node.x (node 1 (Sample.task 2 None None None [1])),
    Node.y (node 1 (Sample.task 2 None None None [1])))
   = (Node.x (node 2 (Sample.task 3 None None None [2])),
      Node.y (node 2 (Sample.task 3 None None None [2])))
   → 1%nat = 2%nat).
Proof.
  split; [reflexivity|]. split; [reflexivity|].
  apply (unplaced_nodes_do_not_overlap Sample.chain 1 2
           (node 1 (Sample.task 2 None None None [1]))
           (node 2 (Sample.task 3 None None None [2]))
           ltac:(reflexivity) ltac:(reflexivity)).
  - split; reflexivity.
  - split; reflexivity.
Defined.

End PERTGraphFacts.

(** ** The order of the timeline *)

Module WBSOrderFacts.
Import JS JSArray JSArrayFacts WBSOrder.

Lemma dated_dateOf (P : Platform) (d : option jsstring) :
  ProjectForm.valid_date P d →
  dateOf P d = None ∨ ∃ ms, dateOf P d = Some (Some ms).
Proof.
  intros Hv. unfold dateOf. destruct d as [[|c v]|]; simpl; [by left| |by left].
  destruct (Hv (c :: v) eq_refl ltac:(done)) as [ms Hms].
  right. exists ms. by rewrite Hms.
Qed.

Ltac dates P t Hd :=
  let Hs := fresh "Hs" in
  let He := fresh "He" in
  destruct Hd as [Hs He];
  apply (dated_dateOf P) in Hs as [Hs|[? Hs]];
  apply (dated_dateOf P) in He as [He|[? He]];
  rewrite ?Hs, ?He.

Lemma order_swap (P : Platform) (a b : Task.t) :
  dated P a → dated P b →
  is_Some (compareTasks P a b) ∧ order P b a = - order P a b.
Proof.
  intros Ha Hb. unfold order, compareTasks, compareEnd.
  dates P a Ha; dates P b Hb; cbn;
    repeat case_bool_decide; cbn; (split; [by eexists|lia]).
Qed.

Lemma order_trans (P : Platform) (a b c : Task.t) :
  dated P a → dated P b → dated P c →
  order P a b ≤ 0 → order P b c ≤ 0 → order P a c ≤ 0.
Proof.
  intros Ha Hb Hc. unfold order, compareTasks, compareEnd.
  dates P a Ha; dates P b Hb; dates P c Hc; cbn;
    repeat case_bool_decide; cbn; lia.
Qed.

Lemma order_tie (P : Platform) (a b : Task.t) :
  dated P a → dated P b → order P a b = 0 → Task.task_id a = Task.task_id b.
Proof.
  intros Ha Hb. unfold order, compareTasks, compareEnd.
  dates P a Ha; dates P b Hb; cbn;
    repeat case_bool_decide; cbn; lia.
Qed.

(** X13.  With the dates of a date input the comparator of [sortedTasks]
    never gives [NaN] and is consistent: swapping its arguments negates it,
    it is transitive, and only tasks with the same identifier tie.  So the
    sort has one possible result. *)
Theorem compareTasks_consistent (P : Platform) (a b c : Task.t) :
  dated P a → dated P b → dated P c →
  is_Some (compareTasks P a b)
  ∧ order P b a = - order P a b
  ∧ (order P a b ≤ 0 → order P b c ≤ 0 → order P a c ≤ 0)
  ∧ (order P a b = 0 → Task.task_id a = Task.task_id b).
Proof.
  intros Ha Hb Hc.
  destruct (order_swap P a b Ha Hb) as [Hsome Hswap].
  split; [done|]. split; [done|]. split.
  - by apply order_trans.
  - by apply order_tie.
Qed.

Lemma StronglySorted_lookup {A} (R : A → A → Prop) (l : list A)
    (i j : nat) (a b : A) :
  StronglySorted R l → (i < j)%nat → l !! i = Some a → l !! j = Some b →
  R a b.
Proof.
  intros Hs. revert i j. induction Hs as [|x l Hs IH Hall]; intros i j Hij.
  - done.
  - destruct i as [|i], j as [|j]; try lia; simpl.
    + intros [= ->] Hb. rewrite Forall_forall in Hall.
      apply Hall. by eapply list_elem_of_lookup_2.
    + apply IH. lia.
Qed.

(** X14.  The timeline lists every task once, tasks with a start date first
    and by ascending start date, tasks that start together by end date with
    the open-ended ones last, and otherwise by identifier. *)
Theorem sortedTasks_ordered (P : Platform) (tasks : list WBSTask.t) :
  Forall (λ t : WBSTask.t, dated P t) tasks →
  sortedTasks P tasks ≡ₚ tasks
  ∧ StronglySorted (λ a b : WBSTask.t, order P a b ≤ 0) (sortedTasks P tasks)
  ∧ (∀ (i j : nat) (a b : WBSTask.t),
       (i < j)%nat →
       sortedTasks P tasks !! i = Some a →
       sortedTasks P tasks !! j = Some b →
       match dateOf P (Task.start_date a), dateOf P (Task.start_date b) with
       | Some (Some ta), Some (Some tb) => ta ≤ tb
       | None, Some _ => False
       | _, _ => True
       end).
Proof.
  intros Hd. rewrite Forall_forall in Hd.
  assert (StronglySorted (λ a b : WBSTask.t, order P a b ≤ 0)
            (sortedTasks P tasks)) as Hs.
  { unfold sortedTasks.
    apply (sort_StronglySorted (λ a b : WBSTask.t, order P a b)).
    - intros x y Hx Hy.
      destruct (order_swap P x y (Hd x Hx) (Hd y Hy)) as [_ Hsw]. lia.
    - intros x y z Hx Hy Hz. apply order_trans; by apply Hd. }
  split; [apply sort_Permutation|]. split; [done|].
  intros i j a b Hij Hi Hj.
  pose proof (StronglySorted_lookup _ _ i j a b Hs Hij Hi Hj) as Hab.
  cbv beta in Hab.
  assert (a ∈ tasks) as Ha.
  { eapply elem_of_sort. by eapply list_elem_of_lookup_2. }
  assert (b ∈ tasks) as Hb.
  { eapply elem_of_sort. by eapply list_elem_of_lookup_2. }
  apply Hd in Ha, Hb. revert Hab.
  unfold order, compareTasks, compareEnd.
  dates P a Ha; dates P b Hb; cbn;
    repeat case_bool_decide; cbn; lia.
Qed.

Lemma dated_sample (t : WBSTask.t) :
  t ∈ SampleViews.dated_tasks → dated Sample.online t.
Proof.
  intros Hin. unfold SampleViews.dated_tasks in Hin.
  repeat (apply elem_of_cons in Hin as [->|Hin];
          [split; intros v Hv _; vm_compute in Hv; simplify_eq/=;
           by eexists|]).
  by apply elem_of_nil in Hin.
Qed.

Lemma compareTasks_consistent_witness :
  order Sample.online
    (Sample.task 3 None (Some (js "2025-09-01")) None [])
    (Sample.task 2 None (Some (js "2025-09-03")) (Some (js "2025-09-05")) [])
  ≤ 0 ∧
  order Sample.online
    (Sample.task 2 None (Some (js "2025-09-03")) (Some (js "2025-09-05")) [])
    (Sample.task 1 None None None [])
  ≤ 0 ∧
  order Sample.online
    (Sample.task 3 None (Some (js "2025-09-01")) None [])
    (Sample.task 1 None None None [])
  ≤ 0.
Proof.
  assert (order Sample.online
            (Sample.task 3 None (Some (js "2025-09-01")) None [])
            (Sample.task 2 None (Some (js "2025-09-03"))
                         (Some (js "2025-09-05")) []) ≤ 0) as H1
    by by vm_compute.
  assert (order Sample.online
            (Sample.task 2 None (Some (js "2025-09-03"))
                         (Some (js "2025-09-05")) [])
            (Sample.task 1 None None None []) ≤ 0) as H2
    by by vm_compute.
  split; [exact H1|]. split; [exact H2|].
  refine (proj1 (proj2 (proj2
            (compareTasks_consistent Sample.online _ _ _ _ _ _))) H1 H2);
    apply dated_sample; unfold SampleViews.dated_tasks; set_solver.
Defined.

Lemma sortedTasks_ordered_witness :
  Forall (λ t : WBSTask.t, dated Sample.online t) SampleViews.dated_tasks ∧
  sortedTasks Sample.online SampleViews.dated_tasks
  = [Sample.task 3 None (Some (js "2025-09-01")) None [];
     Sample.task 2 None (Some (js "2025-09-03")) (Some (js "2025-09-05")) [];
     Sample.task 1 None None None []] ∧
  sortedTasks Sample.online SampleViews.dated_tasks
  ≡ₚ SampleViews.dated_tasks.
Proof.
  assert (Forall (λ t : WBSTask.t, dated Sample.online t)
                 SampleViews.dated_tasks) as Hd.
  { apply Forall_forall. apply dated_sample. }
  split; [exact Hd|]. split; [reflexivity|].
  exact (proj1 (sortedTasks_ordered Sample.online SampleViews.dated_tasks
                  Hd)).
Defined.

End WBSOrderFacts.

(** ** Pages of the list screens *)

Module PagingFacts.
Import JSArray JSArrayFacts Paging.

Lemma paginated_page {A} (filtered : list A) (k n : nat) :
  paginated filtered (Z.of_nat k + 1) (Z.of_nat n)
  = take n (drop (k * n) filtered).
Proof.
  unfold paginated. cbv zeta.
  replace (Z.of_nat k + 1 - 1) with (Z.of_nat k) by lia.
  apply slice_page.
Qed.

Lemma totalPages_bounds {A} (filtered : list A) (itemsPerPage : Z) :
  0 < itemsPerPage →
  0 ≤ totalPages filtered itemsPerPage
  ∧ (totalPages filtered itemsPerPage - 1) * itemsPerPage
    < Z.of_nat (length filtered)
    ≤ totalPages filtered itemsPerPage * itemsPerPage.
Proof.
  intros Hn. unfold totalPages.
  pose proof (WBSViewFacts.ceil_div_spec (Z.of_nat (length filtered))
                itemsPerPage Hn).
  split; [nia|done].
Qed.

(** The pages, one after the other, are the list. *)
Lemma join_paginated {A} (filtered : list A) (itemsPerPage : Z) :
  0 < itemsPerPage →
  mjoin ((λ page, paginated filtered page itemsPerPage)
           <$> seqZ 1 (totalPages filtered itemsPerPage))
  = filtered.
Proof.
  intros Hn.
  destruct (totalPages_bounds filtered itemsPerPage Hn) as [Hm Hb].
  unfold seqZ. rewrite <- list_fmap_compose.
  erewrite (list_fmap_ext _ (λ k, take (Z.to_nat itemsPerPage)
                                (drop (k * Z.to_nat itemsPerPage) filtered))).
  2:{ intros i k _. cbn. rewrite <- paginated_page.
      by rewrite Z2Nat.id by lia. }
  rewrite join_pages. apply take_ge. nia.
Qed.

(** X21.  The numbered pages of a list screen, from 1 to [totalPages], show
    the filtered list once and in its order.  No page is longer than
    [itemsPerPage], every page before the last one is full, the last one is
    not empty, and a page past the last one is empty. *)
Theorem pages_cover_the_list {A} (filtered : list A) (itemsPerPage : Z) :
  0 < itemsPerPage →
  mjoin ((λ page, paginated filtered page itemsPerPage)
           <$> seqZ 1 (totalPages filtered itemsPerPage))
  = filtered
  ∧ (∀ page, Z.of_nat (length (paginated filtered page itemsPerPage))
             ≤ itemsPerPage)
  ∧ (∀ page, 1 ≤ page < totalPages filtered itemsPerPage →
             Z.of_nat (length (paginated filtered page itemsPerPage))
             = itemsPerPage)
  ∧ (∀ page, page = totalPages filtered itemsPerPage → 1 ≤ page →
             paginated filtered page itemsPerPage ≠ [])
  ∧ (∀ page, totalPages filtered itemsPerPage < page →
             paginated filtered page itemsPerPage = []).
Proof.
  intros Hn.
  destruct (totalPages_bounds filtered itemsPerPage Hn) as [Hm Hb].
  split; [by apply join_paginated|].
  assert (∀ page,
    Z.of_nat (length (paginated filtered page itemsPerPage))
    = let len := Z.of_nat (length filtered) in
      let start := (page - 1) * itemsPerPage in
      let k := if bool_decide (start < 0) then Z.max (len + start) 0
               else Z.min start len in
      let final := if bool_decide (start + itemsPerPage < 0)
                   then Z.max (len + (start + itemsPerPage)) 0
                   else Z.min (start + itemsPerPage) len in
      Z.max 0 (Z.min (final - k) (len - k))) as Hlen.
  { intros page. unfold paginated, slice. cbv zeta.
    rewrite length_take, length_drop.
    repeat case_bool_decide; lia. }
  split; [|split; [|split]].
  - intros page. rewrite Hlen. cbv zeta. repeat case_bool_decide; nia.
  - intros page Hp. rewrite Hlen. cbv zeta. repeat case_bool_decide; nia.
  - intros page -> Hp Hnil. apply (f_equal length) in Hnil.
    apply (f_equal Z.of_nat) in Hnil. rewrite Hlen in Hnil.
    cbv zeta in Hnil. simpl in Hnil.
    repeat case_bool_decide; nia.
  - intros page Hp. apply length_zero_iff_nil, Nat2Z.inj.
    rewrite Hlen. cbv zeta. repeat case_bool_decide; nia.
Qed.

Lemma pages_cover_the_list_witness :
  0 < 10 ∧
  Paging.totalPages (seqZ 1 25) 10 = 3 ∧
  paginated (seqZ 1 25) 3 10 = [21; 22; 23; 24; 25] ∧
  mjoin ((λ page, paginated (seqZ 1 25) page 10) <$> seqZ 1 3) = seqZ 1 25.
Proof.
  assert (0 < 10) as H by lia.
  split; [exact H|]. split; [reflexivity|]. split; [reflexivity|].
  exact (proj1 (pages_cover_the_list (seqZ 1 25) 10 H)).
Defined.

End PagingFacts.

(** ** The list of projects *)

Module ProjectListViewFacts.
Import JS JSArray JSArrayFacts Paging ProjectListView.

(** X22.  Across its pages the list of projects shows the projects that match
    the search term and the status filter, each as often as the server listed
    it, in the order of descending identifiers; without a search term and a
    status filter it shows every project. *)
Theorem project_pages_show_the_matches (toLowerCase : jsstring → jsstring)
    (projects : list Project.t) (searchTerm statusFilter : jsstring)
    (itemsPerPage : Z) :
  0 < itemsPerPage →
  let filtered :=
    filteredProjects toLowerCase projects searchTerm statusFilter in
  let shown :=
    mjoin ((λ page, paginated filtered page itemsPerPage)
             <$> seqZ 1 (totalPages filtered itemsPerPage)) in
  shown ≡ₚ filter (λ p, matchesSearch toLowerCase searchTerm p
                        && matchesStatus statusFilter p = true) projects
  ∧ StronglySorted (λ a b, Project.project_id b ≤ Project.project_id a) shown
  ∧ (searchTerm = [] → statusFilter = [] → shown ≡ₚ projects).
Proof.
  intros Hn filtered shown.
  assert (shown = filtered) as -> by by apply PagingFacts.join_paginated.
  assert (filtered
          ≡ₚ filter (λ p, matchesSearch toLowerCase searchTerm p
                          && matchesStatus statusFilter p = true) projects)
    as Hperm by apply sort_Permutation.
  split; [done|]. split.
  - unfold filtered, filteredProjects.
    eapply (StronglySorted_weaken
              (λ a b, Project.project_id b - Project.project_id a ≤ 0));
      [intros a b; lia|].
    apply (sort_StronglySorted
             (λ a b, Project.project_id b - Project.project_id a));
      intros; lia.
  - intros -> ->. rewrite Hperm. by rewrite filter_all.
Qed.

Lemma project_pages_show_the_matches_witness :
  0 < 10 ∧
  filteredProjects (λ s, s)
    [SampleViews.project 1 (js "Shop") (js "ACTIVE");
     SampleViews.project 2 (js "Bank") (js "COMPLETED");
     SampleViews.project 3 (js "Shop 2") (js "ACTIVE")]
    (js "Shop") (js "ACTIVE")
  = [SampleViews.project 3 (js "Shop 2") (js "ACTIVE");
     SampleViews.project 1 (js "Shop") (js "ACTIVE")] ∧
  StronglySorted (λ a b, Project.project_id b ≤ Project.project_id a)
    (mjoin ((λ page,
               paginated
                 (filteredProjects (λ s, s)
                    [SampleViews.project 1 (js "Shop") (js "ACTIVE");
                     SampleViews.project 2 (js "Bank") (js "COMPLETED");
                     SampleViews.project 3 (js "Shop 2") (js "ACTIVE")]
                    (js "Shop") (js "ACTIVE")) page 10)
              <$> seqZ 1
                    (totalPages
                       (filteredProjects (λ s, s)
                          [SampleViews.project 1 (js "Shop") (js "ACTIVE");
                           SampleViews.project 2 (js "Bank")
                                               (js "COMPLETED");
                           SampleViews.project 3 (js "Shop 2")
                                               (js "ACTIVE")]
                          (js "Shop") (js "ACTIVE")) 10))).
Proof.
  assert (0 < 10) as H by lia.
  split; [exact H|]. split; [reflexivity|].
  exact (proj1 (proj2 (project_pages_show_the_matches (λ s, s) _
                         (js "Shop") (js "ACTIVE") 10 H))).
Defined.

End ProjectListViewFacts.

(** ** The list of employees and the page of one employee *)

Module EmployeeListFacts.
Import JS JSArray JSArrayFacts EmployeeList.

Lemma elem_of_filteredEmployees (toLowerCase : jsstring → jsstring)
    (rows : list EmployeeWithWorkload) (searchTerm workloadFilter : jsstring)
    (e : EmployeeWithWorkload) :
  e ∈ filteredEmployees toLowerCase rows searchTerm workloadFilter
  ↔ e ∈ rows ∧ matchesSearch toLowerCase searchTerm e = true
    ∧ matchesWorkload workloadFilter e = true.
Proof.
  unfold filteredEmployees.
  rewrite elem_of_sort, list_elem_of_filter, andb_true_iff. tauto.
Qed.

(** X27.  The two workload filters split the employees that match the search:
    each of them is listed under exactly one of "available" and "busy", and
    under "available" exactly when its row says that it has capacity left (in
    green), which is when a tenth or more of it remains. *)
Theorem workload_filters_split_the_employees
    (toLowerCase : jsstring → jsstring) (rows : list EmployeeWithWorkload)
    (searchTerm : jsstring) (e : EmployeeWithWorkload) :
  (e ∈ filteredEmployees toLowerCase rows searchTerm []
   ↔ e ∈ filteredEmployees toLowerCase rows searchTerm (js "available")
     ∨ e ∈ filteredEmployees toLowerCase rows searchTerm (js "busy"))
  ∧ (e ∈ filteredEmployees toLowerCase rows searchTerm (js "available")
     ↔ e ∈ filteredEmployees toLowerCase rows searchTerm []
       ∧ e ∉ filteredEmployees toLowerCase rows searchTerm (js "busy"))
  ∧ (e ∈ filteredEmployees toLowerCase rows searchTerm (js "available")
     ↔ e ∈ filteredEmployees toLowerCase rows searchTerm []
       ∧ getWorkloadStatus (remaining_capacity e)
         = ([31354; 12365; 12354; 12426], js "#4caf50"))
  ∧ (e ∈ filteredEmployees toLowerCase rows searchTerm (js "available")
     ↔ e ∈ filteredEmployees toLowerCase rows searchTerm []
       ∧ (1 # 10 <= remaining_capacity e)%Q).
Proof.
  rewrite !elem_of_filteredEmployees.
  unfold matchesWorkload, getWorkloadStatus.
  change (truthy (Some [])) with false.
  change (truthy (Some (js "available"))) with true.
  change (truthy (Some (js "busy"))) with true.
  cbn [negb].
  rewrite (bool_decide_eq_true_2 (js "available" = js "available")) by done.
  rewrite (bool_decide_eq_false_2 (js "busy" = js "available")) by done.
  rewrite (bool_decide_eq_true_2 (js "busy" = js "busy")) by done.
  rewrite <- Qle_bool_iff.
  destruct (Qle_bool (1 # 10) (remaining_capacity e)); cbn [negb];
    intuition (try done; try congruence).
Qed.

End EmployeeListFacts.

Module EmployeeDetailFacts.
Import JS EmployeeDetail.

Lemma foldl_ratios (l : list EmployeeProject) (q : Q) :
  foldl (λ sum proj,
           JSNumber.add sum
             (default 0%Q (ProjectMember.allocation_ratio (member proj))))
        q l
  = foldl JSNumber.add q
      ((λ proj, default 0%Q (ProjectMember.allocation_ratio (member proj)))
         <$> l).
Proof.
  revert q. induction l as [|x l IH]; intros q; simpl; [done|]. apply IH.
Qed.

(** X28.  When every membership of an employee belongs to a listed project,
    the page of the employee shows the same total allocation, remaining
    capacity and number of projects as the row of the employee in the list of
    employees. *)
Theorem employee_page_agrees_with_list (employees : list Employee.t)
    (allMembers : list ProjectMember.t) (allProjects : list Project.t)
    (row : EmployeeList.EmployeeWithWorkload) :
  row ∈ EmployeeList.employeesWithWorkload employees allMembers →
  (∀ m, m ∈ allMembers →
        ProjectMember.employee_id m
        = Employee.employee_id (EmployeeList.employee row) →
        ∃ p, p ∈ allProjects
             ∧ Project.project_id p = ProjectMember.project_id m) →
  workloadSummary
    (employeeProjects allMembers allProjects
       (Employee.employee_id (EmployeeList.employee row)))
  = mkWorkloadSummary (EmployeeList.total_allocation row)
                      (EmployeeList.remaining_capacity row)
                      (EmployeeList.project_count row).
Proof.
  intros Hrow Hknown.
  apply list_elem_of_fmap in Hrow as (e & -> & _).
  cbn [EmployeeList.employee EmployeeList.total_allocation
       EmployeeList.remaining_capacity EmployeeList.project_count] in *.
  set (id := Employee.employee_id e) in *.
  assert (employeeProjects allMembers allProjects id
          = (λ member,
               mkEmployeeProject member
                 (List.find (λ p, bool_decide (Project.project_id p
                                     = ProjectMember.project_id member))
                            allProjects))
            <$> filter (λ member, ProjectMember.employee_id member = id)
                       allMembers) as Hall.
  { unfold employeeProjects.
    assert (∀ m, m ∈ filter (λ member, ProjectMember.employee_id member = id)
                            allMembers →
                 is_Some (List.find
                            (λ p, bool_decide (Project.project_id p
                                     = ProjectMember.project_id m))
                            allProjects)) as Hfound.
    { intros m [Hid Hm]%list_elem_of_filter.
      destruct (Hknown m Hm Hid) as (p & Hp & Hpid).
      destruct (List.find _ allProjects) as [p'|] eqn:Hf; [by eexists|].
      exfalso. pose proof (find_none _ _ Hf p) as Hn. cbv beta in Hn.
      rewrite bool_decide_eq_true_2 in Hn by done.
      apply list_elem_of_In in Hp. by specialize (Hn Hp). }
    induction (filter _ allMembers) as [|m l IH]; [done|].
    csimpl. rewrite filter_cons_True.
    - f_equal. apply IH. intros m' Hm'. apply Hfound. by right.
    - cbn. apply Hfound. by left. }
  unfold workloadSummary. rewrite Hall, foldl_ratios.
  rewrite <- list_fmap_compose, length_fmap.
  unfold Workload.total, Workload.allocations. rewrite length_fmap.
  done.
Qed.

Lemma employee_page_agrees_with_list_witness :
  workloadSummary
    (employeeProjects (ProjectDetail.allMembers Sample.staffed)
       [SampleViews.project 2 (js "Bank") (js "ACTIVE")] 1)
  = mkWorkloadSummary (JSNumber.of_decimal (8 # 10))
                      (JSNumber.sub 1 (JSNumber.of_decimal (8 # 10))) 1.
Proof.
  refine (employee_page_agrees_with_list [Sample.alice]
            (ProjectDetail.allMembers Sample.staffed)
            [SampleViews.project 2 (js "Bank") (js "ACTIVE")]
            (EmployeeList.mkEmployeeWithWorkload Sample.alice
               (JSNumber.of_decimal (8 # 10))
               (JSNumber.sub 1 (JSNumber.of_decimal (8 # 10))) 1) _ _).
  - vm_compute. set_solver.
  - intros m Hm _. cbn in Hm.
    apply list_elem_of_singleton in Hm as ->.
    exists (SampleViews.project 2 (js "Bank") (js "ACTIVE")).
    split; [set_solver|reflexivity].
Defined.

End EmployeeDetailFacts.

(** ** The member selection of the project creation dialog *)

Module MemberDialogFacts.
Import JS Eff ProjectList MemberDialog.

Lemma handleMemberToggle_consistent (employeeId : Z) (st : State) :
  consistent st → consistent (handleMemberToggle employeeId st).
Proof.
  intros (Hnd & Hdom & Hid). unfold handleMemberToggle.
  case_bool_decide as Hsel; (split; [|split]); cbn.
  - by apply NoDup_filter.
  - intros id. rewrite list_elem_of_filter, Hdom.
    destruct (decide (id = employeeId)) as [->|Hne].
    + rewrite lookup_delete_eq. split; [by intros [? _]|by intros [? ?]].
    + rewrite lookup_delete_ne by done. tauto.
  - intros id a Ha. apply lookup_delete_Some in Ha as [_ Ha]. by eapply Hid.
  - apply NoDup_app. split; [done|]. split; [|apply NoDup_singleton].
    by intros x Hx ->%list_elem_of_singleton.
  - intros id. rewrite elem_of_app, list_elem_of_singleton, Hdom.
    destruct (decide (id = employeeId)) as [->|Hne].
    + rewrite lookup_insert_eq. split; [by eexists|by right].
    + rewrite lookup_insert_ne by done. split; [by intros [?|?]|by left].
  - intros id a Ha. apply lookup_insert_Some in Ha as [[<- <-]|[_ Ha]];
      [done|by eapply Hid].
Qed.

Lemma handleMemberAllocationChange_consistent (employeeId : Z)
    (change : Change) (st st' : State) :
  consistent st →
  handleMemberAllocationChange employeeId change st = Some st' →
  consistent st'.
Proof.
  intros (Hnd & Hdom & Hid). unfold handleMemberAllocationChange.
  destruct (memberAllocations st !! employeeId) as [prev|] eqn:Hprev; [|done].
  intros [= <-]. split; [|split]; cbn.
  - done.
  - intros id. rewrite Hdom.
    destruct (decide (id = employeeId)) as [->|Hne].
    + rewrite lookup_insert_eq, Hprev. split; by eexists.
    + by rewrite lookup_insert_ne.
  - intros id a Ha. apply lookup_insert_Some in Ha as [[<- <-]|[_ Ha]];
      [|by eapply Hid].
    destruct change; cbn; by eapply Hid.
Qed.

Lemma reachable_is_consistent (workloads : list Workload.t) (st : State) :
  reachable workloads st → consistent st.
Proof.
  induction 1 as [|st e st' _ IH Hstep].
  - split; [apply NoDup_nil_2|]. split.
    + intros id. cbn. rewrite lookup_empty. split; [by intros ?%elem_of_nil|].
      by intros [? ?].
    + intros id a. cbn. by rewrite lookup_empty.
  - destruct e as [id|id value|id value]; cbn in Hstep.
    + injection Hstep as <-. by apply handleMemberToggle_consistent.
    + case_bool_decide; [|done].
      by eapply handleMemberAllocationChange_consistent.
    + case_bool_decide; [|done]. unfold onChangeRatio in Hstep.
      by eapply handleMemberAllocationChange_consistent.
Qed.

(** X23.  However the user ticks members and edits their inputs, the two
    states of the selection agree: no member is selected twice, exactly the
    selected members have an allocation, each under its own identifier; and
    the inputs of a selected member always find the allocation they edit. *)
Theorem member_selection_stays_consistent (workloads : list Workload.t)
    (st : State) :
  reachable workloads st →
  consistent st
  ∧ (∀ employeeId change,
       employeeId ∈ selectedMembers st →
       ∃ st', handleMemberAllocationChange employeeId change st = Some st'
              ∧ selectedMembers st' = selectedMembers st
              ∧ consistent st').
Proof.
  intros Hr. pose proof (reachable_is_consistent workloads st Hr) as Hc.
  split; [done|]. intros employeeId change Hsel.
  destruct Hc as (Hnd & Hdom & Hid).
  destruct (proj1 (Hdom employeeId) Hsel) as [prev Hprev].
  unfold handleMemberAllocationChange at 1. rewrite Hprev.
  eexists. split; [done|]. split; [done|].
  eapply (handleMemberAllocationChange_consistent employeeId change st);
    [done|].
  unfold handleMemberAllocationChange. by rewrite Hprev.
Qed.

Lemma member_selection_stays_consistent_witness :
  reachable [] (handleMemberToggle 7 initial) ∧
  consistent (handleMemberToggle 7 initial).
Proof.
  assert (reachable [] (handleMemberToggle 7 initial)) as Hr.
  { apply (reachable_step [] initial (Toggle 7)); [constructor|done]. }
  split; [exact Hr|].
  exact (proj1 (member_selection_stays_consistent [] _ Hr)).
Defined.

Lemma filter_ne_snoc (l : list Z) (x : Z) :
  x ∉ l → filter (λ id, id ≠ x) (l ++ [x]) = l.
Proof.
  intros Hx. rewrite filter_app, filter_cons_False, filter_nil, app_nil_r.
  - induction l as [|y l IH]; [done|].
    apply not_elem_of_cons in Hx as [Hne Hx].
    rewrite filter_cons_True by done. by rewrite IH.
  - by intros ?.
Qed.

(** X24.  Ticking a member that is not selected and unticking it again leaves
    the selection as it was. *)
Theorem toggle_twice_restores (workloads : list Workload.t) (st : State)
    (employeeId : Z) :
  reachable workloads st → employeeId ∉ selectedMembers st →
  handleMemberToggle employeeId (handleMemberToggle employeeId st) = st.
Proof.
  intros Hr Hsel.
  destruct (reachable_is_consistent workloads st Hr) as (Hnd & Hdom & Hid).
  assert (memberAllocations st !! employeeId = None) as Hnone.
  { apply eq_None_not_Some. by rewrite <- Hdom. }
  unfold handleMemberToggle at 2. rewrite bool_decide_eq_false_2 by done.
  unfold handleMemberToggle. cbn.
  rewrite bool_decide_eq_true_2 by (apply elem_of_app; right; by left).
  rewrite filter_ne_snoc by done.
  rewrite delete_insert_eq, delete_id by done.
  by destruct st.
Qed.

Lemma toggle_twice_restores_witness :
  reachable [] (handleMemberToggle 7 initial) ∧
  (8 ∉ selectedMembers (handleMemberToggle 7 initial)) ∧
  handleMemberToggle 8 (handleMemberToggle 8 (handleMemberToggle 7 initial))
  = handleMemberToggle 7 initial.
Proof.
  assert (reachable [] (handleMemberToggle 7 initial)) as Hr.
  { apply (reachable_step [] initial (Toggle 7)); [constructor|done]. }
  assert (8 ∉ selectedMembers (handleMemberToggle 7 initial)) as Hn.
  { vm_compute. set_solver. }
  split; [exact Hr|]. split; [exact Hn|].
  exact (toggle_twice_restores [] _ 8 Hr Hn).
Defined.

End MemberDialogFacts.

(** ** Project creation from the dialog *)

Module ProjectCreationFacts.
Import JS Eff ProjectList MemberDialog.

Lemma check_members_outcome (employees : list Employee.t)
    (workloads : list Workload.t)
    (memberAllocations : gmap Z MemberAllocation) (selectedMembers : list Z)
    (s : Screen) :
  (∀ id, id ∈ selectedMembers → is_Some (memberAllocations !! id)) →
  ∃ s' b,
    check_members employees workloads memberAllocations selectedMembers s
    = (s', Ok b)
    ∧ requests s' = requests s
    ∧ if b then alerts s' = alerts s
      else ∃ name remaining,
             alerts s' = AlertOverCapacity name remaining :: alerts s.
Proof.
  intros Hall. induction selectedMembers as [|x l IH]; simpl.
  - by exists s, true.
  - destruct (List.find _ workloads) as [w|].
    + destruct (Hall x ltac:(by left)) as [a ->].
      destruct (Workload.exceeds _ _).
      * eexists _, false. split; [reflexivity|]. split; [done|].
        by eexists _, _.
      * apply IH. intros id Hid. apply Hall. by right.
    + apply IH. intros id Hid. apply Hall. by right.
Qed.

Lemma add_members_outcome (P : Platform) (created : Z)
    (memberAllocations : gmap Z MemberAllocation) (selectedMembers : list Z)
    (s : Screen) :
  (∀ id, id ∈ selectedMembers → is_Some (memberAllocations !! id)) →
  alerts (add_members P created memberAllocations selectedMembers s).1
  = alerts s
  ∧ ((add_members P created memberAllocations selectedMembers s).2 = Thrown →
     ∃ c, head (requests
                  (add_members P created memberAllocations selectedMembers
                               s).1)
          = Some (c, false)).
Proof.
  revert s. induction selectedMembers as [|x l IH]; intros s Hall; simpl.
  - done.
  - destruct (Hall x ltac:(by left)) as [a ->].
    unfold mbind, M_bind, bind, request. cbn.
    destruct (responds P (requests s) _) eqn:Hok.
    + specialize (IH (mkScreen (scheduleNeedsRecalculation s)
                        (isCalculatingSchedule s) (showEditForm s)
                        (showAddMemberForm s) (newMember s)
                        ((projectMemberAPI_addMember
                            (ProjectMember.mk created x None
                               (Some (role_in_project a))
                               (Some (if Qeq_bool (allocation_ratio a) 0
                                      then JSNumber.of_decimal (1 # 10)
                                      else allocation_ratio a))
                               (Some (today P)) None), true) :: requests s)
                        (alerts s))
                     ltac:(intros id Hid; apply Hall; by right)).
      exact IH.
    + cbn. split; [done|]. intros _. by eexists.
Qed.

Lemma validate_project_alert (P : Platform) (form : PartialProject.t)
    (a : Alert) :
  ProjectForm.validate_project P form = Some a → a ≠ AlertProjectCreateFailed.
Proof.
  unfold ProjectForm.validate_project.
  repeat case_match; intros [= <-]; done.
Qed.

(** X25.  With a selection made in the dialog, [handleCreateProject] reports
    that the creation failed only when the server rejected the request it
    sent last: reading the allocation of a selected member never fails. *)
Theorem creation_fails_only_on_rejection (P : Platform)
    (workloads : list Workload.t) (employees : list Employee.t)
    (allMembers : list ProjectMember.t) (newProject : PartialProject.t)
    (st : State) (s : Screen) :
  reachable workloads st →
  alerts (exec (handleCreateProject P employees allMembers newProject
                  (selectedMembers st) (memberAllocations st)) s)
  = AlertProjectCreateFailed :: alerts s →
  ∃ c, head (requests
               (exec (handleCreateProject P employees allMembers newProject
                        (selectedMembers st) (memberAllocations st)) s))
       = Some (c, false).
Proof.
  intros Hr.
  destruct (MemberDialogFacts.reachable_is_consistent workloads st Hr)
    as (_ & Hdom & _).
  assert (∀ id, id ∈ selectedMembers st →
                is_Some (memberAllocations st !! id)) as Hall.
  { intros id. apply Hdom. }
  unfold exec, handleCreateProject.
  destruct (ProjectForm.validate_project P newProject) as [a|] eqn:Hv.
  { cbn. intros [= Ha]. by apply validate_project_alert in Hv. }
  unfold try_catch, mbind, M_bind, bind.
  destruct (check_members_outcome employees
              (Workload.employeesWithWorkload employees allMembers)
              (memberAllocations st) (selectedMembers st) s Hall)
    as (s1 & b & -> & Hreq1 & Hal1).
  destruct b.
  - unfold request at 1. cbn.
    destruct (responds P (requests s1) _) eqn:Hok; cbn.
    + unfold getRequests. cbn.
      match goal with
      | |- context [add_members ?P ?c ?m ?l ?s0] =>
          pose proof (add_members_outcome P c m l s0 Hall) as [Hal2 Hthrown];
          destruct (add_members P c m l s0) as [s2 [[]|]] eqn:Hadd
      end; cbn in *.
      * unfold loadData, try_catch, request. cbn.
        destruct (responds P (requests s2) fetch_loadData); cbn;
          rewrite Hal2, Hal1; intros Heq;
          apply (f_equal length) in Heq; simpl in Heq; lia.
      * intros _. by apply Hthrown.
    + intros _. by eexists.
  - cbn. destruct Hal1 as (name & remaining & ->). by intros [= ].
Qed.

Lemma creation_fails_only_on_rejection_witness :
  reachable [] (handleMemberToggle 1 initial) ∧
  alerts (exec (handleCreateProject Sample.offline [Sample.alice] []
                  (Sample.form (Some (js "2025-09-01"))
                               (Some (js "2025-09-30")))
                  (selectedMembers (handleMemberToggle 1 initial))
                  (memberAllocations (handleMemberToggle 1 initial)))
               Sample.screen0)
  = AlertProjectCreateFailed :: alerts Sample.screen0 ∧
  ∃ c, head (requests
               (exec (handleCreateProject Sample.offline [Sample.alice] []
                        (Sample.form (Some (js "2025-09-01"))
                                     (Some (js "2025-09-30")))
                        (selectedMembers (handleMemberToggle 1 initial))
                        (memberAllocations (handleMemberToggle 1 initial)))
                     Sample.screen0))
       = Some (c, false).
Proof.
  assert (reachable [] (handleMemberToggle 1 initial)) as Hr.
  { apply (reachable_step [] initial (Toggle 1)); [constructor|done]. }
  assert (alerts (exec (handleCreateProject Sample.offline [Sample.alice] []
                          (Sample.form (Some (js "2025-09-01"))
                                       (Some (js "2025-09-30")))
                          (selectedMembers (handleMemberToggle 1 initial))
                          (memberAllocations (handleMemberToggle 1 initial)))
                       Sample.screen0)
          = AlertProjectCreateFailed :: alerts Sample.screen0) as Ha
    by by vm_compute.
  split; [exact Hr|]. split; [exact Ha|].
  exact (creation_fails_only_on_rejection Sample.offline [] [Sample.alice]
           [] _ _ Sample.screen0 Hr Ha).
Defined.

End ProjectCreationFacts.

(** ** The checklist of the task detail panel *)

Module ChecklistFacts.
Import JS JSArray JSArrayFacts Eff Local Checklist.

Lemma logged_spec (answers : list (Call * bool) → Call → bool)
    (cs : list Call) (log : list (Call * bool)) :
  fst <$> take (length cs) (logged answers cs log) = reverse cs
  ∧ drop (length cs) (logged answers cs log) = log.
Proof.
  revert log. induction cs as [|c cs IH]; intros log; [done|].
  cbn [logged foldl]. fold (logged answers cs ((c, answers log c) :: log)).
  destruct (IH ((c, answers log c) :: log)) as [IH1 IH2].
  assert (length (logged answers cs ((c, answers log c) :: log))
          = S (length cs + length log)) as Hlen.
  { rewrite <- (take_drop (length cs) (logged _ _ _)) at 1.
    rewrite length_app, IH2, length_take_le; [simpl; lia|].
    apply (f_equal length) in IH2. rewrite length_drop in IH2.
    simpl in IH2. lia. }
  cbn [length]. split.
  - rewrite (take_S_r _ _ (c, answers log c)).
    + rewrite fmap_app, IH1, reverse_cons. done.
    + rewrite <- (Nat.add_0_r (length cs)), <- lookup_drop, IH2. done.
  - rewrite <- (Nat.add_1_r (length cs)), <- drop_drop, IH2. done.
Qed.

Lemma fire_all_spec {St Notice} (answers : list (Call * bool) → Call → bool)
    (cs : list Call) (w : World St Call Notice) :
  fire_all answers cs w
  = (mkWorld (state w) (logged answers cs (calls w)) (notices w),
     Ok (forallb snd (take (length cs) (logged answers cs (calls w))))).
Proof.
  revert w. induction cs as [|c cs IH]; intros w.
  - by destruct w.
  - cbn [fire_all]. unfold bind at 1, fire at 1. cbn.
    unfold bind at 1. rewrite IH. cbn.
    unfold ret. do 2 f_equal.
    fold (logged answers cs ((c, answers (calls w) c) :: calls w)).
    destruct (logged_spec answers cs ((c, answers (calls w) c) :: calls w))
      as [_ Hd].
    rewrite (take_S_r _ _ (c, answers (calls w) c)).
    + rewrite forallb_app. cbn. rewrite andb_true_r. apply andb_comm.
    + rewrite <- (Nat.add_0_r (length cs)), <- lookup_drop, Hd. done.
Qed.

(** The two props never throw, and only the one of the graph editor sets
    the flag. *)
Lemma PERTChart_onUpdate_spec (P : Platform) (D : ProjectDetail.Data)
    (sc : Screen) :
  ∃ sc', PERTChart_onUpdate P D sc = (sc', Ok tt)
         ∧ scheduleNeedsRecalculation sc' = true.
Proof.
  unfold PERTChart_onUpdate, ProjectDetail.handleScheduleChange,
    ProjectDetail.handleUpdateTask, Eff.try_catch, Eff.request,
    setScheduleNeedsRecalculation, mbind, M_bind, Eff.bind. cbn.
  destruct (responds P _ _); by eexists.
Qed.

Lemma WBSView_onUpdateTask_spec (P : Platform) (D : ProjectDetail.Data)
    (sc : Screen) :
  ∃ sc', WBSView_onUpdateTask P D sc = (sc', Ok tt)
         ∧ scheduleNeedsRecalculation sc' = scheduleNeedsRecalculation sc.
Proof.
  unfold WBSView_onUpdateTask, ProjectDetail.handleUpdateTask,
    Eff.try_catch, Eff.request. cbn.
  destruct (responds P _ _); by eexists.
Qed.

(** *** Moving an item *)

Lemma length_splice_out {A} (i : nat) (l : list A) :
  (i < length l)%nat → length (splice_out i l) = (length l - 1)%nat.
Proof.
  intros Hi. unfold splice_out.
  rewrite length_app, length_take, length_drop. lia.
Qed.

Lemma splice_out_in {A} (j : nat) (x : A) (l : list A) :
  (j ≤ length l)%nat → splice_out j (splice_in j x l) = l.
Proof.
  intros Hj. unfold splice_out, splice_in.
  rewrite take_app_le by (rewrite length_take; lia).
  rewrite take_take, Nat.min_id.
  rewrite drop_app_ge by (rewrite length_take; lia).
  rewrite length_take, Nat.min_l by lia.
  replace (S j - j)%nat with 1%nat by lia. cbn.
  rewrite drop_0. apply take_drop.
Qed.

Lemma splice_in_lookup {A} (j : nat) (x : A) (l : list A) :
  (j ≤ length l)%nat → splice_in j x l !! j = Some x.
Proof.
  intros Hj. unfold splice_in.
  rewrite lookup_app_r by (rewrite length_take; lia).
  rewrite length_take, Nat.min_l by lia.
  by rewrite Nat.sub_diag.
Qed.

Lemma splice_Permutation {A} (i j : nat) (x : A) (l : list A) :
  l !! i = Some x → splice_in j x (splice_out i l) ≡ₚ l.
Proof.
  intros Hi. unfold splice_in.
  rewrite <- Permutation_middle, take_drop.
  unfold splice_out.
  rewrite <- (take_drop_middle l i x Hi) at 3.
  by rewrite <- Permutation_middle.
Qed.

(** *** The handlers *)

Ltac step :=
  unfold run, handleDrop, handleChecklistToggle, handleAddChecklistItem,
    handleSaveEditChecklist, setChecklistItems, setNewChecklistItem,
    setDraggedIndex, setEditingChecklist, setEditingChecklistText,
    call_all, call, fire, lift, Local.try_catch, get, getCalls, modify,
    notice, throw, mbind, Local_bind, bind, mret, Local_ret, ret in *;
  cbn in *.

(** X8.  Dropping the dragged item on another row moves it there and keeps
    the order of the other items; every item is then sent its new index.
    When the server fulfils all these updates the panel keeps the new order,
    and when it rejects one the panel shows the checklist of the task again,
    in its stored order, with an alert. *)
Theorem handleDrop_moves_the_item (V : Server) (P : Platform)
    (D : ProjectDetail.Data) (task : WBSTask.t)
    (w : World Panel Call Notice) (i j : nat) (x : TaskChecklist.t) :
  draggedIndex (state w) = Some i →
  checklistItems (state w) !! i = Some x →
  i ≠ j → (j < length (checklistItems (state w)))%nat →
  let newItems := moved i j x (checklistItems (state w)) in
  let w' := run (handleDrop V (PERTChart_onUpdate P D) task j) w in
  newItems ≡ₚ checklistItems (state w)
  ∧ newItems !! j = Some x
  ∧ splice_out j newItems = splice_out i (checklistItems (state w))
  ∧ fst <$> take (length newItems) (calls w') = reverse (updateOrder newItems)
  ∧ drop (length newItems) (calls w') = calls w
  ∧ draggedIndex (state w') = None
  ∧ (if forallb snd (take (length newItems) (calls w'))
     then checklistItems (state w') = newItems ∧ notices w' = notices w
     else checklistItems (state w')
          = bySortOrder (WBSTask.checklist_items task)
          ∧ notices w' = AlertChecklistOrderFailed :: notices w).
Proof.
  intros Hdrag Hx Hij Hj newItems w'.
  assert (i < length (checklistItems (state w)))%nat as Hi
    by by eapply lookup_lt_Some.
  pose proof (length_splice_out i _ Hi) as Hout.
  assert (length (updateOrder newItems) = length newItems) as Hlen
    by apply length_imap.
  split; [by apply splice_Permutation|].
  split; [apply splice_in_lookup; lia|].
  split; [apply splice_out_in; lia|].
  destruct (logged_spec (answers V) (updateOrder newItems) (calls w))
    as [Hlog1 Hlog2].
  rewrite Hlen in Hlog1, Hlog2.
  set (all := forallb snd (take (length newItems)
                (logged (answers V) (updateOrder newItems) (calls w)))).
  assert (∃ sc,
    w' = mkWorld
           (mkPanel (if all then newItems
                     else bySortOrder (WBSTask.checklist_items task))
                    (newChecklistItem (state w)) None
                    (editingChecklist (state w))
                    (editingChecklistText (state w)) sc)
           (logged (answers V) (updateOrder newItems) (calls w))
           (if all then notices w
            else AlertChecklistOrderFailed :: notices w)) as [sc Hrun].
  { subst w'. unfold run, handleDrop.
    unfold mbind at 1, Local_bind, bind at 1, get at 1. cbn.
    rewrite Hdrag, bool_decide_eq_false_2 by done.
    rewrite Hx. fold newItems.
    unfold mbind, Local_bind, bind at 1, Local.try_catch, bind at 1,
      setChecklistItems at 1, modify at 1. cbn.
    unfold bind at 1, call_all, bind at 1. rewrite fire_all_spec. cbn.
    rewrite Hlen. fold all. destruct all.
    - unfold ret at 1, lift. cbn.
      destruct (PERTChart_onUpdate_spec P D (screen (state w)))
        as (sc' & -> & _).
      cbn. by exists sc'.
    - unfold throw at 1. cbn. by eexists. }
  rewrite Hrun. cbn [calls state draggedIndex checklistItems notices].
  split; [done|]. split; [done|]. split; [done|].
  fold all. by destruct all.
Qed.

Lemma handleDrop_moves_the_item_witness :
  draggedIndex (state SampleViews.dragging) = Some 0%nat ∧
  checklistItems (state SampleViews.dragging) !! 0%nat
  = Some (SampleViews.item 11 0) ∧
  checklistItems
    (state (run (handleDrop SampleViews.accepting
                   (PERTChart_onUpdate Sample.online
                      (Sample.data Sample.chain))
                   (Sample.task 1 None None None []) 2)
                SampleViews.dragging))
  = [SampleViews.item 12 1; SampleViews.item 13 2; SampleViews.item 11 0] ∧
  calls (run (handleDrop SampleViews.accepting
                (PERTChart_onUpdate Sample.online (Sample.data Sample.chain))
                (Sample.task 1 None None None []) 2)
             SampleViews.dragging)
  = [(checklistAPI_update 11 (Patch_sort_order 2), true);
     (checklistAPI_update 13 (Patch_sort_order 1), true);
     (checklistAPI_update 12 (Patch_sort_order 0), true)].
Proof.
  pose proof (handleDrop_moves_the_item SampleViews.accepting Sample.online
                (Sample.data Sample.chain) (Sample.task 1 None None None [])
                SampleViews.dragging 0 2 (SampleViews.item 11 0)
                ltac:(reflexivity) ltac:(reflexivity) ltac:(lia)
                ltac:(simpl; lia)) as H.
  cbv zeta in H. destruct H as (_ & _ & _ & _ & _ & _ & Hif).
  split; [reflexivity|]. split; [reflexivity|].
  split; [|reflexivity].
  change (forallb snd _) with true in Hif. exact (proj1 Hif).
Defined.

(** X10.  When the server rejects the update of a ticked or unticked item,
    the checklist of the panel is as it was before the click, nothing of the
    project screen has changed, and an alert is shown. *)
Theorem handleChecklistToggle_rolls_back (V : Server) (onUpdate : Eff.M unit)
    (checklistId : Z) (isDone : bool) (w : World Panel Call Notice) :
  answers V (calls w) (checklistAPI_update checklistId (Patch_is_done isDone))
  = false →
  (∀ item, item ∈ checklistItems (state w) →
           TaskChecklist.checklist_id item = checklistId →
           TaskChecklist.is_done item = negb isDone) →
  run (handleChecklistToggle V onUpdate checklistId isDone) w
  = mkWorld (state w)
      ((checklistAPI_update checklistId (Patch_is_done isDone), false)
         :: calls w)
      (AlertChecklistUpdateFailed :: notices w).
Proof.
  intros Hrej Hwas. step. rewrite Hrej. cbn.
  destruct w as [[items ? ? ? ? ?] ? ?]. cbn in *. do 2 f_equal.
  rewrite <- list_fmap_compose.
  rewrite <- (list_fmap_id items) at 2.
  apply list_fmap_ext. intros k item Hk. cbn.
  apply list_elem_of_lookup_2 in Hk. specialize (Hwas item Hk).
  unfold mark.
  destruct (decide (TaskChecklist.checklist_id item = checklistId))
    as [Hid|Hid].
  - rewrite (bool_decide_eq_true_2 _ Hid). cbn.
    rewrite (bool_decide_eq_true_2 _ Hid).
    rewrite <- (Hwas Hid). by destruct item.
  - rewrite (bool_decide_eq_false_2 _ Hid).
    by rewrite (bool_decide_eq_false_2 _ Hid).
Qed.

Lemma handleChecklistToggle_rolls_back_witness :
  checklistItems
    (state (run (handleChecklistToggle SampleViews.rejecting
                   (PERTChart_onUpdate Sample.online
                      (Sample.data Sample.chain)) 12 true)
                SampleViews.dragging))
  = checklistItems (state SampleViews.dragging).
Proof.
  assert (∀ item, item ∈ checklistItems (state SampleViews.dragging) →
                  TaskChecklist.checklist_id item = 12 →
                  TaskChecklist.is_done item = negb true) as Hwas.
  { intros item Hin _. cbn in Hin.
    repeat (apply elem_of_cons in Hin as [->|Hin]; [reflexivity|]).
    by apply elem_of_nil in Hin. }
  by rewrite (handleChecklistToggle_rolls_back SampleViews.rejecting
                (PERTChart_onUpdate Sample.online (Sample.data Sample.chain))
                12 true SampleViews.dragging eq_refl Hwas).
Defined.

(** X11.  A fulfilled tick marks the item in both views, but only the panel
    of the graph editor then sets the needs-recalculation flag: the timeline
    leaves the flag as it was. *)
Theorem checklist_tick_sets_the_flag_in_the_graph_editor_only (V : Server)
    (P : Platform) (D : ProjectDetail.Data) (checklistId : Z) (isDone : bool)
    (w : World Panel Call Notice) :
  answers V (calls w) (checklistAPI_update checklistId (Patch_is_done isDone))
  = true →
  let inEditor :=
    run (handleChecklistToggle V (PERTChart_onUpdate P D) checklistId isDone)
        w in
  let inTimeline :=
    run (handleChecklistToggle V (WBSView_onUpdateTask P D) checklistId
           isDone) w in
  checklistItems (state inEditor)
  = mark checklistId isDone <$> checklistItems (state w)
  ∧ checklistItems (state inTimeline)
    = mark checklistId isDone <$> checklistItems (state w)
  ∧ notices inEditor = notices w ∧ notices inTimeline = notices w
  ∧ scheduleNeedsRecalculation (screen (state inEditor)) = true
  ∧ scheduleNeedsRecalculation (screen (state inTimeline))
    = scheduleNeedsRecalculation (screen (state w)).
Proof.
  intros Hok inEditor inTimeline. subst inEditor inTimeline.
  destruct (PERTChart_onUpdate_spec P D (screen (state w)))
    as (sc1 & H1 & Hf1).
  destruct (WBSView_onUpdateTask_spec P D (screen (state w)))
    as (sc2 & H2 & Hf2).
  step. rewrite Hok. cbn. rewrite H1, H2. cbn. done.
Qed.

Lemma checklist_tick_sets_the_flag_in_the_graph_editor_only_witness :
  scheduleNeedsRecalculation
    (screen (state (run (handleChecklistToggle SampleViews.accepting
                           (PERTChart_onUpdate Sample.online
                              (Sample.data Sample.chain)) 12 true)
                        SampleViews.dragging))) = true
  ∧ scheduleNeedsRecalculation
      (screen (state (run (handleChecklistToggle SampleViews.accepting
                             (WBSView_onUpdateTask Sample.online
                                (Sample.data Sample.chain)) 12 true)
                          SampleViews.dragging))) = false.
Proof.
  pose proof (checklist_tick_sets_the_flag_in_the_graph_editor_only
                SampleViews.accepting Sample.online
                (Sample.data Sample.chain) 12 true SampleViews.dragging
                ltac:(reflexivity)) as H.
  cbv zeta in H. destruct H as (_ & _ & _ & _ & He & Ht).
  split; [exact He|exact Ht].
Defined.

(** X12.  A blank item name is ignored.  Any other name is sent once,
    unticked and with the number of items shown as its place; when the server
    fulfils the request its item is put last and the input is cleared, and
    when it rejects it nothing changes but for the alert. *)
Theorem handleAddChecklistItem_appends (V : Server) (onUpdate : Eff.M unit)
    (task : WBSTask.t) (w : World Panel Call Notice) :
  let p := state w in
  let w' := run (handleAddChecklistItem V onUpdate task) w in
  let request :=
    checklistAPI_create (Task.task_id task) (newChecklistItem p) false
                        (Z.of_nat (length (checklistItems p))) in
  (trim (newChecklistItem p) = [] → w' = w)
  ∧ (trim (newChecklistItem p) ≠ [] →
     calls w' = (request, answers V (calls w) request) :: calls w
     ∧ if answers V (calls w) request
       then checklistItems (state w')
            = checklistItems p ++ [created V ((request, true) :: calls w)]
            ∧ newChecklistItem (state w') = []
       else state w' = p
            ∧ notices w' = AlertChecklistAddFailed :: notices w).
Proof.
  intros p w' request. subst p w' request. split.
  - intros Hblank. step. rewrite Hblank. cbn. by destruct w.
  - intros Hname. step.
    destruct (trim (newChecklistItem (state w))) as [|c s] eqn:Ht; [done|].
    cbn. destruct (answers V (calls w) _) eqn:Hok; cbn.
    + destruct (onUpdate (screen (state w))) as [sc [[]|]]; cbn; done.
    + split; [done|]. by destruct w as [[] ? ?].
Qed.

(** X15.  The text of an item is changed only once the server has fulfilled
    the update: then the item shows the edited text and the edit row is
    closed; when the server rejects the update the panel stays as it was,
    with an alert. *)
Theorem handleSaveEditChecklist_waits_for_the_server (V : Server)
    (onUpdateTask : Eff.M unit) (checklistId : Z)
    (w : World Panel Call Notice) :
  let text := editingChecklistText (state w) in
  let request := checklistAPI_update checklistId (Patch_item_name text) in
  let w' := run (handleSaveEditChecklist V onUpdateTask checklistId) w in
  calls w' = (request, answers V (calls w) request) :: calls w
  ∧ if answers V (calls w) request
    then checklistItems (state w')
         = rename checklistId text <$> checklistItems (state w)
         ∧ editingChecklist (state w') = None
         ∧ editingChecklistText (state w') = []
    else state w' = state w
         ∧ notices w' = AlertChecklistEditFailed :: notices w.
Proof.
  intros text request w'. subst text request w'. step.
  destruct (answers V (calls w) _); cbn.
  - destruct (onUpdateTask (screen (state w))) as [sc [[]|]]; cbn; done.
  - split; [done|]. by destruct w as [[] ? ?].
Qed.

Lemma renumbered_sorted (k : nat) (l : list TaskChecklist.t) :
  StronglySorted
    (λ a b, TaskChecklist.sort_order a - TaskChecklist.sort_order b ≤ 0)
    (imap (λ index item,
             TaskChecklist.mk (TaskChecklist.checklist_id item)
                              (TaskChecklist.task_id item)
                              (TaskChecklist.item_name item)
                              (TaskChecklist.is_done item)
                              (Z.of_nat (k + index)))
          l)
  ∧ Forall (λ a, Z.of_nat k ≤ TaskChecklist.sort_order a)
      (imap (λ index item,
               TaskChecklist.mk (TaskChecklist.checklist_id item)
                                (TaskChecklist.task_id item)
                                (TaskChecklist.item_name item)
                                (TaskChecklist.is_done item)
                                (Z.of_nat (k + index)))
            l).
Proof.
  revert k. induction l as [|x l IH]; intros k.
  - split; constructor.
  - cbn [imap]. destruct (IH (S k)) as [Hs Hall].
    erewrite (imap_ext _ (λ index item,
                TaskChecklist.mk (TaskChecklist.checklist_id item)
                                 (TaskChecklist.task_id item)
                                 (TaskChecklist.item_name item)
                                 (TaskChecklist.is_done item)
                                 (Z.of_nat (S k + index))));
      [|intros i y _; cbn; do 2 f_equal; lia].
    split.
    + constructor; [done|].
      eapply Forall_impl; [exact Hall|]. intros a Ha. cbn in *. lia.
    + constructor; [cbn; lia|].
      eapply Forall_impl; [exact Hall|]. intros a Ha. cbn in *. lia.
Qed.

(** X9.  The order that [handleDrop] sends is the order the panel shows again
    later: once the server keeps every item with the index it was sent,
    sorting the checklist of the task by [sort_order] gives the items in the
    arrangement of the drop. *)
Theorem order_sent_is_order_shown (newItems : list TaskChecklist.t) :
  bySortOrder (renumbered newItems) = renumbered newItems
  ∧ TaskChecklist.checklist_id <$> renumbered newItems
    = TaskChecklist.checklist_id <$> newItems
  ∧ (λ item, checklistAPI_update (TaskChecklist.checklist_id item)
               (Patch_sort_order (TaskChecklist.sort_order item)))
    <$> renumbered newItems
    = updateOrder newItems.
Proof.
  split; [|split].
  - apply sort_sorted_id. apply (renumbered_sorted 0).
  - unfold renumbered. apply list_eq. intros i.
    rewrite !list_lookup_fmap, list_lookup_imap.
    by destruct (newItems !! i).
  - unfold renumbered, updateOrder. apply list_eq. intros i.
    rewrite list_lookup_fmap, !list_lookup_imap.
    by destruct (newItems !! i).
Qed.

End ChecklistFacts.

(** ** The employee forms *)

Module EmployeeFormFacts.
Import JS Eff Local EmployeeForm.

Lemma validate_employee_None (f : Form) :
  validate_employee f = None ↔ acceptable f.
Proof.
  unfold validate_employee, acceptable.
  destruct (trim (employee_name f)) as [|c s]; cbn.
  { split; [done|]. by intros [? _]. }
  destruct (trim (email f)) as [|c' s']; cbn.
  { split; [done|]. by intros (_ & ? & _). }
  destruct (Qle_bool (daily_work_hours f) 0) eqn:H0; cbn.
  { apply Qle_bool_iff in H0. split; [done|].
    intros (_ & _ & Hpos & _). exfalso. by eapply Qlt_not_le. }
  destruct (Qle_bool (daily_work_hours f) 24) eqn:H24; cbn.
  - apply Qle_bool_iff in H24. split; [|done]. intros _.
    repeat split; try done.
    apply Qnot_le_lt. intros Hle. apply Qle_bool_iff in Hle. congruence.
  - split; [done|]. intros (_ & _ & _ & Hle).
    apply Qle_bool_iff in Hle. congruence.
Qed.

Ltac step :=
  unfold run, handleCreateEmployee, handleEditEmployee, call, fire,
    Local.try_catch, get, getCalls, modify, notice, throw, mbind,
    Local_bind, bind, mret, Local_ret, ret in *;
  cbn in *.

(** X29.  An employee is sent to the server, for creation or for update,
    exactly when the name and the address of the form are not blank and its
    daily hours are more than 0 and at most 24; any other form only gets an
    alert. *)
Theorem employee_requests_need_an_acceptable_form (V : Server)
    (employeeId : Z) (w : World Page Call Notice) :
  (calls (run (handleCreateEmployee V) w) ≠ calls w
   ↔ acceptable (form (state w)))
  ∧ (calls (run (handleEditEmployee V employeeId) w) ≠ calls w
     ↔ acceptable (form (state w)))
  ∧ (∀ n, validate_employee (form (state w)) = Some n →
          run (handleCreateEmployee V) w
          = mkWorld (state w) (calls w) (n :: notices w)
          ∧ run (handleEditEmployee V employeeId) w
            = mkWorld (state w) (calls w) (n :: notices w)).
Proof.
  rewrite <- validate_employee_None.
  destruct (validate_employee (form (state w))) as [n|] eqn:Hv.
  - split; [|split].
    + step. rewrite Hv. cbn. split; [by intros []|done].
    + step. rewrite Hv. cbn. split; [by intros []|done].
    + intros n' [= <-]. step. by rewrite Hv.
  - split; [|split; [|done]].
    + split; [done|]. intros _. step. rewrite Hv. cbn.
      destruct (answers V (calls w) _); cbn; intros Heq;
        apply (f_equal length) in Heq; simpl in Heq; lia.
    + split; [done|]. intros _. step. rewrite Hv. cbn.
      destruct (answers V (calls w) _); cbn.
      * destruct (answers V _ loadEmployeeData); cbn; intros Heq;
          apply (f_equal length) in Heq; simpl in Heq; lia.
      * repeat case_match; cbn; intros Heq;
          apply (f_equal length) in Heq; simpl in Heq; lia.
Qed.

(** X30.  Once the server has created the employee, the form is empty again
    with its eight hours, the dialog is closed and the list is loaded again;
    when the server rejects the employee, the form keeps what was typed. *)
Theorem handleCreateEmployee_resets_the_form (V : Server)
    (w : World Page Call Notice) :
  acceptable (form (state w)) →
  let w' := run (handleCreateEmployee V) w in
  if answers V (calls w) (employeeAPI_create (form (state w)))
  then state w' = mkPage (mkForm [] [] 8) false
       ∧ fst <$> calls w'
         = loadEmployees :: employeeAPI_create (form (state w))
             :: (fst <$> calls w)
       ∧ notices w' = notices w
  else state w' = state w
       ∧ calls w' = (employeeAPI_create (form (state w)), false) :: calls w
       ∧ notices w' = AlertCreateFailed :: notices w.
Proof.
  intros Hacc%validate_employee_None w'. subst w'. step. rewrite Hacc. cbn.
  destruct (answers V (calls w) _); cbn; done.
Qed.

Lemma handleCreateEmployee_resets_the_form_witness :
  acceptable (form (state SampleViews.hiring)) ∧
  state (run (handleCreateEmployee SampleViews.registry) SampleViews.hiring)
  = mkPage (mkForm [] [] 8) false.
Proof.
  assert (acceptable (form (state SampleViews.hiring))) as Hacc.
  { repeat split; done. }
  split; [exact Hacc|].
  exact (proj1 (handleCreateEmployee_resets_the_form SampleViews.registry
                  SampleViews.hiring Hacc)).
Defined.

End EmployeeFormFacts.

(** ** More on the graph editor *)

Module PERTChartMore.
Import JS JSFacts Eff PERTChart PERTChartFacts.

(** X1.  [hasCycle] always returns, and it returns [true] exactly when the
    target task already depends on the source task, in zero or more steps:
    the walk starts at the target and follows the dependencies. *)
Theorem hasCycle_decides_dependency (tasks : list WBSTask.t) (S T : Z) :
  unique_ids tasks →
  hasCycle tasks (toString S) (toString T) = true
  ↔ rtc (depends_on tasks) T S.
Proof.
  intros Hnd. rewrite hasCycle_spec. by apply rtc_walks_depends_on.
Qed.

Lemma hasCycle_decides_dependency_witness :
  unique_ids Sample.chain ∧
  hasCycle Sample.chain (toString 1) (toString 3) = true ∧
  rtc (depends_on Sample.chain) 3 1.
Proof.
  assert (unique_ids Sample.chain) as Hnd.
  { unfold unique_ids. apply (bool_decide_unpack _). by vm_compute. }
  assert (hasCycle Sample.chain (toString 1) (toString 3) = true) as Hc
    by by vm_compute.
  split; [exact Hnd|]. split; [exact Hc|].
  exact (proj1 (hasCycle_decides_dependency Sample.chain 1 3 Hnd) Hc).
Defined.

Lemma onConnect_requests_iff_witness :
  unique_ids (ProjectDetail.tasks (Sample.data Sample.chain)) ∧
  requests (exec (ProjectDetail.perform Sample.online
                    (Sample.data Sample.chain)
                    (ProjectDetail.PERT_Connect (connect 3 1) FS))
                 Sample.screen0)
  ≠ requests Sample.screen0 ∧
  ¬ rtc (depends_on (ProjectDetail.tasks (Sample.data Sample.chain))) 1 3.
Proof.
  assert (unique_ids (ProjectDetail.tasks (Sample.data Sample.chain)))
    as Hnd.
  { unfold unique_ids. apply (bool_decide_unpack _). by vm_compute. }
  assert (requests (exec (ProjectDetail.perform Sample.online
                            (Sample.data Sample.chain)
                            (ProjectDetail.PERT_Connect (connect 3 1) FS))
                         Sample.screen0)
          ≠ requests Sample.screen0) as Hreq by by vm_compute.
  split; [exact Hnd|]. split; [exact Hreq|].
  exact (proj1 (onConnect_requests_iff Sample.online
                  (Sample.data Sample.chain) FS 3 1 Sample.screen0 Hnd)
               Hreq).
Defined.

End PERTChartMore.

(** ** More on the task forms *)

Module TaskFormFacts.
Import JS Eff ProjectDetail.

Lemma validate_task_None (task_name : jsstring) (estimated_duration : Q)
    (assignee_id : jsstring) :
  TaskForm.validate_task task_name estimated_duration assignee_id = None
  ↔ trim task_name ≠ [] ∧ (0 < estimated_duration)%Q ∧ assignee_id ≠ [].
Proof.
  unfold TaskForm.validate_task.
  destruct (trim task_name) as [|c s]; cbn.
  { split; [done|]. by intros [? _]. }
  destruct (Qle_bool estimated_duration 0) eqn:Hd; cbn.
  { apply Qle_bool_iff in Hd. split; [done|].
    intros (_ & Hpos & _). exfalso. by eapply Qlt_not_le. }
  destruct assignee_id as [|c' s']; cbn.
  { split; [done|]. by intros (_ & _ & ?). }
  split; [|done]. intros _. repeat split; try done.
  apply Qnot_le_lt. intros Hle. apply Qle_bool_iff in Hle. congruence.
Qed.

(** X16.  No task is created or updated from a form with a blank name, with a
    duration that is not positive, or without an assignee: the four task
    forms of the timeline and of the graph editor issue a request only when
    their form passes the three checks. *)
Theorem task_requests_need_a_valid_form (P : Platform) (D : Data)
    (s : Screen) :
  (∀ newTask,
     requests (exec (perform P D (WBS_CreateTask newTask)) s) ≠ requests s
     ∨ requests (exec (perform P D (PERT_CreateTask newTask)) s)
       ≠ requests s →
     trim (NewTask.task_name newTask) ≠ []
     ∧ (0 < NewTask.estimated_duration newTask)%Q
     ∧ NewTask.assignee_id newTask ≠ [])
  ∧ (∀ selectedTask task editData,
       requests (exec (perform P D (WBS_SaveTask selectedTask editData)) s)
       ≠ requests s
       ∨ requests (exec (perform P D (PERT_PanelSave task editData)) s)
         ≠ requests s →
       trim (EditData.task_name editData) ≠ []
       ∧ (0 < EditData.estimated_duration editData)%Q
       ∧ EditData.assignee_id editData ≠ []).
Proof.
  split.
  - intros newTask Hreq. apply validate_task_None.
    destruct (TaskForm.validate_task _ _ _) as [a|] eqn:Hv; [|done].
    exfalso. unfold exec, perform, WBSView.handleCreateTask,
      PERTChart.handleCreateTask in Hreq.
    rewrite Hv in Hreq. by destruct Hreq as [Hreq|Hreq].
  - intros selectedTask task editData Hreq. apply validate_task_None.
    destruct (TaskForm.validate_task _ _ _) as [a|] eqn:Hv; [|done].
    exfalso. unfold exec, perform, WBSView.handleSaveTask,
      PERTChart.handleSave in Hreq.
    rewrite Hv in Hreq. destruct Hreq as [Hreq|Hreq]; [|done].
    by destruct selectedTask.
Qed.

Lemma task_requests_need_a_valid_form_witness :
  requests (exec (perform Sample.online (Sample.data Sample.chain)
                    (WBS_CreateTask
                       (NewTask.mk (js "Review") [] 1 [] (js "1") false)))
                 Sample.screen0)
  ≠ requests Sample.screen0 ∧
  trim (js "Review") ≠ [].
Proof.
  assert (requests (exec (perform Sample.online (Sample.data Sample.chain)
                            (WBS_CreateTask
                               (NewTask.mk (js "Review") [] 1 [] (js "1")
                                           false)))
                         Sample.screen0)
          ≠ requests Sample.screen0) as Hreq by by vm_compute.
  split; [exact Hreq|].
  exact (proj1 (proj1 (task_requests_need_a_valid_form Sample.online
                         (Sample.data Sample.chain) Sample.screen0)
                      _ (or_introl Hreq))).
Defined.

(** X17.  A task without a category keeps its description when it is saved
    from a detail panel as it was opened: the panel shows no category and the
    whole description, and puts the same description together again. *)
Theorem description_without_category_is_kept (task : Task.t)
    (d : jsstring) :
  Task.description task = Some d → Category.getTaskCategory task = None →
  Category.getDescriptionWithoutCategory d = d
  ∧ Category.compose_description
      (trim (default [] (Category.getTaskCategory task)))
      (Category.getDescriptionWithoutCategory d)
    = d.
Proof.
  intros Hd Hnone.
  assert (Category.getDescriptionWithoutCategory d = d) as Hsame.
  { unfold Category.getTaskCategory in Hnone. rewrite Hd in Hnone.
    unfold Category.getDescriptionWithoutCategory, Category.match_description.
    destruct (Category.bracketed (Some d)); [|done].
    by destruct (Category.match_category d) as [[g1 after]|]. }
  split; [done|]. by rewrite Hnone, Hsame.
Qed.

Lemma description_without_category_is_kept_witness :
  Category.getTaskCategory (Sample.task 1 (Some (js "[] notes")) None None [])
  = None ∧
  Category.getDescriptionWithoutCategory (js "[] notes") = js "[] notes".
Proof.
  assert (Category.getTaskCategory
            (Sample.task 1 (Some (js "[] notes")) None None []) = None)
    as Hnone by reflexivity.
  split; [exact Hnone|].
  exact (proj1 (description_without_category_is_kept
                  (Sample.task 1 (Some (js "[] notes")) None None [])
                  (js "[] notes") eq_refl Hnone)).
Defined.

End TaskFormFacts.

(** ** More on project creation *)

Module ProjectListMore.
Import JS Eff ProjectList.

Lemma handleCreateProject_rejects_over_capacity_witness :
  requests
    (exec (handleCreateProject Sample.online [Sample.alice]
             (ProjectDetail.allMembers Sample.staffed)
             (Sample.form (Some (js "2025-09-01")) (Some (js "2025-09-30")))
             [1] {[1 := mkMemberAllocation 1 (js "dev")
                                           (JSNumber.of_decimal (3 # 10))]})
          Sample.screen0)
  = requests Sample.screen0.
Proof.
  refine (ProjectFormFacts.handleCreateProject_rejects_over_capacity
            Sample.online [Sample.alice]
            (ProjectDetail.allMembers Sample.staffed)
            (Sample.form (Some (js "2025-09-01")) (Some (js "2025-09-30")))
            [1] {[1 := mkMemberAllocation 1 (js "dev")
                                          (JSNumber.of_decimal (3 # 10))]}
            Sample.screen0 1
            (Workload.mk Sample.alice (JSNumber.of_decimal (8 # 10))
                         (JSNumber.sub 1 (JSNumber.of_decimal (8 # 10))))
            (mkMemberAllocation 1 (js "dev") (JSNumber.of_decimal (3 # 10)))
            _ _ _ _).
  - set_solver.
  - reflexivity.
  - reflexivity.
  - reflexivity.
Defined.

End ProjectListMore.

(** ** More on the project screen *)

Module ProjectDetailFacts.
Import JS JSFacts Eff ProjectDetail.

(** X18.  A recalculation always ends with the spinner off and one alert.
    When the server fulfils it, the project is loaded again, the flag is
    unset and the alert reports the total duration and the length of the
    critical path of the answer; when the server rejects it, nothing is
    loaded, the flag stays as it was and the alert reports the failure. *)
Theorem handleCalculateSchedule_outcome (P : Platform) (D : Data)
    (s : Screen) :
  let s' := exec (handleCalculateSchedule P D) s in
  let request := scheduleAPI_calculateSchedule (projectId D) in
  isCalculatingSchedule s' = false
  ∧ if responds P (requests s) request
    then (∃ ok, requests s'
                = (fetch_loadProjectData (projectId D), ok)
                    :: (request, true) :: requests s)
         ∧ scheduleNeedsRecalculation s' = false
         ∧ alerts s'
           = AlertScheduleDone
               (ScheduleCalculationResult.total_duration
                  (calculated P ((request, true) :: requests s)))
               (length (ScheduleCalculationResult.critical_path
                          (calculated P ((request, true) :: requests s))))
               :: alerts s
    else requests s' = (request, false) :: requests s
         ∧ scheduleNeedsRecalculation s' = scheduleNeedsRecalculation s
         ∧ alerts s' = AlertScheduleFailed :: alerts s.
Proof.
  intros s' request. subst s' request.
  unfold exec, handleCalculateSchedule, loadProjectData, try_finally,
    try_catch, request, alert, getRequests, setScheduleNeedsRecalculation,
    setIsCalculatingSchedule, mbind, M_bind, bind. cbn.
  destruct (responds P (requests s) _); cbn.
  - destruct (responds P _ (fetch_loadProjectData _)); cbn;
      (split; [done|]); (split; [by eexists|done]).
  - done.
Qed.

(** X19.  A project edit that passes the checks and is fulfilled closes the
    form and sets the needs-recalculation flag when the start or the end date
    differs from the one of the loaded project, and leaves the flag as it was
    when both are the same; a rejected edit changes neither the flag nor the
    form and shows an alert. *)
Theorem handleEditProject_sets_the_flag_on_new_dates (P : Platform)
    (D : Data) (editProject : PartialProject.t) (s : Screen) :
  ProjectForm.validate_project P editProject = None →
  let s' := exec (handleEditProject P D editProject) s in
  if responds P (requests s) (projectAPI_update (projectId D) editProject)
  then showEditForm s' = false
       ∧ alerts s' = alerts s
       ∧ (PartialProject.start_date editProject
          ≠ project D ≫= Project.start_date
          ∨ PartialProject.end_date editProject
            ≠ project D ≫= Project.end_date →
          scheduleNeedsRecalculation s' = true)
       ∧ (PartialProject.start_date editProject
          = project D ≫= Project.start_date →
          PartialProject.end_date editProject
          = project D ≫= Project.end_date →
          scheduleNeedsRecalculation s' = scheduleNeedsRecalculation s)
  else showEditForm s' = showEditForm s
       ∧ scheduleNeedsRecalculation s' = scheduleNeedsRecalculation s
       ∧ alerts s' = AlertProjectUpdateFailed :: alerts s.
Proof.
  intros Hv s'. subst s'.
  unfold exec, handleEditProject. rewrite Hv.
  unfold loadProjectData, handleScheduleChange, try_catch, request, alert,
    setScheduleNeedsRecalculation, setShowEditForm, mbind, M_bind, bind.
  cbn.
  destruct (responds P (requests s) _); cbn; [|done].
  repeat case_bool_decide; cbn;
    destruct (responds P _ (fetch_loadProjectData _)); cbn;
    repeat split; try done; intros; try done;
    repeat match goal with H : _ ∨ _ |- _ => destruct H end; done.
Qed.

Lemma handleEditProject_sets_the_flag_on_new_dates_witness :
  ProjectForm.validate_project Sample.online
    (Sample.form (Some (js "2025-09-01")) (Some (js "2025-09-30"))) = None ∧
  scheduleNeedsRecalculation
    (exec (handleEditProject Sample.online Sample.staffed
             (Sample.form (Some (js "2025-09-01")) (Some (js "2025-09-30"))))
          Sample.screen0) = true.
Proof.
  assert (ProjectForm.validate_project Sample.online
            (Sample.form (Some (js "2025-09-01")) (Some (js "2025-09-30")))
          = None) as Hv by reflexivity.
  split; [exact Hv|].
  apply (proj1 (proj2 (proj2
           (handleEditProject_sets_the_flag_on_new_dates Sample.online
              Sample.staffed _ Sample.screen0 Hv)))).
  by left.
Defined.

Lemma find_row (workloads : list Workload.t) (emp : Workload.t) :
  NoDup ((λ w, Employee.employee_id (Workload.employee w)) <$> workloads) →
  emp ∈ workloads →
  List.find
    (λ e, bool_decide
            (Employee.employee_id (Workload.employee e)
             = Employee.employee_id (Workload.employee emp)))
    workloads
  = Some emp.
Proof.
  intros Hnd Hin.
  induction workloads as [|u l IH]; [by apply elem_of_nil in Hin|].
  csimpl in Hnd. apply NoDup_cons in Hnd as [Hu Hnd]. simpl.
  case_bool_decide as Heq.
  - apply elem_of_cons in Hin as [->|Hin]; [done|].
    exfalso. apply Hu. rewrite Heq. apply list_elem_of_fmap. by exists emp.
  - apply elem_of_cons in Hin as [->|Hin]; [done|]. by apply IH.
Qed.

(** X20.  An employee offered by the add-member dialog is not yet a member of
    the project, and the capacity computed for the offer, which the option
    shows rounded to one decimal, is the one the handler checks: when that
    employee is selected, the membership is requested exactly when the ratio
    asked for is at most that capacity. *)
Theorem offered_employee_is_checked (P : Platform) (D : Data) (s : Screen)
    (emp : Workload.t) :
  NoDup (Employee.employee_id <$> employees D) →
  emp ∈ AddMemberDialog.getAvailableEmployees D →
  NewMember.employee_id (newMember s) = AddMemberDialog.option_value emp →
  Number P (AddMemberDialog.option_value emp)
  = Employee.employee_id (Workload.employee emp) →
  (Employee.employee_id (Workload.employee emp)
   ∉ (ProjectMember.employee_id <$> members D))
  ∧ (requests (exec (handleAddMember P D) s) ≠ requests s
     ↔ (NewMember.allocation_ratio (newMember s)
        <= Workload.remaining_capacity emp)%Q).
Proof.
  intros Hnd Hemp Hsel HN.
  unfold AddMemberDialog.getAvailableEmployees in Hemp. cbv zeta in Hemp.
  apply list_elem_of_filter in Hemp as [Hnot Hin].
  split; [done|].
  assert (NoDup ((λ w, Employee.employee_id (Workload.employee w))
                   <$> Workload.employeesWithWorkload (employees D)
                         (allMembers D))) as Hnd'.
  { unfold Workload.employeesWithWorkload.
    by rewrite <- list_fmap_compose. }
  unfold exec, handleAddMember. rewrite Hsel, HN.
  rewrite (find_row _ emp Hnd' Hin).
  unfold Workload.exceeds. rewrite <- Qle_bool_iff.
  destruct (Qle_bool _ _); cbn.
  - split; [done|]. intros _.
    unfold try_catch, request, mbind, M_bind, bind. cbn.
    destruct (responds P (requests s) _); cbn.
    + unfold loadProjectData, try_catch, request. cbn.
      destruct (responds P _ _); cbn; intros Heq;
        apply (f_equal length) in Heq; simpl in Heq; lia.
    + intros Heq. apply (f_equal length) in Heq. simpl in Heq. lia.
  - split; [by intros []|done].
Qed.

Lemma offered_employee_is_checked_witness :
  NoDup (Employee.employee_id <$> employees Sample.half_staffed) ∧
  (Workload.mk Sample.alice (1 # 2) (1 # 2)
   ∈ AddMemberDialog.getAvailableEmployees Sample.half_staffed) ∧
  requests (exec (handleAddMember Sample.online Sample.half_staffed)
                 Sample.asking_25)
  ≠ requests Sample.asking_25.
Proof.
  assert (NoDup (Employee.employee_id <$> employees Sample.half_staffed))
    as Hnd.
  { apply (bool_decide_unpack _). by vm_compute. }
  assert (Workload.mk Sample.alice (1 # 2) (1 # 2)
          ∈ AddMemberDialog.getAvailableEmployees Sample.half_staffed)
    as Hin.
  { vm_compute. set_solver. }
  split; [exact Hnd|]. split; [exact Hin|].
  apply (proj2 (offered_employee_is_checked Sample.online Sample.half_staffed
                  Sample.asking_25 _ Hnd Hin eq_refl eq_refl)).
  by vm_compute.
Defined.

(** The capacity is the one the code computes, in doubles: for an employee
    held at 0.8 it is 1.0 - 0.8 = 0.19999999999999996, which the offer shows
    as 0.2, and a request for 0.2 of that employee is refused. *)
Example a_fifth_after_four_fifths_is_refused :
  AddMemberDialog.getAvailableEmployees Sample.staffed
  = [Workload.mk Sample.alice
       (3602879701896397 # 4503599627370496)
       (900719925474099 # 4503599627370496)]
  ∧ NewMember.allocation_ratio (newMember Sample.asking_20)
    = 3602879701896397 # 18014398509481984
  ∧ handleAddMember Sample.online Sample.staffed Sample.asking_20
    = alert (AlertOverCapacity (Some (js "Alice"))
               (900719925474099 # 4503599627370496)) Sample.asking_20
  ∧ requests (exec (handleAddMember Sample.online Sample.staffed)
                   Sample.asking_20) = [].
Proof. repeat split; by vm_compute. Qed.

End ProjectDetailFacts.
